(** * TextVersion: a differential text-version store

    Shallow embedding of [src/TextVersion.ts] and the properties of its
    record format, diff codec, resolver and mutation operations.

    Modelling conventions.
    - A JavaScript string is a [string]; one [ascii] stands for one UTF-16
      code unit, so the texts covered are those whose code units are below
      256.  [String.length] is the [.length] of the source.
    - A JavaScript number used as an index or a length is a [jsnum]: an
      integer or [NaN].  The source only adds such numbers and compares them
      with string lengths, so exact integers behave as doubles do as long as
      strings are shorter than 2^53 code units.
    - [Record<string, string>] objects used as dictionaries are [gmap string
      string]; a missing key reads as [undefined], modelled by [None].  The
      source's plain objects read an inherited function or object at the
      keys of [Object.prototype] ([prototypeKeys] below) and ignore a string
      assigned to [__proto__]; the model does not, so it stands for the
      source on the names that are none of these keys, and every statement
      about stored or assigned names that is not about named sample
      records assumes [noPrototypeKey] of them.
    - [string | null] is [option string].
    - Code that can throw, recurse without bound or loop without bound runs
      in the [outcome] monad and takes a [fuel] bound: [OutOfFuel] stands
      for the stack overflow (a [RangeError] in the source) of an endless
      chain of references and for a decode loop that never ends; [Throw]
      is kept for the errors the source raises itself. *)

From Stdlib Require Import ZArith Ascii String List Bool Lia.
From Stdlib Require Import Numbers.DecimalString.
From Stdlib Require Numbers.DecimalPos.
From stdpp Require Import base gmap strings list option.

Open Scope string_scope.
Open Scope Z_scope.

(** ** JavaScript numbers, as far as the source uses them *)

Inductive jsnum : Type :=
| Num (z : Z)
| NaN.

Definition isNaN (n : jsnum) : bool :=
  match n with NaN => true | Num _ => false end.

Definition jsadd (a b : jsnum) : jsnum :=
  match a, b with
  | Num x, Num y => Num (x + y)
  | _, _ => NaN
  end.

(** [a < b]: false as soon as one side is [NaN]. *)
Definition jslt (a b : jsnum) : bool :=
  match a, b with
  | Num x, Num y => x <? y
  | _, _ => false
  end.

(** Template-literal conversion [`${n}`] of a number.  The source writes an
    integer of 10^21 or more in exponent form; the numbers printed by the
    statements below are lengths of strings or are bounded by
    [lengthExact]. *)
Definition numToString (n : jsnum) : string :=
  match n with
  | Num z => NilZero.string_of_int (Z.to_int z)
  | NaN => "NaN"
  end.

(** Truthiness of a number: [op.length && op.length > 0]. *)
Definition numPositive (n : jsnum) : bool :=
  match n with Num z => 0 <? z | NaN => false end.

(** ** JavaScript string primitives *)

Definition strlen (s : string) : Z := Z.of_nat (String.length s).

Fixpoint takeStr (n : nat) (s : string) : string :=
  match n, s with
  | O, _ => ""
  | S _, "" => ""
  | S n', String c s' => String c (takeStr n' s')
  end.

Fixpoint dropStr (n : nat) (s : string) : string :=
  match n, s with
  | O, _ => s
  | S _, "" => ""
  | S n', String _ s' => dropStr n' s'
  end.

(** ToIntegerOrInfinity followed by clamping to [0, len]. *)
Definition clampIndex (len : Z) (n : jsnum) : Z :=
  match n with
  | NaN => 0
  | Num z => Z.min (Z.max z 0) len
  end.

(** [s.substring(start, end)]: both ends clamped, then swapped when
    [start > end]. *)
Definition substring (s : string) (start end_ : jsnum) : string :=
  let a := clampIndex (strlen s) start in
  let b := clampIndex (strlen s) end_ in
  let from := Z.min a b in
  let to := Z.max a b in
  takeStr (Z.to_nat (to - from)) (dropStr (Z.to_nat from) s).

(** [s.substring(start)]. *)
Definition substringFrom (s : string) (start : jsnum) : string :=
  substring s start (Num (strlen s)).

(** [s[i]], [None] for [undefined]. *)
Definition charAt (s : string) (i : jsnum) : option ascii :=
  match i with
  | Num z => if z <? 0 then None else String.get (Z.to_nat z) s
  | NaN => None
  end.

Definition startsWithChar (c : ascii) (s : string) : bool :=
  match s with
  | String a _ => Ascii.eqb a c
  | "" => false
  end.

(** [s.includes(c)] for a one-character needle. *)
Fixpoint includesChar (c : ascii) (s : string) : bool :=
  match s with
  | "" => false
  | String a s' => Ascii.eqb a c || includesChar c s'
  end.

(** Offset of the first [c] in [s], if any. *)
Fixpoint findChar (c : ascii) (s : string) : option nat :=
  match s with
  | "" => None
  | String a s' =>
      if Ascii.eqb a c then Some O
      else match findChar c s' with
           | Some k => Some (S k)
           | None => None
           end
  end.

(** [s.indexOf(c, from)] for a one-character needle: [-1] when absent. *)
Definition indexOfFrom (c : ascii) (from : nat) (s : string) : Z :=
  match findChar c (dropStr (Nat.min from (String.length s)) s) with
  | Some k => Z.of_nat (Nat.min from (String.length s) + k)
  | None => -1
  end.

Definition indexOf (c : ascii) (s : string) : Z := indexOfFrom c 0 s.

(** [s.split(c)]: always at least one piece. *)
Fixpoint splitOn (c : ascii) (s : string) : list string :=
  match s with
  | "" => [""]
  | String a s' =>
      if Ascii.eqb a c then "" :: splitOn c s'
      else match splitOn c s' with
           | piece :: rest => String a piece :: rest
           | [] => [String a ""]
           end
  end.

(** [lines.join(sep)]. *)
Fixpoint join (sep : string) (l : list string) : string :=
  match l with
  | [] => ""
  | [x] => x
  | x :: rest => x ++ sep ++ join sep rest
  end.

(** White space and line terminators of ECMAScript among the code units
    below 256: TAB, LF, VT, FF, CR, SP and NBSP. *)
Definition isWhiteSpace (c : ascii) : bool :=
  let n := nat_of_ascii c in
  (Nat.eqb n 9 || Nat.eqb n 10 || Nat.eqb n 11 || Nat.eqb n 12
   || Nat.eqb n 13 || Nat.eqb n 32 || Nat.eqb n 160)%bool.

Fixpoint trimStart (s : string) : string :=
  match s with
  | "" => ""
  | String a s' => if isWhiteSpace a then trimStart s' else s
  end.

(** Drops the trailing white space of [s]. *)
Fixpoint trimEnd (s : string) : string :=
  match s with
  | "" => ""
  | String a s' =>
      match trimEnd s' with
      | "" => if isWhiteSpace a then "" else String a ""
      | t => String a t
      end
  end.

Definition trim (s : string) : string := trimEnd (trimStart s).

(** Truthiness of a string: non-empty. *)
Definition truthy (s : string) : bool :=
  match s with "" => false | _ => true end.

(** Truthiness of [obj[key]] for a string-valued dictionary and a key that
    is none of [prototypeKeys]; at those the source reads an inherited
    value, which is truthy. *)
Definition truthyAt (m : gmap string string) (k : string) : bool :=
  match m !! k with
  | Some s => truthy s
  | None => false
  end.

(** [x || ''] for [x : string | null]. *)
Definition orEmpty (x : option string) : string :=
  match x with Some s => s | None => "" end.

(** *** [parseInt] *)

Definition isDigit (c : ascii) : bool :=
  let n := nat_of_ascii c in (Nat.leb 48 n && Nat.leb n 57)%bool.

(** Value of [c] as a digit in radix 10 or 16. *)
Definition digitValue (radix : Z) (c : ascii) : option Z :=
  let n := Z.of_nat (nat_of_ascii c) in
  let v :=
    if (48 <=? n) && (n <=? 57) then Some (n - 48)
    else if (97 <=? n) && (n <=? 122) then Some (n - 97 + 10)
    else if (65 <=? n) && (n <=? 90) then Some (n - 65 + 10)
    else None in
  match v with
  | Some d => if d <? radix then Some d else None
  | None => None
  end.

Definition orZero (acc : option Z) : Z :=
  match acc with Some z => z | None => 0 end.

(** Longest prefix of digits, read most significant first; [None] when the
    prefix is empty. *)
Fixpoint readDigits (radix : Z) (acc : option Z) (s : string) : option Z :=
  match s with
  | "" => acc
  | String c s' =>
      match digitValue radix c with
      | Some d => readDigits radix (Some (radix * orZero acc + d)) s'
      | None => acc
      end
  end.

(** [parseInt(s)] with no radix argument: leading white space, an optional
    sign, an optional [0x]/[0X] prefix selecting radix 16, then the longest
    run of digits; [NaN] when that run is empty.  The integer is exact,
    as in the source up to 2^53; beyond, the source rounds to a double. *)
Definition parseInt (s : string) : jsnum :=
  let s1 := trimStart s in
  let '(sign, s2) :=
    match s1 with
    | String "-" r => (-1, r)
    | String "+" r => (1, r)
    | _ => (1, s1)
    end in
  let '(radix, s3) :=
    match s2 with
    | String "0" (String "x" r) => (16, r)
    | String "0" (String "X" r) => (16, r)
    | _ => (10, s2)
    end in
  match readDigits radix None s3 with
  | Some v => Num (sign * v)
  | None => NaN
  end.

(** Longest prefix of [s] whose characters satisfy [p]. *)
Fixpoint takeWhileStr (p : ascii -> bool) (s : string) : string :=
  match s with
  | "" => ""
  | String a s' => if p a then String a (takeWhileStr p s') else ""
  end.

(** ** Outcomes of code that may throw or run without bound *)

(** The errors the source raises at a place of its own.  The [RangeError]
    of a stack overflow is [OutOfFuel]; the [TypeError] of a dictionary
    read at a key of [Object.prototype] is outside the model, see
    [noPrototypeKey]. *)
Inductive error : Type :=
| VersionMissing (version : string)       (* reset, squash: target absent *)
| ContentUnavailable (version : string)   (* squash: target resolves to null *)
| UndefinedOption.                        (* TypeError: [content] of undefined *)

Inductive outcome (A : Type) : Type :=
| Return (a : A)
| Throw (e : error)
| OutOfFuel.

Arguments Return {A} a.
Arguments Throw {A} e.
Arguments OutOfFuel {A}.

Definition bind {A B : Type} (k : A -> outcome B) (m : outcome A) : outcome B :=
  match m with
  | Return a => k a
  | Throw e => Throw e
  | OutOfFuel => OutOfFuel
  end.

#[global] Instance outcome_bind : MBind outcome := @bind.
#[global] Instance outcome_ret : MRet outcome := @Return.

(** ** Escape codec *)

(** [s.replace(/c/g, repl)] for a one-character pattern. *)
Fixpoint replaceChar (c : ascii) (repl : string) (s : string) : string :=
  match s with
  | "" => ""
  | String a s' =>
      if Ascii.eqb a c then repl ++ replaceChar c repl s'
      else String a (replaceChar c repl s')
  end.

(** [s.replace(/c1c2/g, repl)] for a two-character pattern: matches are
    taken left to right and do not overlap. *)
Fixpoint replacePair (c1 c2 : ascii) (repl : string) (s : string) : string :=
  match s with
  | "" => ""
  | String a s' =>
      match s' with
      | String b s'' =>
          if Ascii.eqb a c1 && Ascii.eqb b c2
          then repl ++ replacePair c1 c2 repl s''
          else String a (replacePair c1 c2 repl s')
      | "" => String a ""
      end
  end.

Definition backslash : ascii := "\"%char.
Definition LF : ascii := ascii_of_nat 10.
Definition CR : ascii := ascii_of_nat 13.
Definition TAB : ascii := ascii_of_nat 9.

Definition str1 (c : ascii) : string := String c "".
Definition str2 (c d : ascii) : string := String c (String d "").

Definition escapeString (str : string) : string :=
  replaceChar TAB (str2 backslash "t")
    (replaceChar CR (str2 backslash "r")
      (replaceChar LF (str2 backslash "n")
        (replaceChar backslash (str2 backslash backslash) str))).

Definition unescapeString (str : string) : string :=
  replacePair backslash backslash (str1 backslash)
    (replacePair backslash "n" (str1 LF)
      (replacePair backslash "r" (str1 CR)
        (replacePair backslash "t" (str1 TAB) str))).

(** ** Diff codec *)

Inductive DiffOperation : Type :=
| Retain (length : jsnum)
| Delete (length : jsnum)
| Insert (text : string).

Definition isRetain (op : DiffOperation) : bool :=
  match op with Retain _ => true | _ => false end.

(** Drops the trailing operations satisfying [p], as the [pop] loop does. *)
Fixpoint dropTrailing {A : Type} (p : A -> bool) (l : list A) : list A :=
  match l with
  | [] => []
  | x :: rest =>
      match dropTrailing p rest with
      | [] => if p x then [] else [x]
      | kept => x :: kept
      end
  end.

Definition encodeOp (op : DiffOperation) : string :=
  match op with
  | Retain n => "R" ++ numToString n
  | Delete n => "D" ++ numToString n
  | Insert t => "I" ++ numToString (Num (strlen t)) ++ ":" ++ t
  end.

Definition encodeDiff (operations : list DiffOperation) : string :=
  join "" (map encodeOp (dropTrailing isRetain operations)).

Definition notColon (c : ascii) : bool := negb (Ascii.eqb c ":").

(** [opType === c], where [opType] is [encoded[i]] and may be [undefined]. *)
Definition isChar (c : ascii) (opType : option ascii) : bool :=
  match opType with
  | Some a => Ascii.eqb a c
  | None => false
  end.

(** The [while (i < encoded.length)] loop of [decodeDiff]; one unit of fuel
    per iteration.  A character that is no operation tag matches neither
    branch and only advances [i]. *)
Fixpoint decodeLoop (fuel : nat) (encoded : string) (i : jsnum)
    (operations : list DiffOperation) : outcome (list DiffOperation) :=
  match fuel with
  | O => OutOfFuel
  | S fuel' =>
      if jslt i (Num (strlen encoded)) then
        let opType := charAt encoded i in
        let i := jsadd i (Num 1) in
        if isChar "R" opType || isChar "D" opType then
          let numStr := takeWhileStr isDigit (substringFrom encoded i) in
          let i := jsadd i (Num (strlen numStr)) in
          let length := parseInt numStr in
          let op := if isChar "R" opType then Retain length else Delete length in
          decodeLoop fuel' encoded i (operations ++ [op])
        else if isChar "I" opType then
          let lengthStr := takeWhileStr notColon (substringFrom encoded i) in
          let i := jsadd (jsadd i (Num (strlen lengthStr))) (Num 1) in
          let length := parseInt lengthStr in
          let text := substring encoded i (jsadd i length) in
          let i := jsadd i length in
          decodeLoop fuel' encoded i (operations ++ [Insert text])
        else decodeLoop fuel' encoded i operations
      else Return operations
  end.

Definition decodeDiff (fuel : nat) (encoded : string)
  : outcome (list DiffOperation) :=
  decodeLoop fuel encoded (Num 0) [].

(** One step of the [for] loop of [applyDiff] on the pair
    [(result, textIndex)]. *)
Definition applyOp (text : string) (st : string * jsnum) (op : DiffOperation)
  : string * jsnum :=
  let '(result, textIndex) := st in
  match op with
  | Retain n =>
      (result ++ substring text textIndex (jsadd textIndex n), jsadd textIndex n)
  | Delete n => (result, jsadd textIndex n)
  | Insert t => (result ++ t, textIndex)
  end.

Definition applyDiff (text : string) (operations : list DiffOperation)
  : string :=
  let '(result, textIndex) := fold_left (applyOp text) operations ("", Num 0) in
  if jslt textIndex (Num (strlen text))
  then result ++ substringFrom text textIndex
  else result.

(** ** Record codec *)

Record ParsedData : Type := mkParsedData {
  versions : list string;
  snapshots : gmap string string;
  deltas : gmap string string
}.

Definition emptyParsedData : ParsedData := mkParsedData [] ∅ ∅.

(** Body of the [for (const line of lines)] loop of [parseStorage]; a line
    that does not match the grammar leaves [result] unchanged ([continue]).
    The source ignores the assignment under the name [__proto__], one of
    [prototypeKeys]. *)
Definition parseLine (result : ParsedData) (line : string) : ParsedData :=
  if startsWithChar ":" line then
    let withoutColon := substringFrom line (Num 1) in
    let firstColon := indexOf ":" withoutColon in
    if firstColon =? -1 then result else
    let versionNameLength :=
      parseInt (substring withoutColon (Num 0) (Num firstColon)) in
    if isNaN versionNameLength then result else
    let nameEnd := jsadd (Num (firstColon + 1)) versionNameLength in
    let versionName := substring withoutColon (Num (firstColon + 1)) nameEnd in
    let remainingPart := substringFrom withoutColon nameEnd in
    if negb (startsWithChar ":" remainingPart) then result else
    let content := substringFrom remainingPart (Num 1) in
    mkParsedData (versions result ++ [versionName])
                 (<[versionName := unescapeString content]> (snapshots result))
                 (deltas result)
  else
    let firstColon := indexOf ":" line in
    if firstColon =? -1 then result else
    let versionNameLength :=
      parseInt (substring line (Num 0) (Num firstColon)) in
    if isNaN versionNameLength then result else
    let nameEnd := jsadd (Num (firstColon + 1)) versionNameLength in
    let versionName := substring line (Num (firstColon + 1)) nameEnd in
    let remainingPart := substringFrom line nameEnd in
    if negb (startsWithChar ":" remainingPart) then result else
    let contentPart := substringFrom remainingPart (Num 1) in
    (* both arms of the [includes('=')] test store the same thing *)
    mkParsedData (versions result ++ [versionName])
                 (snapshots result)
                 (<[versionName := unescapeString contentPart]> (deltas result)).

Definition parseStorage (storage : string) : ParsedData :=
  if negb (truthy (trim storage)) then emptyParsedData
  else
    let lines := List.filter (fun line => truthy (trim line))
                             (splitOn LF storage) in
    fold_left parseLine lines emptyParsedData.

(** Line emitted for [version], if any: a snapshot line when the stored
    text is truthy, else a delta line when the stored payload is truthy.
    For a [version] among [prototypeKeys] with no entry of its own the
    source hands the inherited value to [escapeString] and fails with a
    [TypeError]. *)
Definition serializeLine (data : ParsedData) (version : string)
  : option string :=
  if truthyAt (snapshots data) version then
    let content := escapeString (orEmpty (snapshots data !! version)) in
    Some (":" ++ numToString (Num (strlen version)) ++ ":" ++ version
              ++ ":" ++ content)
  else if truthyAt (deltas data) version then
    let delta := escapeString (orEmpty (deltas data !! version)) in
    Some (numToString (Num (strlen version)) ++ ":" ++ version ++ ":" ++ delta)
  else None.

Definition serializeStorage (data : ParsedData) : string :=
  join (str1 LF) (omap (serializeLine data) (versions data)).

(** ** Version resolver *)

(** [versions.indexOf(v)]: [-1] when absent. *)
Fixpoint indexOfList (v : string) (l : list string) : Z :=
  match l with
  | [] => -1
  | x :: rest =>
      if String.eqb x v then 0
      else let k := indexOfList v rest in if k =? -1 then -1 else k + 1
  end.

(** [versions.includes(v)]. *)
Definition includes (v : string) (l : list string) : bool :=
  existsb (String.eqb v) l.

(** Backward scan [for (i = versionIndex; i >= 0; i--)] for the nearest
    snapshot: its text and position, [("", -1)] when there is none. *)
Fixpoint findBase (data : ParsedData) (i : nat) : string * Z :=
  let here :=
    match versions data !! i with
    | Some v => if truthyAt (snapshots data) v
                then Some (orEmpty (snapshots data !! v)) else None
    | None => None
    end in
  match here with
  | Some t => (t, Z.of_nat i)
  | None => match i with
            | O => ("", -1)
            | S i' => findBase data i'
            end
  end.

(** Delta replay over the records [vs], in order: a record contributes when
    its payload is truthy and contains no ['=']. *)
Fixpoint replayDeltas (fuel : nat) (data : ParsedData) (vs : list string)
    (currentText : string) : outcome string :=
  match vs with
  | [] => Return currentText
  | v :: rest =>
      if truthyAt (deltas data) v
         && negb (includesChar "=" (orEmpty (deltas data !! v)))
      then
        operations ← decodeDiff fuel (orEmpty (deltas data !! v));
        replayDeltas fuel data rest (applyDiff currentText operations)
      else replayDeltas fuel data rest currentText
  end.

(** Records at positions [from .. to] inclusive. *)
Definition slice (l : list string) (from to : Z) : list string :=
  take (Z.to_nat (to + 1 - from)) (drop (Z.to_nat from) l).

(** [getVersionText]; [fuel] bounds the depth of reference following and
    the iterations of each [decodeDiff] loop.  The source parses the storage
    again at every call, and so does the model. *)
Fixpoint getVersionText (fuel : nat) (decompressedStorage : string)
    (version : string) : outcome (option string) :=
  match fuel with
  | O => OutOfFuel
  | S fuel' =>
      let parsedData := parseStorage decompressedStorage in
      if negb (includes version (versions parsedData)) then Return None
      else if truthyAt (snapshots parsedData) version
      then Return (snapshots parsedData !! version)
      else
        let viaChain :=
          let versionIndex := indexOfList version (versions parsedData) in
          let '(baseText, baseIndex) :=
            findBase parsedData (Z.to_nat versionIndex) in
          currentText ← replayDeltas fuel parsedData
            (slice (versions parsedData) (baseIndex + 1) versionIndex) baseText;
          Return (Some currentText) in
        let referenceData := orEmpty (deltas parsedData !! version) in
        if truthyAt (deltas parsedData) version
           && includesChar "=" referenceData
        then
          let equalIndex := indexOf "=" referenceData in
          if equalIndex =? 0 then
            let colonIndex := indexOfFrom ":" 1 referenceData in
            if negb (colonIndex =? -1) then
              let referencedVersion :=
                substring referenceData (Num 1) (Num colonIndex) in
              let diffOperations :=
                substringFrom referenceData (Num (colonIndex + 1)) in
              base ← getVersionText fuel' decompressedStorage referencedVersion;
              operations ← decodeDiff fuel diffOperations;
              Return (Some (applyDiff (orEmpty base) operations))
            else
              let referencedVersion := substringFrom referenceData (Num 1) in
              getVersionText fuel' decompressedStorage referencedVersion
          else viaChain
        else viaChain
  end.

(** ** Collaborators and the engine object *)

Record CompressionProvider : Type := mkCompressionProvider {
  provider_compress : string -> string;
  provider_decompress : string -> string
}.

(** The part of diff-match-patch the engine calls.  A diff is a list of
    pairs [(operation, data)] with operation [0] (equal), [-1] (delete) or
    [1] (insert); [diff_cleanupSemantic] rewrites the list it is given. *)
Record DiffMatchPatch : Type := mkDiffMatchPatch {
  diff_main : string -> string -> list (Z * string);
  diff_cleanupSemantic : list (Z * string) -> list (Z * string)
}.

Record TextVersion : Type := mkTextVersion {
  compressionProvider : option CompressionProvider;
  dmp : DiffMatchPatch
}.

Definition compress (this : TextVersion) (data : string) : string :=
  match compressionProvider this with
  | Some p => provider_compress p data
  | None => data
  end.

Definition decompress (this : TextVersion) (data : string) : string :=
  match compressionProvider this with
  | Some p => provider_decompress p data
  | None => data
  end.

(** ** Diff provider adapter *)

Definition optimizeSimpleOperations (operations : list DiffOperation)
  : list DiffOperation :=
  List.filter (fun op => match op with
                         | Retain n | Delete n => numPositive n
                         | Insert t => truthy t
                         end) operations.

Definition convertDmpDiff (d : Z * string) : list DiffOperation :=
  let '(operation, data) := d in
  if operation =? 0 then
    if 0 <? strlen data then [Retain (Num (strlen data))] else []
  else if operation =? -1 then
    if 0 <? strlen data then [Delete (Num (strlen data))] else []
  else if operation =? 1 then
    if 0 <? strlen data then [Insert data] else []
  else [].

Definition convertDmpDiffsToOperations (diffs : list (Z * string))
  : list DiffOperation :=
  optimizeSimpleOperations (concat (map convertDmpDiff diffs)).

Definition calculateDiff (this : TextVersion) (oldText newText : string)
  : list DiffOperation :=
  if String.eqb oldText newText then
    if 0 <? strlen oldText then [Retain (Num (strlen oldText))] else []
  else if strlen oldText =? 0 then
    if 0 <? strlen newText then [Insert newText] else []
  else if strlen newText =? 0 then
    [Delete (Num (strlen oldText))]
  else
    let diffs := diff_main (dmp this) oldText newText in
    convertDmpDiffsToOperations (diff_cleanupSemantic (dmp this) diffs).

(** ** Version names *)

(** ToInt32: wrap into [-2^31, 2^31). *)
Definition toInt32 (z : Z) : Z := (z + 2 ^ 31) mod 2 ^ 32 - 2 ^ 31.

(** One round of the hash: [hash = ((hash << 5) - hash) + char;
    hash = hash & hash]. *)
Definition hashStep (hash : Z) (c : ascii) : Z :=
  toInt32 (toInt32 (hash * 32) - hash + Z.of_nat (nat_of_ascii c)).

Fixpoint hashLoop (hash : Z) (text : string) : Z :=
  match text with
  | "" => hash
  | String c rest => hashLoop (hashStep hash c) rest
  end.

Definition digit36 (d : Z) : ascii :=
  if d <? 10 then ascii_of_nat (Z.to_nat (48 + d))
  else ascii_of_nat (Z.to_nat (97 + d - 10)).

(** Base-36 digits of [n], most significant first, at most [fuel] of them. *)
Fixpoint toString36 (fuel : nat) (n : Z) (acc : string) : string :=
  match fuel with
  | O => acc
  | S fuel' =>
      let acc' := String (digit36 (n mod 36)) acc in
      if n / 36 =? 0 then acc' else toString36 fuel' (n / 36) acc'
  end.

(** [Math.abs(hash).toString(36)]; a 32-bit magnitude has at most seven
    base-36 digits. *)
Definition generateHash (text : string) : string :=
  toString36 7 (Z.abs (hashLoop 0 text)) "".

(** The [while (existingVersions.includes(candidate))] loop.  Among
    [n + 1] candidates of different lengths one is absent from a list of
    [n] names, so [n + 1] rounds are enough. *)
Fixpoint appendHashes (rounds : nat) (existingVersions : list string)
    (candidate : string) : string :=
  match rounds with
  | O => candidate
  | S rounds' =>
      if includes candidate existingVersions
      then appendHashes rounds' existingVersions (candidate ++ "#")
      else candidate
  end.

Definition resolveVersionName (existingVersions : list string)
    (proposedVersion : string) : string :=
  if negb (includes proposedVersion existingVersions) then proposedVersion
  else appendHashes (List.length existingVersions) existingVersions
                    (proposedVersion ++ "#").

(** ** Version graph mutator *)

(** A candidate encoding: its payload and the length of the line that would
    hold it. *)
Record DiffOption : Type := mkDiffOption {
  content : string;
  optLength : Z
}.

(** [options.sort((a, b) => a.length - b.length)]: [Array.prototype.sort]
    is stable, here an insertion sort that keeps equal lengths in order. *)
Fixpoint insertByLength (o : DiffOption) (sorted : list DiffOption)
  : list DiffOption :=
  match sorted with
  | [] => [o]
  | x :: rest =>
      if optLength o <=? optLength x then o :: sorted
      else x :: insertByLength o rest
  end.

Definition sortByLength (options : list DiffOption) : list DiffOption :=
  foldr insertByLength [] options.

(** Length of [`${versionName.length}:${versionName}:${escape(payload)}`]. *)
Definition serializedLength (versionName payload : string) : Z :=
  strlen (numToString (Num (strlen versionName)) ++ ":" ++ versionName
            ++ ":" ++ escapeString payload).

Section Engine.

Variable this : TextVersion.

(** Option 1: the diff against the previous version, the one before last
    in [versions], which already ends with the new name. *)
Definition deltaOption (fuel : nat) (parsedData : ParsedData)
    (text versionName decompressedStorage : string)
  : outcome (list DiffOption) :=
  if 1 <? Z.of_nat (List.length (versions parsedData)) then
    let latestVersion :=
      orEmpty (versions parsedData !! (List.length (versions parsedData) - 2)%nat) in
    latest ← getVersionText fuel decompressedStorage latestVersion;
    let latestText := orEmpty latest in
    let diffContent := encodeDiff (calculateDiff this latestText text) in
    Return [mkDiffOption diffContent (serializedLength versionName diffContent)]
  else Return [].

(** Option 2, once per [baseVersion] of the second loop. *)
Definition hybridOption (fuel : nat) (text versionName decompressedStorage : string)
    (baseVersion : string) : outcome DiffOption :=
  base ← getVersionText fuel decompressedStorage baseVersion;
  let baseText := orEmpty base in
  let diffContent := encodeDiff (calculateDiff this baseText text) in
  let hybridContent := "=" ++ baseVersion ++ ":" ++ diffContent in
  Return (mkDiffOption hybridContent (serializedLength versionName hybridContent)).

(** Runs [f] over [l] from left to right, stopping at the first failure. *)
Fixpoint forEach {A B : Type} (f : A -> outcome B) (l : list A)
  : outcome (list B) :=
  match l with
  | [] => Return []
  | x :: rest => y ← f x; ys ← forEach f rest; Return (y :: ys)
  end.

(** The [options] array just before it is sorted. *)
Definition diffOptions (fuel : nat) (parsedData : ParsedData)
    (text versionName decompressedStorage : string)
  : outcome (list DiffOption) :=
  first ← deltaOption fuel parsedData text versionName decompressedStorage;
  others ← forEach (hybridOption fuel text versionName decompressedStorage)
             (take (List.length (versions parsedData) - 2)%nat (versions parsedData));
  Return (first ++ others)%list.

(** [options[0]] after sorting; [None] is [undefined]. *)
Definition findBestDiffOption (fuel : nat) (parsedData : ParsedData)
    (text versionName decompressedStorage : string)
  : outcome (option DiffOption) :=
  options ← diffOptions fuel parsedData text versionName decompressedStorage;
  Return (head (sortByLength options)).

Definition addVersionReference (storage referencedVersion newVersionName : string)
  : string :=
  let decompressed := decompress this storage in
  let parsedData := parseStorage decompressed in
  let newData :=
    mkParsedData (versions parsedData ++ [newVersionName])
                 (snapshots parsedData)
                 (<[newVersionName := "=" ++ referencedVersion]> (deltas parsedData)) in
  compress this (serializeStorage newData).

(** The duplicate scan of [commit]: the first existing version whose
    resolved text is [text]. *)
Fixpoint findSameText (fuel : nat) (decompressed text : string)
    (existing : list string) : outcome (option string) :=
  match existing with
  | [] => Return None
  | existingVersion :: rest =>
      existingText ← getVersionText fuel decompressed existingVersion;
      if decide (existingText = Some text) then Return (Some existingVersion)
      else findSameText fuel decompressed text rest
  end.

(** [commit(storage, text, version?)]; an absent or empty [version] selects
    the hash of [text].  [bestStorage.content] is a TypeError when
    [options] is empty, which cannot happen: [versions] holds two names or
    more on that path. *)
Definition commit (fuel : nat) (storage text : string) (version : option string)
  : outcome string :=
  let decompressed := decompress this storage in
  let parsedData := parseStorage decompressed in
  let versionName :=
    if truthy (orEmpty version)
    then resolveVersionName (versions parsedData) (orEmpty version)
    else resolveVersionName (versions parsedData) (generateHash text) in
  same ← findSameText fuel decompressed text (versions parsedData);
  match same with
  | Some existingVersion =>
      Return (addVersionReference storage existingVersion versionName)
  | None =>
      let pushed :=
        mkParsedData (versions parsedData ++ [versionName])
                     (snapshots parsedData) (deltas parsedData) in
      if Z.of_nat (List.length (versions pushed)) =? 1 then
        let newData :=
          mkParsedData (versions pushed)
                       (<[versionName := text]> (snapshots pushed))
                       (deltas pushed) in
        Return (compress this (serializeStorage newData))
      else
        bestStorage ← findBestDiffOption fuel pushed text versionName decompressed;
        match bestStorage with
        | Some best =>
            let newData :=
              mkParsedData (versions pushed) (snapshots pushed)
                           (<[versionName := content best]> (deltas pushed)) in
            Return (compress this (serializeStorage newData))
        | None => Throw UndefinedOption
        end
  end.

Definition show (fuel : nat) (storage version : string)
  : outcome (option string) :=
  getVersionText fuel (decompress this storage) version.

Record VersionInfo : Type := mkVersionInfo {
  version : string;
  isSnapshot : bool
}.

Definition log (storage : string) : list VersionInfo :=
  let parsedData := parseStorage (decompress this storage) in
  map (fun v => mkVersionInfo v (truthyAt (snapshots parsedData) v))
      (versions parsedData).

(** Body of the copy loop of [reset]. *)
Definition keepRecord (parsedData newParsedData : ParsedData) (v : string)
  : ParsedData :=
  let withSnapshot :=
    if truthyAt (snapshots parsedData) v
    then <[v := orEmpty (snapshots parsedData !! v)]> (snapshots newParsedData)
    else snapshots newParsedData in
  let withDelta :=
    if truthyAt (deltas parsedData) v
    then <[v := orEmpty (deltas parsedData !! v)]> (deltas newParsedData)
    else deltas newParsedData in
  mkParsedData (versions newParsedData) withSnapshot withDelta.

Definition reset (storage targetVersion : string) : outcome string :=
  let parsedData := parseStorage (decompress this storage) in
  let targetIndex := indexOfList targetVersion (versions parsedData) in
  if targetIndex =? -1 then Throw (VersionMissing targetVersion)
  else
    let keepVersions := take (Z.to_nat (targetIndex + 1)) (versions parsedData) in
    let newParsedData :=
      fold_left (keepRecord parsedData) keepVersions
                (mkParsedData keepVersions ∅ ∅) in
    Return (compress this (serializeStorage newParsedData)).

Definition latest (fuel : nat) (storage : string) : outcome string :=
  let decompressed := decompress this storage in
  let parsedData := parseStorage decompressed in
  if Z.of_nat (List.length (versions parsedData)) =? 0 then Return ""
  else
    let latestVersion :=
      orEmpty (versions parsedData !! (List.length (versions parsedData) - 1)%nat) in
    text ← getVersionText fuel decompressed latestVersion;
    Return (orEmpty text).

(** Body of the copy loop of [squash]: a snapshot wins over a delta. *)
Definition carryRecord (parsedData newParsedData : ParsedData) (v : string)
  : ParsedData :=
  if truthyAt (snapshots parsedData) v then
    mkParsedData (versions newParsedData)
                 (<[v := orEmpty (snapshots parsedData !! v)]> (snapshots newParsedData))
                 (deltas newParsedData)
  else if truthyAt (deltas parsedData) v then
    mkParsedData (versions newParsedData)
                 (snapshots newParsedData)
                 (<[v := orEmpty (deltas parsedData !! v)]> (deltas newParsedData))
  else newParsedData.

Definition squash (fuel : nat) (storage targetVersion : string)
  : outcome string :=
  let decompressed := decompress this storage in
  let parsedData := parseStorage decompressed in
  let targetIndex := indexOfList targetVersion (versions parsedData) in
  if targetIndex =? -1 then Throw (VersionMissing targetVersion)
  else
    resolved ← getVersionText fuel decompressed targetVersion;
    match resolved with
    | None => Throw (ContentUnavailable targetVersion)
    | Some targetText =>
        let kept := drop (Z.to_nat targetIndex) (versions parsedData) in
        let start := mkParsedData kept {[targetVersion := targetText]} ∅ in
        let newParsedData :=
          fold_left (carryRecord parsedData)
                    (drop (Z.to_nat (targetIndex + 1)) (versions parsedData))
                    start in
        Return (compress this (serializeStorage newParsedData))
    end.

End Engine.

(** Every name with a stored text or payload is listed in [versions]. *)
Definition keysListed (data : ParsedData) : Prop :=
  forall k, is_Some (snapshots data !! k) \/ is_Some (deltas data !! k) ->
            In k (versions data).

(** [candidate] after [k] more rounds of [candidate += '#']. *)
Fixpoint addHashes (k : nat) (candidate : string) : string :=
  match k with
  | O => candidate
  | S k' => addHashes k' (candidate ++ "#")
  end.

(** The list [l] without the records named [v]. *)
Definition without (v : string) (l : list string) : list string :=
  List.filter (fun x => negb (String.eqb x v)) l.

(** The test that sends [getVersionText] into its reference branch: a
    truthy payload that contains ['='], and has it as first character. *)
Definition takesReferenceBranch (data : ParsedData) (v : string) : bool :=
  truthyAt (deltas data) v
  && includesChar "=" (orEmpty (deltas data !! v))
  && (indexOf "=" (orEmpty (deltas data !! v)) =? 0).

(** Names for what [findBestDiffOption] pushes: the option built for a
    payload, and the payload of the hybrid candidate against
    [baseVersion], whose resolved text is [base]. *)
Definition optionOf (versionName payload : string) : DiffOption :=
  mkDiffOption payload (serializedLength versionName payload).

Definition hybridPayload (this : TextVersion) (text baseVersion : string)
    (base : option string) : string :=
  "=" ++ baseVersion ++ ":" ++ encodeDiff (calculateDiff this (orEmpty base) text).

(** A provider that deletes the whole old text and inserts the whole new
    one, and an engine built on it without compression; used to run the
    operations on concrete inputs. *)
Definition wholeTextDmp : DiffMatchPatch :=
  mkDiffMatchPatch (fun oldText newText => [(-1, oldText); (1, newText)])
                   (fun diffs => diffs).

Definition plainEngine : TextVersion := mkTextVersion None wholeTextDmp.

(** A provider that keeps the longest common prefix, deletes the rest of
    the old text and inserts the rest of the new one. *)
Fixpoint commonPrefix (a b : string) : string :=
  match a, b with
  | String x a', String y b' =>
      if Ascii.eqb x y then String x (commonPrefix a' b') else ""
  | _, _ => ""
  end.

Definition prefixDmp : DiffMatchPatch :=
  mkDiffMatchPatch
    (fun oldText newText =>
       let p := commonPrefix oldText newText in
       [(0, p);
        (-1, dropStr (String.length p) oldText);
        (1, dropStr (String.length p) newText)])
    (fun diffs => diffs).

Definition prefixEngine : TextVersion := mkTextVersion None prefixDmp.

(** Two records: [v1] holds "abcdefgh", [v2] holds "x". *)
Definition twoRecords : string :=
  ":2:v1:abcdefgh" ++ str1 LF ++ "2:v2:D8I1:x".

(** The storage after the commits of "abc", "x" and "abc" again. *)
Definition revertedStorage : string :=
  ":2:v1:abc" ++ str1 LF ++ "2:v2:D3I1:x" ++ str1 LF ++ "2:v3:=v1".

(** A snapshot "a", a delta to "a=b" and a delta from that to "a=bc". *)
Definition equalsInDelta : string :=
  ":2:v1:a" ++ str1 LF ++ "2:v2:R1I2:=b" ++ str1 LF ++ "2:v3:R3I1:c".


Definition danglingAfter : string :=
  ":2:v2:x" ++ str1 LF ++ "2:v3:=v1" ++ str1 LF ++ "2:v4:=v1:R3I1:d".

(** ** The escape codec read token by token *)

(** What one character of a text becomes in its escaped form, at some
    stage of unescaping: a character standing for itself, a doubled
    backslash, or a backslash followed by a letter. *)
Inductive token : Type :=
| Plain (c : ascii)
| Doubled
| Escaped (letter : ascii).

Definition tokenText (k : token) : string :=
  match k with
  | Plain c => str1 c
  | Doubled => str2 backslash backslash
  | Escaped y => str2 backslash y
  end.

Fixpoint tokensText (ks : list token) : string :=
  match ks with
  | [] => ""
  | k :: rest => tokenText k ++ tokensText rest
  end.

(** The token [escapeString] writes for a character. *)
Definition tokenOf (c : ascii) : token :=
  if Ascii.eqb c backslash then Doubled
  else if Ascii.eqb c LF then Escaped "n"
  else if Ascii.eqb c CR then Escaped "r"
  else if Ascii.eqb c TAB then Escaped "t"
  else Plain c.

Fixpoint tokensOf (s : string) : list token :=
  match s with
  | "" => []
  | String c rest => tokenOf c :: tokensOf rest
  end.

(** One replacement of [unescapeString], of backslash-[x] by [X], seen on
    a token. *)
Definition unescapeToken (x X : ascii) (k : token) : token :=
  match k with
  | Escaped y => if Ascii.eqb y x then Plain X else Escaped y
  | _ => k
  end.

(** No backslash of [s] is followed by the letter [x]. *)
Fixpoint noBackslashThen (x : ascii) (s : string) : bool :=
  match s with
  | String a ((String b _) as rest) =>
      negb (Ascii.eqb a backslash && Ascii.eqb b x) && noBackslashThen x rest
  | _ => true
  end.

(** No backslash of [s] is followed by t, r or n. *)
Definition escapeSafe (s : string) : bool :=
  noBackslashThen "t" s && noBackslashThen "r" s && noBackslashThen "n" s.

(** A plain token is never a backslash, nor is the letter of an escape. *)
Definition wfToken (k : token) : bool :=
  match k with
  | Plain c => negb (Ascii.eqb c backslash)
  | Doubled => true
  | Escaped y => negb (Ascii.eqb y backslash)
  end.

Definition isPlain (x : ascii) (k : token) : bool :=
  match k with
  | Plain c => Ascii.eqb c x
  | _ => false
  end.

Definition startsPlain (x : ascii) (ks : list token) : bool :=
  match ks with
  | k :: _ => isPlain x k
  | [] => false
  end.

(** No doubled backslash is followed by the plain letter [x]. *)
Fixpoint safeTokens (x : ascii) (ks : list token) : bool :=
  match ks with
  | [] => true
  | Doubled :: rest => negb (startsPlain x rest) && safeTokens x rest
  | _ :: rest => safeTokens x rest
  end.

(** ** Decimal numerals *)

(** Value of the digits [d] read after the value [acc], the way
    [readDigits] accumulates them. *)
Fixpoint uintValue (d : Decimal.uint) (acc : option Z) : option Z :=
  let next k := Some (10 * orZero acc + k) in
  match d with
  | Decimal.Nil => acc
  | Decimal.D0 d' => uintValue d' (next 0)
  | Decimal.D1 d' => uintValue d' (next 1)
  | Decimal.D2 d' => uintValue d' (next 2)
  | Decimal.D3 d' => uintValue d' (next 3)
  | Decimal.D4 d' => uintValue d' (next 4)
  | Decimal.D5 d' => uintValue d' (next 5)
  | Decimal.D6 d' => uintValue d' (next 6)
  | Decimal.D7 d' => uintValue d' (next 7)
  | Decimal.D8 d' => uintValue d' (next 8)
  | Decimal.D9 d' => uintValue d' (next 9)
  end.

(** Every character of [s] satisfies [p]. *)
Fixpoint allChars (p : ascii -> bool) (s : string) : bool :=
  match s with
  | "" => true
  | String c rest => p c && allChars p rest
  end.

(** [s] is empty or starts with a character that is no decimal digit. *)
Definition noDigitAhead (s : string) : bool :=
  match s with
  | "" => true
  | String c _ => negb (isDigit c)
  end.

(** ** Edit scripts as the adapter builds them *)

(** An operation whose length is a number that is not negative; the text
    of an insert is free. *)
Definition lengthKnown (op : DiffOperation) : bool :=
  match op with
  | Retain (Num n) | Delete (Num n) => 0 <=? n
  | Insert _ => true
  | _ => false
  end.

(** An operation with a positive length or a non-empty text, the filter of
    [optimizeSimpleOperations]. *)
Definition nonEmptyOp (op : DiffOperation) : bool :=
  match op with
  | Retain n | Delete n => numPositive n
  | Insert t => truthy t
  end.

(** The end of [applyDiff]: the rest of the text is appended. *)
Definition finishDiff (text : string) (st : string * jsnum) : string :=
  let '(result, textIndex) := st in
  if jslt textIndex (Num (strlen text))
  then result ++ substringFrom text textIndex
  else result.

(** The old and the new text a provider's diff spells out: the data of
    its equal and delete entries, and of its equal and insert entries. *)
Fixpoint oldSide (diffs : list (Z * string)) : string :=
  match diffs with
  | [] => ""
  | (operation, data) :: rest =>
      if (operation =? 0) || (operation =? -1) then data ++ oldSide rest
      else oldSide rest
  end.

Fixpoint newSide (diffs : list (Z * string)) : string :=
  match diffs with
  | [] => ""
  | (operation, data) :: rest =>
      if (operation =? 0) || (operation =? 1) then data ++ newSide rest
      else newSide rest
  end.

(** ** Parsed data that the record codec can hold *)

(** The record [v] can be written on a line and read back: its name has no
    line feed, and it has either a truthy snapshot text and no payload, or
    no snapshot and a truthy payload, the text or payload holding no
    backslash followed by t, r or n. *)
Definition storableRecord (data : ParsedData) (v : string) : Prop :=
  includesChar LF v = false
  /\ ((exists t, snapshots data !! v = Some t /\ truthy t = true
                 /\ escapeSafe t = true /\ deltas data !! v = None)
      \/ (snapshots data !! v = None
          /\ exists p, deltas data !! v = Some p /\ truthy p = true
                       /\ escapeSafe p = true)).

Definition storable (data : ParsedData) : Prop :=
  (forall v, In v (versions data) -> storableRecord data v)
  /\ keysListed data.

(** The two line formats of [serializeStorage]. *)
Definition snapshotLine (version text : string) : string :=
  ":" ++ numToString (Num (strlen version)) ++ ":" ++ version ++ ":"
      ++ escapeString text.

Definition deltaLine (version payload : string) : string :=
  numToString (Num (strlen version)) ++ ":" ++ version ++ ":"
    ++ escapeString payload.

(** A digit of base 36 as [toString(36)] writes it. *)
Definition isBase36 (c : ascii) : bool :=
  let n := nat_of_ascii c in
  (Nat.leb 48 n && Nat.leb n 57) || (Nat.leb 97 n && Nat.leb n 122).

(** Parsed data with a snapshot and a delta. *)
Definition helloData : ParsedData :=
  mkParsedData ["v1"; "v2"] {["v1" := "Hello"]} {["v2" := "R5I1:!"]}.

(** The number a string of base-36 digits stands for. *)
Fixpoint value36 (s : string) : Z :=
  match s with
  | "" => 0
  | String c rest =>
      orZero (digitValue 36 c) * 36 ^ Z.of_nat (String.length rest) + value36 rest
  end.

(** Three records: a snapshot "abc", a delta to "x" and a delta to "xy". *)
Definition threeRecords : string :=
  ":2:v1:abc" ++ str1 LF ++ "2:v2:D3I1:x" ++ str1 LF ++ "2:v3:R1I1:y".

(** ** The resolver on parsed data *)

(** The name a reference payload points at, as [getVersionText] cuts it
    out: up to the first colon after the ['='], or to the end. *)
Definition referencedName (referenceData : string) : string :=
  let colonIndex := indexOfFrom ":" 1 referenceData in
  if negb (colonIndex =? -1)
  then substring referenceData (Num 1) (Num colonIndex)
  else substringFrom referenceData (Num 1).

(** [getVersionText] with the parse of the storage in place of the
    storage; the two agree, see [getVersionText_resolveData]. *)
Fixpoint resolveData (fuel : nat) (parsedData : ParsedData) (version : string)
  : outcome (option string) :=
  match fuel with
  | O => OutOfFuel
  | S fuel' =>
      if negb (includes version (versions parsedData)) then Return None
      else if truthyAt (snapshots parsedData) version
      then Return (snapshots parsedData !! version)
      else
        let viaChain :=
          let versionIndex := indexOfList version (versions parsedData) in
          let '(baseText, baseIndex) :=
            findBase parsedData (Z.to_nat versionIndex) in
          currentText ← replayDeltas fuel parsedData
            (slice (versions parsedData) (baseIndex + 1) versionIndex) baseText;
          Return (Some currentText) in
        let referenceData := orEmpty (deltas parsedData !! version) in
        if takesReferenceBranch parsedData version then
          let colonIndex := indexOfFrom ":" 1 referenceData in
          if negb (colonIndex =? -1) then
            base ← resolveData fuel' parsedData (referencedName referenceData);
            operations ← decodeDiff fuel
                           (substringFrom referenceData (Num (colonIndex + 1)));
            Return (Some (applyDiff (orEmpty base) operations))
          else resolveData fuel' parsedData (referencedName referenceData)
        else viaChain
  end.

(** The records [keep] have the same truthy entries in both data. *)
Definition sameRecords (keep : list string) (a b : ParsedData) : Prop :=
  forall k, In k keep ->
    truthyAt (snapshots a) k = truthyAt (snapshots b) k
    /\ orEmpty (snapshots a !! k) = orEmpty (snapshots b !! k)
    /\ truthyAt (deltas a) k = truthyAt (deltas b) k
    /\ orEmpty (deltas a !! k) = orEmpty (deltas b !! k).

(** The parsed data after [versions.push(versionName)] and
    [deltas[versionName] = payload], as [addVersionReference] and the
    delta path of [commit] leave them before serializing. *)
Definition appendDelta (parsedData : ParsedData) (versionName payload : string)
  : ParsedData :=
  mkParsedData (versions parsedData ++ [versionName])
               (snapshots parsedData)
               (<[versionName := payload]> (deltas parsedData)).

(** What [commit] stores under the new name when the storage already holds
    records: [`=${existingVersion}`], written by [addVersionReference], when
    a record shows the text, and [bestStorage.content] otherwise. *)
Definition storedPayload (this : TextVersion) (fuel : nat)
    (storage text : string) (version : option string) : outcome string :=
  let decompressed := decompress this storage in
  let parsedData := parseStorage decompressed in
  let versionName :=
    if truthy (orEmpty version)
    then resolveVersionName (versions parsedData) (orEmpty version)
    else resolveVersionName (versions parsedData) (generateHash text) in
  same ← findSameText fuel decompressed text (versions parsedData);
  match same with
  | Some existingVersion => Return ("=" ++ existingVersion)
  | None =>
      let pushed :=
        mkParsedData (versions parsedData ++ [versionName])
                     (snapshots parsedData) (deltas parsedData) in
      bestStorage ← findBestDiffOption this fuel pushed text versionName
                      decompressed;
      match bestStorage with
      | Some best => Return (content best)
      | None => Throw UndefinedOption
      end
  end.

(** ** Common prefix and suffix lengths *)

(** [a === b] for two results of [s[i]]. *)
Definition sameChar (a b : option ascii) : bool :=
  match a, b with
  | Some x, Some y => Ascii.eqb x y
  | None, None => true
  | _, _ => false
  end.

(** The [while] loop of [getCommonPrefixLength]; one unit of fuel per test
    of its condition. *)
Fixpoint commonPrefixLoop (fuel : nat) (str1 str2 : string) (minLen i : Z)
  : outcome Z :=
  match fuel with
  | O => OutOfFuel
  | S fuel' =>
      if (i <? minLen) && sameChar (charAt str1 (Num i)) (charAt str2 (Num i))
      then commonPrefixLoop fuel' str1 str2 minLen (i + 1)
      else Return i
  end.

Definition getCommonPrefixLength (fuel : nat) (str1 str2 : string) : outcome Z :=
  let minLen := Z.min (strlen str1) (strlen str2) in
  commonPrefixLoop fuel str1 str2 minLen 0.

(** The [while] loop of [getCommonSuffixLength]. *)
Fixpoint commonSuffixLoop (fuel : nat) (str1 str2 : string) (minLen i : Z)
  : outcome Z :=
  match fuel with
  | O => OutOfFuel
  | S fuel' =>
      if (i <? minLen)
         && sameChar (charAt str1 (Num (strlen str1 - 1 - i)))
                     (charAt str2 (Num (strlen str2 - 1 - i)))
      then commonSuffixLoop fuel' str1 str2 minLen (i + 1)
      else Return i
  end.

Definition getCommonSuffixLength (fuel : nat) (str1 str2 : string) : outcome Z :=
  let minLen := Z.min (strlen str1) (strlen str2) in
  commonSuffixLoop fuel str1 str2 minLen 0.

(** ** Names and lengths on which the model stands for the source *)

(** The string keys of [Object.prototype] (ECMAScript 2023, 20.1.3 and
    B.2.2).  At these a plain object used as a dictionary reads an
    inherited value when it has no entry of its own: [snapshots[name]] and
    [deltas[name]] are then truthy and are no strings. *)
Definition prototypeKeys : list string :=
  ["constructor"; "hasOwnProperty"; "isPrototypeOf"; "propertyIsEnumerable";
   "toLocaleString"; "toString"; "valueOf"; "__proto__";
   "__defineGetter__"; "__defineSetter__"; "__lookupGetter__";
   "__lookupSetter__"].

Definition prototypeKey (name : string) : bool := includes name prototypeKeys.

(** None of [names] is a key of [Object.prototype]. *)
Definition noPrototypeKey (names : list string) : bool :=
  forallb (fun name => negb (prototypeKey name)) names.

(** A retain or delete length that [`${n}`] prints with all its digits and
    [parseInt] reads back exactly: an integer from 0 to 2^53 - 1. *)
Definition lengthExact (op : DiffOperation) : bool :=
  match op with
  | Retain (Num n) | Delete (Num n) => (0 <=? n) && (n <? 2 ^ 53)
  | Insert _ => true
  | _ => false
  end.

(** * Properties *)

(** ** Sample runs of the codecs *)

Example escape_sample :
  escapeString (String "a" (String LF (String backslash "b"))) = "a\n\\b".
Proof. reflexivity. Qed.

Example decode_sample :
  decodeDiff 10 "R6I3:abcD2" = Return [Retain (Num 6); Insert "abc"; Delete (Num 2)].
Proof. reflexivity. Qed.

Example apply_sample :
  applyDiff "Hello, World!" [Retain (Num 7); Delete (Num 5); Insert "There"]
  = "Hello, There!".
Proof. reflexivity. Qed.

Example parse_sample :
  let pd := parseStorage (":2:v1:Hello" ++ str1 LF ++ "2:v2:R5I1:!") in
  versions pd = ["v1"; "v2"]
  /\ snapshots pd !! "v1" = Some "Hello"
  /\ deltas pd !! "v2" = Some "R5I1:!".
Proof. vm_compute. auto. Qed.

Example resolve_sample :
  getVersionText 20 (":2:v1:Hello" ++ str1 LF ++ "2:v2:R5I1:!") "v2"
  = Return (Some "Hello!").
Proof. vm_compute. reflexivity. Qed.

Example hash_sample : generateHash "a" = "2p" /\ generateHash "" = "0".
Proof. vm_compute. auto. Qed.

(** ** String slicing *)

Lemma takeStr_length (s : string) : takeStr (String.length s) s = s.
Proof. induction s as [|a s IH]; simpl; [reflexivity|now rewrite IH]. Qed.

Lemma takeStr_app (s r : string) : takeStr (String.length s) (s ++ r) = s.
Proof. induction s as [|a s IH]; simpl; [now destruct r|now rewrite IH]. Qed.

Lemma dropStr_app (s r : string) : dropStr (String.length s) (s ++ r) = r.
Proof. induction s as [|a s IH]; simpl; [reflexivity|exact IH]. Qed.

Lemma length_append (s r : string) :
  String.length (s ++ r) = (String.length s + String.length r)%nat.
Proof. induction s as [|a s IH]; simpl; [reflexivity|now rewrite IH]. Qed.

Lemma append_assoc (s r q : string) : (s ++ r) ++ q = s ++ (r ++ q).
Proof.
  induction s as [|a s IH]; [reflexivity|].
  change (String a ((s ++ r) ++ q) = String a (s ++ (r ++ q))).
  now rewrite IH.
Qed.

(** [substring] on indices that are in range and in order. *)
Lemma substring_in_range (s : string) (a b : Z) :
  0 <= a <= b -> b <= strlen s ->
  substring s (Num a) (Num b) = takeStr (Z.to_nat (b - a)) (dropStr (Z.to_nat a) s).
Proof.
  intros Ha Hb. unfold substring, clampIndex.
  replace (Z.min (Z.max a 0) (strlen s)) with a by lia.
  replace (Z.min (Z.max b 0) (strlen s)) with b by lia.
  now replace (Z.min a b) with a by lia; replace (Z.max a b) with b by lia.
Qed.

(** [(pre ++ mid ++ post).substring(|pre|, |pre| + |mid|) = mid]. *)
Lemma substring_middle (pre mid post : string) :
  substring (pre ++ mid ++ post) (Num (strlen pre)) (Num (strlen pre + strlen mid))
  = mid.
Proof.
  rewrite substring_in_range.
  - unfold strlen.
    replace (Z.to_nat (Z.of_nat (String.length pre) + Z.of_nat (String.length mid)
                       - Z.of_nat (String.length pre))) with (String.length mid) by lia.
    rewrite Nat2Z.id, dropStr_app. apply takeStr_app.
  - unfold strlen. lia.
  - unfold strlen. rewrite !length_append. lia.
Qed.

(** [(pre ++ post).substring(|pre|) = post]. *)
Lemma substringFrom_suffix (pre post : string) :
  substringFrom (pre ++ post) (Num (strlen pre)) = post.
Proof.
  unfold substringFrom. rewrite substring_in_range.
  - unfold strlen. rewrite length_append, Nat2Z.id, dropStr_app.
    replace (Z.to_nat (Z.of_nat (String.length pre + String.length post)
                       - Z.of_nat (String.length pre))) with (String.length post) by lia.
    apply takeStr_length.
  - unfold strlen. rewrite length_append. lia.
  - lia.
Qed.

Lemma findChar_absent (c : ascii) (s : string) :
  includesChar c s = false -> findChar c s = None.
Proof.
  induction s as [|a s IH]; simpl; [reflexivity|].
  destruct (Ascii.eqb a c); simpl; [discriminate|].
  intros H. now rewrite IH.
Qed.

Lemma findChar_first (c : ascii) (s r : string) :
  includesChar c s = false ->
  findChar c (s ++ String c r) = Some (String.length s).
Proof.
  induction s as [|a s IH]; simpl.
  - now rewrite Ascii.eqb_refl.
  - destruct (Ascii.eqb a c); simpl; [discriminate|].
    intros H. now rewrite IH.
Qed.

(** ** The decode loop *)

Lemma get_includes (s : string) (n : nat) (c : ascii) :
  String.get n s = Some c -> includesChar c s = true.
Proof.
  revert n; induction s as [|a s IH]; intros [|n] H; simpl in *; try discriminate.
  - injection H as ->. now rewrite Ascii.eqb_refl.
  - rewrite (IH _ H). apply orb_true_r.
Qed.

Lemma isChar_includes (c : ascii) (s : string) (i : jsnum) :
  isChar c (charAt s i) = true -> includesChar c s = true.
Proof.
  unfold isChar. destruct (charAt s i) as [a|] eqn:E; [|discriminate].
  intros H. apply Ascii.eqb_eq in H. subst a.
  destruct i as [z|]; simpl in E; [|discriminate].
  destruct (z <? 0); [discriminate|]. eapply get_includes; eauto.
Qed.

(** No branch of the loop throws. *)
Lemma decodeLoop_no_throw (fuel : nat) (encoded : string) (i : jsnum)
    (operations : list DiffOperation) (e : error) :
  decodeLoop fuel encoded i operations <> Throw e.
Proof.
  revert i operations; induction fuel as [|fuel IH]; intros i operations;
    cbn [decodeLoop]; [discriminate|].
  destruct (jslt i (Num (strlen encoded))); [|discriminate].
  destruct (isChar "R" (charAt encoded i) || isChar "D" (charAt encoded i));
    [apply IH|].
  destruct (isChar "I" (charAt encoded i)); apply IH.
Qed.

(** A character that is no tag only advances the cursor. *)
Lemma decodeLoop_skip (fuel : nat) (encoded : string) (i : jsnum)
    (operations : list DiffOperation) :
  jslt i (Num (strlen encoded)) = true ->
  isChar "R" (charAt encoded i) = false ->
  isChar "D" (charAt encoded i) = false ->
  isChar "I" (charAt encoded i) = false ->
  decodeLoop (S fuel) encoded i operations
  = decodeLoop fuel encoded (jsadd i (Num 1)) operations.
Proof. intros Hlt HR HD HI. cbn [decodeLoop]. now rewrite Hlt, HR, HD, HI. Qed.

(** Without an [I] tag the cursor only moves forward, so the loop ends. *)
Lemma decodeLoop_terminates (fuel : nat) (encoded : string) (z : Z)
    (operations : list DiffOperation) :
  includesChar "I" encoded = false ->
  (Z.to_nat (strlen encoded - z) < fuel)%nat ->
  exists result, decodeLoop fuel encoded (Num z) operations = Return result.
Proof.
  intros HI. revert z operations.
  induction fuel as [|fuel IH]; intros z operations Hfuel; [lia|].
  cbn [decodeLoop]. destruct (jslt (Num z) (Num (strlen encoded))) eqn:Hlt; [|eauto].
  cbn [jsadd]. simpl in Hlt. apply Z.ltb_lt in Hlt.
  destruct (isChar "R" (charAt encoded (Num z))
            || isChar "D" (charAt encoded (Num z))).
  - apply IH. unfold strlen in *. lia.
  - destruct (isChar "I" (charAt encoded (Num z))) eqn:E.
    + apply isChar_includes in E. congruence.
    + apply IH. lia.
Qed.

(** ** Escape codec *)

(** C2.  [unescapeString] does not undo [escapeString] on the two-character
    text made of a backslash and the letter t: escaping doubles the
    backslash, and unescaping first rewrites the second backslash together
    with the t into a TAB, so the text comes back as backslash, TAB. *)
Theorem unescape_escape_backslash_t :
  escapeString (str2 backslash "t") = String backslash (str2 backslash "t")
  /\ unescapeString (escapeString (str2 backslash "t")) = str2 backslash TAB
  /\ unescapeString (escapeString (str2 backslash "t")) <> str2 backslash "t".
Proof. repeat split; vm_compute; congruence. Qed.

(** ** Diff codec: decoding *)

(** C4, as the code has it.  [decodeDiff] has no failure path: whatever the
    input, it never reports an error; a character that is not R, D or I
    where a tag is expected is skipped and decoding goes on with the next
    character; an R or D tag with no digit after it gives an operation of
    length NaN; and an input without an I tag is always decoded to an
    operation list, whatever its tags and length fields look like. *)
Theorem decodeDiff_reports_no_format_error (fuel : nat) (encoded : string) :
  (forall e, decodeDiff fuel encoded <> Throw e)
  /\ (forall i operations,
        jslt i (Num (strlen encoded)) = true ->
        isChar "R" (charAt encoded i) = false ->
        isChar "D" (charAt encoded i) = false ->
        isChar "I" (charAt encoded i) = false ->
        decodeLoop (S fuel) encoded i operations
        = decodeLoop fuel encoded (jsadd i (Num 1)) operations)
  /\ (forall z operations,
        jslt (Num z) (Num (strlen encoded)) = true ->
        isChar "R" (charAt encoded (Num z))
          || isChar "D" (charAt encoded (Num z)) = true ->
        takeWhileStr isDigit (substringFrom encoded (Num (z + 1))) = "" ->
        decodeLoop (S fuel) encoded (Num z) operations
        = decodeLoop fuel encoded (Num (z + 1))
            (operations ++ [if isChar "R" (charAt encoded (Num z))
                            then Retain NaN else Delete NaN]))
  /\ (includesChar "I" encoded = false ->
      (String.length encoded < fuel)%nat ->
      exists operations, decodeDiff fuel encoded = Return operations).
Proof.
  split; [|split; [|split]].
  - intros e. apply decodeLoop_no_throw.
  - intros i operations. apply decodeLoop_skip.
  - intros z operations Hlt Htag Hnum. cbn [decodeLoop jsadd].
    rewrite Hlt, Htag, Hnum.
    change (strlen "") with 0. change (parseInt "") with NaN.
    now replace (z + 1 + 0) with (z + 1) by lia.
  - intros HI Hfuel. apply decodeLoop_terminates; [assumption|].
    unfold strlen. lia.
Qed.

Lemma decodeDiff_reports_no_format_error_witness :
  includesChar "I" "X1R" = false
  /\ (String.length "X1R" < 4)%nat
  /\ exists operations, decodeDiff 4 "X1R" = Return operations.
Proof.
  split; [reflexivity|]. split; [simpl; lia|].
  apply (decodeDiff_reports_no_format_error 4 "X1R"); [reflexivity|simpl; lia].
Defined.

(** C4, as the claim states it, fails: an unknown tag and a tag without a
    length are decoded to an operation list, and so is an insert whose text
    is shorter than its length field says. *)
Lemma decodeDiff_accepts_malformed :
  decodeDiff 4 "X1R" = Return [Retain NaN]
  /\ decodeDiff 4 "I5:ab" = Return [Insert "ab"]
  /\ ~ (forall fuel encoded,
          includesChar "X" encoded = true ->
          exists e, decodeDiff fuel encoded = Throw e).
Proof.
  split; [reflexivity|]. split; [reflexivity|].
  intros H. destruct (H 4%nat "X1R" eq_refl) as [e He]. discriminate He.
Qed.

(** ** Record codec: what a parse can hold *)

Lemma keysListed_empty : keysListed emptyParsedData.
Proof. intros k [[x H]|[x H]]; simpl in H; rewrite lookup_empty in H; discriminate. Qed.

Lemma keysListed_push_snapshot (data : ParsedData) (name text : string) :
  keysListed data ->
  keysListed (mkParsedData (versions data ++ [name])
                           (<[name := text]> (snapshots data)) (deltas data)).
Proof.
  intros Hk k H. simpl in *. apply in_or_app.
  destruct (decide (name = k)) as [->|Hne]; [right; now left|].
  rewrite lookup_insert_ne in H by assumption. left. now apply Hk.
Qed.

Lemma keysListed_push_delta (data : ParsedData) (name payload : string) :
  keysListed data ->
  keysListed (mkParsedData (versions data ++ [name])
                           (snapshots data) (<[name := payload]> (deltas data))).
Proof.
  intros Hk k H. simpl in *. apply in_or_app.
  destruct (decide (name = k)) as [->|Hne]; [right; now left|].
  rewrite lookup_insert_ne in H by assumption. left. now apply Hk.
Qed.

Lemma parseLine_keysListed (data : ParsedData) (line : string) :
  keysListed data -> keysListed (parseLine data line).
Proof.
  intros Hk. unfold parseLine.
  repeat match goal with
         | |- keysListed (if ?c then _ else _) => destruct c
         end;
    auto using keysListed_push_snapshot, keysListed_push_delta.
Qed.

Lemma fold_parseLine_keysListed (lines : list string) (data : ParsedData) :
  keysListed data -> keysListed (fold_left parseLine lines data).
Proof.
  revert data; induction lines as [|l lines IH]; intros data Hk; simpl;
    [assumption|]. apply IH. now apply parseLine_keysListed.
Qed.

Lemma parseStorage_keysListed (storage : string) :
  keysListed (parseStorage storage).
Proof.
  unfold parseStorage. destruct (negb (truthy (trim storage)));
    [apply keysListed_empty|].
  apply fold_parseLine_keysListed, keysListed_empty.
Qed.

Lemma parseStorage_empty : parseStorage "" = emptyParsedData.
Proof. reflexivity. Qed.

(** A name that is not listed has neither a truthy text nor a truthy
    payload. *)
Lemma unlisted_not_truthy (storage k : string) :
  ~ In k (versions (parseStorage storage)) ->
  truthyAt (snapshots (parseStorage storage)) k = false
  /\ truthyAt (deltas (parseStorage storage)) k = false.
Proof.
  intros Hnot. pose proof (parseStorage_keysListed storage) as Hk.
  unfold truthyAt. split.
  - destruct (snapshots (parseStorage storage) !! k) eqn:E; [|reflexivity].
    exfalso. apply Hnot, Hk. left. rewrite E. eauto.
  - destruct (deltas (parseStorage storage) !! k) eqn:E; [|reflexivity].
    exfalso. apply Hnot, Hk. right. rewrite E. eauto.
Qed.

(** ** Version names: the name assigned by [commit] is new *)

Lemma includes_In (v : string) (l : list string) :
  includes v l = true <-> In v l.
Proof.
  unfold includes. rewrite existsb_exists. split.
  - intros (x & Hx & E). apply String.eqb_eq in E. now subst.
  - intros H. exists v. split; [assumption|apply String.eqb_refl].
Qed.

Lemma addHashes_length (k : nat) (c : string) :
  String.length (addHashes k c) = (String.length c + k)%nat.
Proof.
  revert c; induction k as [|k IH]; intros c; cbn [addHashes]; [lia|].
  rewrite IH, length_append. cbn. lia.
Qed.

(** Either the loop stops on a name that is not listed, or every name it
    tried is listed. *)
Lemma appendHashes_tried (rounds : nat) (l : list string) (c : string) :
  includes (appendHashes rounds l c) l = false
  \/ (forall k, (k < rounds)%nat -> includes (addHashes k c) l = true).
Proof.
  revert c; induction rounds as [|r IH]; intros c; cbn [appendHashes].
  - right. intros k Hk. lia.
  - destruct (includes c l) eqn:E; [|now left].
    destruct (IH (c ++ "#")) as [Hfresh|Hall]; [now left|right].
    intros [|k] Hk; cbn [addHashes]; [assumption|]. apply Hall. lia.
Qed.

Lemma resolveVersionName_fresh (l : list string) (proposed : string) :
  includes (resolveVersionName l proposed) l = false.
Proof.
  unfold resolveVersionName.
  destruct (includes proposed l) eqn:E; cbn [negb]; [|assumption].
  destruct (appendHashes_tried (List.length l) l (proposed ++ "#"))
    as [Hfresh|Hall]; [assumption|exfalso].
  set (tried := map (fun k => addHashes k proposed) (seq 0 (S (List.length l)))).
  assert (Hdup : NoDup tried).
  { assert (Hinj : Inj (=) (=) (fun k => addHashes k proposed)).
    { intros a b Hab. apply (f_equal String.length) in Hab.
      rewrite !addHashes_length in Hab. lia. }
    unfold tried. apply (NoDup_fmap_2 _), NoDup_seq. }
  assert (Hincl : forall x, x ∈ tried -> x ∈ l).
  { intros x Hx. apply list_elem_of_In. apply list_elem_of_In in Hx.
    apply in_map_iff in Hx. destruct Hx as (k & <- & Hk).
    apply in_seq in Hk. apply includes_In.
    destruct k as [|k]; [exact E|]. cbn [addHashes]. apply Hall. lia. }
  pose proof (submseteq_length _ _ (NoDup_submseteq _ _ Hdup Hincl)) as Hlen.
  unfold tried in Hlen. rewrite length_map, length_seq in Hlen. lia.
Qed.

(** ** Commit of an empty text into a storage without records *)

(** C8.  When the storage holds no record, committing the empty text
    returns (the compressed form of) the empty storage: the new snapshot
    has a falsy text and [serializeStorage] emits no line for it.  On the
    result, [log] is empty, [show] of the assigned name is [null] and
    [latest] is the empty text.  The assigned name is no key of
    [Object.prototype]. *)
Theorem commit_empty_text_stores_nothing (this : TextVersion) (fuel : nat)
    (storage : string) (name : option string) :
  versions (parseStorage (decompress this storage)) = [] ->
  decompress this (compress this "") = "" ->
  let assigned :=
    if truthy (orEmpty name) then orEmpty name else generateHash "" in
  prototypeKey assigned = false ->
  commit this fuel storage "" name = Return (compress this "")
  /\ versions (parseStorage (decompress this (compress this ""))) = []
  /\ log this (compress this "") = []
  /\ show this (S fuel) (compress this "") assigned = Return None
  /\ latest this fuel (compress this "") = Return "".
Proof.
  intros Hnone Hlaw assigned Hown.
  assert (Hcommit : commit this fuel storage "" name = Return (compress this "")).
  { unfold commit. rewrite Hnone. cbn [findSameText mbind outcome_bind bind].
    cbn [versions List.length app Z.of_nat Pos.of_succ_nat Z.eqb Pos.eqb].
    do 2 f_equal. unfold serializeStorage. cbn [versions omap].
    set (vn := if truthy (orEmpty name) then _ else _).
    assert (Hline : forall snaps,
               serializeLine (mkParsedData [vn] (<[vn := ""]> snaps)
                   (deltas (parseStorage (decompress this storage)))) vn = None).
    { intros snaps. unfold serializeLine, truthyAt at 1. cbn [snapshots deltas].
      rewrite lookup_insert_eq. cbn [truthy].
      destruct (unlisted_not_truthy (decompress this storage) vn) as [_ ->];
        [rewrite Hnone; auto | reflexivity]. }
    unfold list_omap. now rewrite Hline. }
  split; [exact Hcommit|].
  unfold log, show, latest. rewrite Hlaw, parseStorage_empty.
  repeat split.
Qed.

Lemma commit_empty_text_stores_nothing_witness :
  commit plainEngine 1 "" "" (Some "v1") = Return ""
  /\ log plainEngine "" = []
  /\ show plainEngine 2 "" "v1" = Return None
  /\ latest plainEngine 1 "" = Return "".
Proof.
  destruct (commit_empty_text_stores_nothing plainEngine 1 "" (Some "v1")
              eq_refl eq_refl eq_refl) as (H1 & _ & H3 & H4 & H5).
  repeat split; assumption.
Defined.

(** ** Resolver: records whose payload contains an equals sign *)

Lemma includesChar_truthy (c : ascii) (s : string) :
  includesChar c s = true -> truthy s = true.
Proof. destruct s; [discriminate|reflexivity]. Qed.

(** The replay gives the same text with and without the records named [v]
    when the payload of [v] contains ['=']. *)
Lemma replayDeltas_without (fuel : nat) (data : ParsedData) (v : string)
    (l : list string) (t : string) :
  includesChar "=" (orEmpty (deltas data !! v)) = true ->
  replayDeltas fuel data l t = replayDeltas fuel data (without v l) t.
Proof.
  intros Hv. revert t. induction l as [|x l IH]; intros t; [reflexivity|].
  unfold without. cbn [List.filter]. fold (without v l).
  destruct (String.eqb x v) eqn:E; cbn [negb replayDeltas].
  - apply String.eqb_eq in E. subst x. rewrite Hv, andb_false_r. apply IH.
  - destruct (truthyAt (deltas data) x
              && negb (includesChar "=" (orEmpty (deltas data !! x)))); [|apply IH].
    destruct (decodeDiff fuel (orEmpty (deltas data !! x))); cbn; auto.
Qed.

(** Outside the reference branch a listed record without a truthy snapshot
    is resolved by the replay from the nearest snapshot. *)
Lemma getVersionText_chain (fuel : nat) (storage w : string) :
  let data := parseStorage storage in
  includes w (versions data) = true ->
  truthyAt (snapshots data) w = false ->
  takesReferenceBranch data w = false ->
  getVersionText (S fuel) storage w
  = (let '(baseText, baseIndex) :=
       findBase data (Z.to_nat (indexOfList w (versions data))) in
     currentText ← replayDeltas (S fuel) data
                     (slice (versions data) (baseIndex + 1)
                            (indexOfList w (versions data))) baseText;
     Return (Some currentText)).
Proof.
  intros data Hin Hsnap Href. cbn [getVersionText]. fold data.
  rewrite Hin, Hsnap. cbn [negb]. unfold takesReferenceBranch in Href.
  destruct (truthyAt (deltas data) w
            && includesChar "=" (orEmpty (deltas data !! w))); [|reflexivity].
  cbn [andb] in Href. now rewrite Href.
Qed.

(** C9.  When the payload of the record [v] contains ['='], the replay
    steps over [v] wherever it stands: every record resolved by replay,
    [v] itself when its ['='] is not the first character and any later
    delta alike, gets the text of the chain from its nearest snapshot with
    the edit script of [v] left out.  No stored name, and no name of a
    replayed list, is a key of [Object.prototype]. *)
Theorem payload_with_equals_is_skipped (fuel : nat) (storage v payload : string) :
  let data := parseStorage storage in
  noPrototypeKey (versions data) = true ->
  deltas data !! v = Some payload ->
  includesChar "=" payload = true ->
  (forall l t,
      noPrototypeKey l = true ->
      replayDeltas fuel data l t = replayDeltas fuel data (without v l) t)
  /\ (forall w,
        includes w (versions data) = true ->
        truthyAt (snapshots data) w = false ->
        takesReferenceBranch data w = false ->
        let idx := indexOfList w (versions data) in
        let '(baseText, baseIndex) := findBase data (Z.to_nat idx) in
        getVersionText (S fuel) storage w
        = (currentText ← replayDeltas (S fuel) data
                           (without v (slice (versions data) (baseIndex + 1) idx))
                           baseText;
           Return (Some currentText))).
Proof.
  intros data Hown Hpay Heq.
  assert (Hv : includesChar "=" (orEmpty (deltas data !! v)) = true)
    by (rewrite Hpay; exact Heq).
  split; [intros l t _; now apply replayDeltas_without|].
  intros w Hin Hsnap Href idx.
  pose proof (getVersionText_chain fuel storage w Hin Hsnap Href) as Hchain.
  fold data idx in Hchain.
  destruct (findBase data (Z.to_nat idx)) as [baseText baseIndex].
  rewrite Hchain. now rewrite (replayDeltas_without (S fuel) data v _ baseText Hv).
Qed.

(** [v2] was written for the text "a=b" and [v3] for "a=bc"; both are
    resolved without the insertion of "=b". *)
Lemma payload_with_equals_is_skipped_witness :
  getVersionText 9 equalsInDelta "v2" = Return (Some "a")
  /\ getVersionText 9 equalsInDelta "v3" = Return (Some "ac").
Proof.
  destruct (payload_with_equals_is_skipped 8 equalsInDelta "v2" "R1I2:=b"
              eq_refl eq_refl eq_refl) as [_ H].
  split.
  - exact (H "v2" eq_refl eq_refl eq_refl).
  - exact (H "v3" eq_refl eq_refl eq_refl).
Defined.

(** ** Resolver: references to names that are not in the storage *)




Lemma indexOfList_app (t : string) (before later : list string) :
  ~ In t before ->
  indexOfList t (before ++ t :: later) = Z.of_nat (List.length before).
Proof.
  induction before as [|x before IH]; intros Hnot.
  - cbn. now rewrite String.eqb_refl.
  - cbn [app indexOfList].
    destruct (String.eqb x t) eqn:E.
    + apply String.eqb_eq in E. subst. exfalso. apply Hnot. now left.
    + rewrite IH by (intros Hin; apply Hnot; now right).
      destruct (Z.of_nat (List.length before) =? -1) eqn:E1;
        [apply Z.eqb_eq in E1; lia|].
      cbn [List.length]. lia.
Qed.

Lemma carryRecord_fields (parsedData acc : ParsedData) (v : string) :
  versions (carryRecord parsedData acc v) = versions acc
  /\ snapshots (carryRecord parsedData acc v)
     = (if truthyAt (snapshots parsedData) v
        then <[v := orEmpty (snapshots parsedData !! v)]> (snapshots acc)
        else snapshots acc)
  /\ deltas (carryRecord parsedData acc v)
     = (if negb (truthyAt (snapshots parsedData) v)
           && truthyAt (deltas parsedData) v
        then <[v := orEmpty (deltas parsedData !! v)]> (deltas acc)
        else deltas acc).
Proof.
  unfold carryRecord.
  destruct (truthyAt (snapshots parsedData) v);
    [|destruct (truthyAt (deltas parsedData) v)]; repeat split.
Qed.

(** What the copy loop of [squash] leaves in the new dictionaries. *)
Lemma fold_carryRecord (parsedData : ParsedData) (later : list string) :
  forall acc,
    let r := fold_left (carryRecord parsedData) later acc in
    versions r = versions acc
    /\ (forall k, snapshots r !! k
                  = if includes k later && truthyAt (snapshots parsedData) k
                    then Some (orEmpty (snapshots parsedData !! k))
                    else snapshots acc !! k)
    /\ (forall k, deltas r !! k
                  = if includes k later
                       && negb (truthyAt (snapshots parsedData) k)
                       && truthyAt (deltas parsedData) k
                    then Some (orEmpty (deltas parsedData !! k))
                    else deltas acc !! k).
Proof.
  induction later as [|v later IH]; intros acc; [cbn; auto|].
  cbn [fold_left].
  destruct (IH (carryRecord parsedData acc v)) as (Hver & Hsn & Hde).
  destruct (carryRecord_fields parsedData acc v) as (Fv & Fs & Fd).
  assert (Hinc : forall k, includes k (v :: later)
                           = String.eqb k v || includes k later) by reflexivity.
  split; [|split].
  - now rewrite Hver.
  - intros k. rewrite Hsn, Hinc, Fs.
    destruct (String.eqb k v) eqn:E.
    + apply String.eqb_eq in E. subst k. cbn [orb].
      destruct (includes v later); cbn [andb];
        destruct (truthyAt (snapshots parsedData) v);
        rewrite ?lookup_insert_eq; reflexivity.
    + apply String.eqb_neq in E. cbn [orb].
      destruct (includes k later && truthyAt (snapshots parsedData) k);
        [reflexivity|].
      destruct (truthyAt (snapshots parsedData) v);
        [rewrite lookup_insert_ne by congruence|]; reflexivity.
  - intros k. rewrite Hde, Hinc, Fd.
    destruct (String.eqb k v) eqn:E.
    + apply String.eqb_eq in E. subst k. cbn [orb].
      destruct (includes v later); cbn [andb];
        destruct (negb (truthyAt (snapshots parsedData) v)
                  && truthyAt (deltas parsedData) v);
        rewrite ?lookup_insert_eq; reflexivity.
    + apply String.eqb_neq in E. cbn [orb].
      destruct (includes k later && negb (truthyAt (snapshots parsedData) k)
                && truthyAt (deltas parsedData) k); [reflexivity|].
      destruct (negb (truthyAt (snapshots parsedData) v)
                && truthyAt (deltas parsedData) v);
        [rewrite lookup_insert_ne by congruence|]; reflexivity.
Qed.




(** ** Choice of the encoding in [commit] *)

Lemma omap_ext_In {A B : Type} (f g : A -> option B) (l : list A) :
  (forall x, In x l -> f x = g x) -> omap f l = omap g l.
Proof.
  induction l as [|x l IH]; intros H; [reflexivity|].
  cbn [omap list_omap]. rewrite (H x) by now left.
  fold (omap f l) (omap g l). rewrite IH; [reflexivity|].
  intros y Hy. apply H. now right.
Qed.

(** The head of the sorted options is the first option of least length. *)
Lemma head_sortByLength (options : list DiffOption) :
  options <> [] ->
  exists best k,
    head (sortByLength options) = Some best
    /\ options !! k = Some best
    /\ forall j o, options !! j = Some o ->
         optLength best <= optLength o
         /\ ((j < k)%nat -> optLength best < optLength o).
Proof.
  induction options as [|o rest IH]; [congruence|]. intros _.
  destruct rest as [|o' rest'].
  - exists o, 0%nat. cbn. repeat split; auto.
    + destruct j; cbn in H; [injection H as <-; lia|discriminate].
    + lia.
  - destruct IH as (b & k & Hhead & Hk & Hmin); [congruence|].
    set (rest := o' :: rest') in *.
    change (sortByLength (o :: rest)) with (insertByLength o (sortByLength rest)).
    destruct (sortByLength rest) as [|x tl]; [discriminate|].
    cbn in Hhead. injection Hhead as ->. cbn [insertByLength].
    destruct (optLength o <=? optLength b) eqn:E.
    + apply Z.leb_le in E. exists o, 0%nat. cbn [head]. repeat split; auto.
      * destruct j as [|j]; cbn in H; [injection H as <-; lia|].
        destruct (Hmin j o0 H). lia.
      * lia.
    + apply Z.leb_gt in E. exists b, (S k). cbn [head]. repeat split; auto.
      * destruct j as [|j]; cbn in H; [injection H as <-; lia|].
        now destruct (Hmin j o0 H).
      * intros Hj. destruct j as [|j]; cbn in H; [injection H as <-; lia|].
        destruct (Hmin j o0 H) as [_ Hlt]. apply Hlt. lia.
Qed.

Section Selection.

Variable this : TextVersion.
Variables (fuel : nat) (decompressed text versionName : string).

Lemma forEach_hybridOption (earlier : list string) (baseTexts : list (option string)) :
  Forall2 (fun v t => getVersionText fuel decompressed v = Return t)
          earlier baseTexts ->
  forEach (hybridOption this fuel text versionName decompressed) earlier
  = Return (map (optionOf versionName)
              (zip_with (hybridPayload this text) earlier baseTexts)).
Proof.
  induction 1 as [|v t earlier baseTexts Hv _ IH]; [reflexivity|].
  cbn [forEach]. rewrite IH. unfold hybridOption. now rewrite Hv.
Qed.

Lemma diffOptions_candidates (data : ParsedData) (earlier : list string)
    (previous : string) (prevText : option string)
    (baseTexts : list (option string)) :
  versions data = (earlier ++ [previous] ++ [versionName])%list ->
  getVersionText fuel decompressed previous = Return prevText ->
  Forall2 (fun v t => getVersionText fuel decompressed v = Return t)
          earlier baseTexts ->
  diffOptions this fuel data text versionName decompressed
  = Return (map (optionOf versionName)
              (encodeDiff (calculateDiff this (orEmpty prevText) text)
                 :: zip_with (hybridPayload this text) earlier baseTexts)).
Proof.
  intros Hvs Hprev Hbases. unfold diffOptions, deltaOption. rewrite Hvs.
  rewrite !length_app. cbn [List.length].
  destruct (1 <? Z.of_nat (List.length earlier + (1 + 1))) eqn:E;
    [|apply Z.ltb_ge in E; lia].
  replace (List.length earlier + (1 + 1) - 2)%nat with (List.length earlier) by lia.
  rewrite lookup_app_r by lia. rewrite Nat.sub_diag. cbn [lookup list_lookup app orEmpty].
  rewrite Hprev. cbn.
  rewrite take_app_length.
  rewrite (forEach_hybridOption earlier baseTexts Hbases). reflexivity.
Qed.

End Selection.

(** C6.  When the storage already holds records and no record resolves to
    [text], [commit] stores under the new name the payload of the first
    candidate of least serialized line length, the candidates being, in
    this order, the delta against the resolved text of the last record and
    one hybrid reference against the resolved text of each earlier record
    in position order.  The length compared is that of the line
    [`${versionName.length}:${versionName}:${escaped payload}`], written
    out below.  No stored name and not the assigned one is a key of
    [Object.prototype]. *)
Theorem commit_appends_shortest_candidate (this : TextVersion) (fuel : nat)
    (storage text : string) (name : option string)
    (earlier : list string) (previous : string)
    (prevText : option string) (baseTexts : list (option string)) :
  let decompressed := decompress this storage in
  let parsedData := parseStorage decompressed in
  let versionName :=
    if truthy (orEmpty name)
    then resolveVersionName (versions parsedData) (orEmpty name)
    else resolveVersionName (versions parsedData) (generateHash text) in
  versions parsedData = (earlier ++ [previous])%list ->
  noPrototypeKey (versionName :: versions parsedData) = true ->
  findSameText fuel decompressed text (versions parsedData) = Return None ->
  getVersionText fuel decompressed previous = Return prevText ->
  Forall2 (fun v t => getVersionText fuel decompressed v = Return t)
          earlier baseTexts ->
  let candidates :=
    encodeDiff (calculateDiff this (orEmpty prevText) text)
      :: zip_with (hybridPayload this text) earlier baseTexts in
  let lineLength (payload : string) :=
    Z.of_nat (String.length
                (numToString (Num (Z.of_nat (String.length versionName)))
                 ++ ":" ++ versionName ++ ":" ++ escapeString payload)) in
  exists best k,
    candidates !! k = Some best
    /\ (forall j c, candidates !! j = Some c ->
          lineLength best <= lineLength c
          /\ ((j < k)%nat -> lineLength best < lineLength c))
    /\ commit this fuel storage text name
       = Return (compress this (serializeStorage
                   (mkParsedData (versions parsedData ++ [versionName])
                                 (snapshots parsedData)
                                 (<[versionName := best]> (deltas parsedData)))))
    /\ serializeStorage
         (mkParsedData (versions parsedData ++ [versionName])
                       (snapshots parsedData)
                       (<[versionName := best]> (deltas parsedData)))
       = join (str1 LF)
           (app (omap (serializeLine parsedData) (versions parsedData))
                (if truthy best
                 then [numToString (Num (strlen versionName)) ++ ":"
                         ++ versionName ++ ":" ++ escapeString best]
                 else [])).
Proof.
  intros decompressed parsedData versionName Hvs Hown Hsame Hprev Hbases
    candidates lineLength.
  destruct (head_sortByLength (map (optionOf versionName) candidates))
    as (bo & k & Hhead & Hk & Hmin); [discriminate|].
  rewrite list_lookup_fmap in Hk.
  destruct (candidates !! k) as [best|] eqn:Hbest; [|discriminate].
  cbn in Hk. injection Hk as <-.
  exists best, k. split; [exact Hbest|]. split; [|split].
  - intros j c Hc.
    change (lineLength best) with (optLength (optionOf versionName best)).
    change (lineLength c) with (optLength (optionOf versionName c)).
    apply (Hmin j (optionOf versionName c)).
    rewrite list_lookup_fmap, Hc. reflexivity.
  - unfold commit. fold decompressed. fold parsedData. fold versionName.
    rewrite Hsame. cbn [mbind outcome_bind bind versions snapshots deltas].
    destruct (Z.of_nat (List.length (versions parsedData ++ [versionName])) =? 1) eqn:E.
    { apply Z.eqb_eq in E. rewrite Hvs, !length_app in E. cbn in E. lia. }
    unfold findBestDiffOption.
    rewrite (diffOptions_candidates this fuel decompressed text versionName _
               earlier previous prevText baseTexts);
      [|cbn [versions]; rewrite Hvs, <- app_assoc; reflexivity|assumption|assumption].
    fold candidates. cbn [mbind outcome_bind bind]. rewrite Hhead. reflexivity.
  - assert (Hfresh : ~ In versionName (versions parsedData)).
    { intros Hin. apply includes_In in Hin. unfold versionName in Hin.
      destruct (truthy (orEmpty name));
        now rewrite resolveVersionName_fresh in Hin. }
    unfold serializeStorage. cbn [versions]. f_equal.
    rewrite omap_app. f_equal.
    + apply omap_ext_In. intros x Hx.
      assert (Hne : versionName <> x) by (intros ->; contradiction).
      unfold serializeLine, truthyAt. cbn [snapshots deltas].
      now rewrite lookup_insert_ne.
    + cbn [omap list_omap]. unfold serializeLine. cbn [snapshots deltas].
      destruct (unlisted_not_truthy decompressed versionName Hfresh) as [Hs _].
      fold parsedData in Hs. rewrite Hs.
      unfold truthyAt. rewrite lookup_insert_eq. cbn [orEmpty].
      now destruct (truthy best).
Qed.

Lemma commit_appends_shortest_candidate_witness :
  exists best k,
    ["D1I9:abcdefghi"; "=v1:R8I1:i"] !! k = Some best
    /\ (forall j c, ["D1I9:abcdefghi"; "=v1:R8I1:i"] !! j = Some c ->
          strlen ("2:v3:" ++ escapeString best) <= strlen ("2:v3:" ++ escapeString c)
          /\ ((j < k)%nat ->
              strlen ("2:v3:" ++ escapeString best)
              < strlen ("2:v3:" ++ escapeString c)))
    /\ commit prefixEngine 20 twoRecords "abcdefghi" (Some "v3")
       = Return (serializeStorage
                   (mkParsedData ["v1"; "v2"; "v3"]
                                 (snapshots (parseStorage twoRecords))
                                 (<["v3" := best]> (deltas (parseStorage twoRecords)))))
    /\ serializeStorage
         (mkParsedData ["v1"; "v2"; "v3"]
                       (snapshots (parseStorage twoRecords))
                       (<["v3" := best]> (deltas (parseStorage twoRecords))))
       = join (str1 LF)
           (app [":2:v1:abcdefgh"; "2:v2:D8I1:x"]
                (if truthy best then ["2:v3:" ++ escapeString best] else [])).
Proof.
  apply (commit_appends_shortest_candidate prefixEngine 20 twoRecords "abcdefghi"
           (Some "v3") ["v1"] "v2" (Some "x") [Some "abcdefgh"]);
    [reflexivity | reflexivity | reflexivity | reflexivity |].
  constructor; [reflexivity | constructor].
Defined.

(** On that input the hybrid reference against [v1] is the shorter line. *)
Example commit_prefers_hybrid :
  commit prefixEngine 20 twoRecords "abcdefghi" (Some "v3")
  = Return (twoRecords ++ str1 LF ++ "2:v3:=v1:R8I1:i").
Proof. vm_compute. reflexivity. Qed.

(** On equal lengths the candidate computed first is kept. *)
Example sort_keeps_first_of_equals :
  head (sortByLength [mkDiffOption "b" 3; mkDiffOption "a" 2; mkDiffOption "c" 2])
  = Some (mkDiffOption "a" 2).
Proof. reflexivity. Qed.

(** ** Runs on which the operations lose a text or a snapshot *)

Section Runs.

(** The runs below never reach the diff provider, so they hold for every
    engine built without compression. *)
Variable provider : DiffMatchPatch.

Let engine : TextVersion := mkTextVersion None provider.

(** C1.  Two runs where [show] after [commit] does not give the committed
    text.  First, committing the text made of a backslash and the letter t
    into the empty storage and showing the assigned name gives back
    backslash, TAB: the text is stored escaped and read back through
    [unescapeString].  Second, after the commits of "abc", "x" and "abc"
    again, the third stored as a reference to the first, the commit of
    "abcd" is stored as the delta [R3I1:d] against its predecessor; [show]
    replays that delta from the snapshot over the second record only and
    returns "xd". *)
Theorem show_after_commit_differs :
  (commit engine 5 "" (str2 backslash "t") (Some "v1")
   = Return (":2:v1:" ++ String backslash (str2 backslash "t"))
   /\ show engine 5 (":2:v1:" ++ String backslash (str2 backslash "t")) "v1"
      = Return (Some (str2 backslash TAB))
   /\ str2 backslash TAB <> str2 backslash "t")
  /\ (commit prefixEngine 9 "" "abc" (Some "v1") = Return ":2:v1:abc"
      /\ commit prefixEngine 9 ":2:v1:abc" "x" (Some "v2")
         = Return (":2:v1:abc" ++ str1 LF ++ "2:v2:D3I1:x")
      /\ commit prefixEngine 9 (":2:v1:abc" ++ str1 LF ++ "2:v2:D3I1:x")
           "abc" (Some "v3")
         = Return revertedStorage
      /\ commit prefixEngine 9 revertedStorage "abcd" (Some "v4")
         = Return (revertedStorage ++ str1 LF ++ "2:v4:R3I1:d")
      /\ show prefixEngine 9 (revertedStorage ++ str1 LF ++ "2:v4:R3I1:d") "v4"
         = Return (Some "xd")).
Proof. repeat split; vm_compute; congruence. Qed.

(** C3.  A parse holding the one snapshot [v1] with the text backslash, t
    is serialized to a line that parses back to the text backslash, TAB. *)
Theorem parse_serialize_backslash_t :
  let records := mkParsedData ["v1"] {["v1" := str2 backslash "t"]} ∅ in
  serializeStorage records = ":2:v1:" ++ String backslash (str2 backslash "t")
  /\ versions (parseStorage (serializeStorage records)) = ["v1"]
  /\ snapshots (parseStorage (serializeStorage records)) !! "v1"
     = Some (str2 backslash TAB)
  /\ parseStorage (serializeStorage records) <> records.
Proof.
  repeat split; try (vm_compute; reflexivity).
  intros H. apply (f_equal (fun d => snapshots d !! "v1")) in H.
  vm_compute in H. discriminate H.
Qed.

(** C5.  Three commits and a squash from the empty storage leave a storage
    whose only record is a reference: the squashed record resolves to the
    empty text, and no line is written for it. *)
Theorem squash_can_leave_reference_first :
  commit engine 9 "" "a" (Some "v1") = Return ":2:v1:a"
  /\ commit engine 9 ":2:v1:a" "" (Some "v2")
     = Return (":2:v1:a" ++ str1 LF ++ "2:v2:D1")
  /\ commit engine 9 (":2:v1:a" ++ str1 LF ++ "2:v2:D1") "a" (Some "v3")
     = Return (":2:v1:a" ++ str1 LF ++ "2:v2:D1" ++ str1 LF ++ "2:v3:=v1")
  /\ squash engine 9
       (":2:v1:a" ++ str1 LF ++ "2:v2:D1" ++ str1 LF ++ "2:v3:=v1") "v2"
     = Return "2:v3:=v1"
  /\ log engine "2:v3:=v1" = [mkVersionInfo "v3" false].
Proof. repeat split; vm_compute; reflexivity. Qed.

(** C7.  Squashing at a record that resolves to the empty text removes that
    record with the ones before it: it is absent from [log] and [show]
    returns [null] for it, where it returned the empty text before. *)
Theorem squash_drops_empty_target :
  show engine 9 (":2:v1:a" ++ str1 LF ++ "2:v2:D1") "v2" = Return (Some "")
  /\ squash engine 9 (":2:v1:a" ++ str1 LF ++ "2:v2:D1") "v2" = Return ""
  /\ log engine "" = []
  /\ show engine 9 "" "v2" = Return None.
Proof. repeat split; vm_compute; reflexivity. Qed.

End Runs.

(** * Further properties of the engine *)

(** ** Escape codec: where it round-trips *)

Lemma append_cons (a : ascii) (s r : string) :
  String a s ++ r = String a (s ++ r).
Proof. reflexivity. Qed.

Lemma append_empty_r (s : string) : s ++ "" = s.
Proof.
  induction s as [|a s IH]; [reflexivity|]. now rewrite append_cons, IH.
Qed.

Lemma replaceChar_append (c : ascii) (repl s r : string) :
  replaceChar c repl (s ++ r) = replaceChar c repl s ++ replaceChar c repl r.
Proof.
  induction s as [|a s IH]; [reflexivity|].
  rewrite append_cons. cbn [replaceChar]. rewrite IH.
  destruct (Ascii.eqb a c); [now rewrite append_assoc|reflexivity].
Qed.

Lemma escapeString_append (s r : string) :
  escapeString (s ++ r) = escapeString s ++ escapeString r.
Proof. unfold escapeString. now rewrite !replaceChar_append. Qed.

Lemma escapeString_char (c : ascii) :
  escapeString (str1 c) = tokenText (tokenOf c).
Proof.
  unfold tokenOf.
  destruct (Ascii.eqb c backslash) eqn:E1;
    [apply Ascii.eqb_eq in E1; subst; reflexivity|].
  destruct (Ascii.eqb c LF) eqn:E2;
    [apply Ascii.eqb_eq in E2; subst; reflexivity|].
  destruct (Ascii.eqb c CR) eqn:E3;
    [apply Ascii.eqb_eq in E3; subst; reflexivity|].
  destruct (Ascii.eqb c TAB) eqn:E4;
    [apply Ascii.eqb_eq in E4; subst; reflexivity|].
  unfold escapeString, str1. cbn [replaceChar]. rewrite E1. cbn [replaceChar].
  rewrite E2. cbn [replaceChar]. rewrite E3. cbn [replaceChar]. now rewrite E4.
Qed.

(** [escapeString] works character by character. *)
Lemma escapeString_tokens (s : string) :
  escapeString s = tokensText (tokensOf s).
Proof.
  induction s as [|c s IH]; [reflexivity|].
  change (String c s) with (str1 c ++ s).
  rewrite escapeString_append, escapeString_char, IH. reflexivity.
Qed.

Lemma str1_append (c : ascii) (s : string) : str1 c ++ s = String c s.
Proof. reflexivity. Qed.

Lemma str2_append (a b : ascii) (s : string) :
  str2 a b ++ s = String a (String b s).
Proof. reflexivity. Qed.

Lemma replacePair_step (c1 c2 : ascii) (repl : string) (a b : ascii) (s : string) :
  replacePair c1 c2 repl (String a (String b s))
  = if Ascii.eqb a c1 && Ascii.eqb b c2
    then repl ++ replacePair c1 c2 repl s
    else String a (replacePair c1 c2 repl (String b s)).
Proof. reflexivity. Qed.

Lemma replacePair_other (c1 c2 : ascii) (repl : string) (a : ascii) (s : string) :
  Ascii.eqb a c1 = false ->
  replacePair c1 c2 repl (String a s) = String a (replacePair c1 c2 repl s).
Proof.
  intros H. destruct s as [|b s]; [reflexivity|].
  rewrite replacePair_step, H. reflexivity.
Qed.

(** One replacement of [unescapeString] on a text made of tokens, read
    from a token boundary and read with one backslash pending. *)
Lemma replacePair_tokens (x X : ascii) (ks : list token) :
  Ascii.eqb backslash x = false ->
  forallb wfToken ks = true ->
  safeTokens x ks = true ->
  replacePair backslash x (str1 X) (tokensText ks)
  = tokensText (map (unescapeToken x X) ks)
  /\ (startsPlain x ks = false ->
      replacePair backslash x (str1 X) (String backslash (tokensText ks))
      = String backslash (tokensText (map (unescapeToken x X) ks))).
Proof.
  intros Hx. induction ks as [|k ks IH]; intros Hwf Hsafe.
  - split; reflexivity.
  - cbn [forallb] in Hwf. apply andb_true_iff in Hwf. destruct Hwf as [Hk Hwf].
    assert (HD : replacePair backslash x (str1 X)
                   (String backslash (String backslash (tokensText ks)))
                 = String backslash (String backslash
                     (tokensText (map (unescapeToken x X) ks)))
                 \/ k <> Doubled).
    { destruct k; try (right; discriminate). left.
      cbn [safeTokens] in Hsafe. apply andb_true_iff in Hsafe.
      destruct Hsafe as [Hstart Hsafe]. apply negb_true_iff in Hstart.
      destruct (IH Hwf Hsafe) as [_ IHB].
      rewrite replacePair_step, Hx, andb_false_r. now rewrite (IHB Hstart). }
    destruct k as [c| |y]; cbn [map unescapeToken tokensText tokenText].
    + cbn [wfToken] in Hk. apply negb_true_iff in Hk.
      cbn [safeTokens] in Hsafe. destruct (IH Hwf Hsafe) as [IHA _].
      rewrite !str1_append.
      split.
      * now rewrite (replacePair_other _ _ _ _ _ Hk), IHA.
      * cbn [startsPlain isPlain]. intros Hc.
        rewrite replacePair_step, Hc, andb_false_r.
        now rewrite (replacePair_other _ _ _ _ _ Hk), IHA.
    + destruct HD as [HD|HD]; [|contradiction].
      rewrite !str2_append.
      split; [exact HD|]. intros _.
      rewrite replacePair_step, Hx, andb_false_r. now rewrite HD.
    + cbn [wfToken] in Hk. apply negb_true_iff in Hk.
      cbn [safeTokens] in Hsafe. destruct (IH Hwf Hsafe) as [IHA _].
      assert (HA : replacePair backslash x (str1 X)
                     (String backslash (String y (tokensText ks)))
                   = tokenText (if Ascii.eqb y x then Plain X else Escaped y)
                       ++ tokensText (map (unescapeToken x X) ks)).
      { rewrite replacePair_step, Ascii.eqb_refl. cbn [andb].
        destruct (Ascii.eqb y x); cbn [tokenText].
        - now rewrite IHA.
        - rewrite (replacePair_other _ _ _ _ _ Hk), IHA.
          now rewrite str2_append. }
      rewrite !str2_append.
      split; [exact HA|]. intros _.
      rewrite replacePair_step, Hx, andb_false_r. now rewrite HA.
Qed.

Ltac case_char c :=
  let E1 := fresh "E1" in
  let E2 := fresh "E2" in
  let E3 := fresh "E3" in
  let E4 := fresh "E4" in
  destruct (Ascii.eqb c backslash) eqn:E1;
    [apply Ascii.eqb_eq in E1; subst c|
     destruct (Ascii.eqb c LF) eqn:E2;
       [apply Ascii.eqb_eq in E2; subst c|
        destruct (Ascii.eqb c CR) eqn:E3;
          [apply Ascii.eqb_eq in E3; subst c|
           destruct (Ascii.eqb c TAB) eqn:E4;
             [apply Ascii.eqb_eq in E4; subst c|]]]].

Lemma tokenOf_plain (c : ascii) :
  Ascii.eqb c backslash = false -> Ascii.eqb c LF = false ->
  Ascii.eqb c CR = false -> Ascii.eqb c TAB = false ->
  tokenOf c = Plain c.
Proof. intros E1 E2 E3 E4. unfold tokenOf. now rewrite E1, E2, E3, E4. Qed.

Lemma wfToken_tokens (f : token -> token) (s : string) :
  (forall c, wfToken (f (tokenOf c)) = true) ->
  forallb wfToken (map f (tokensOf s)) = true.
Proof.
  intros Hf. induction s as [|c s IH]; [reflexivity|].
  cbn [tokensOf map forallb]. now rewrite Hf, IH.
Qed.

Lemma safeTokens_tokens (x : ascii) (f : token -> token) (s : string) :
  (forall c, f (tokenOf c) = Doubled -> Ascii.eqb c backslash = true) ->
  (forall c, isPlain x (f (tokenOf c)) = true -> Ascii.eqb c x = true) ->
  noBackslashThen x s = true ->
  safeTokens x (map f (tokensOf s)) = true.
Proof.
  intros HD HP. induction s as [|a s IH]; [reflexivity|].
  destruct s as [|b s'].
  - intros _. cbn [tokensOf map safeTokens]. now destruct (f (tokenOf a)).
  - cbn [noBackslashThen]. intros H. apply andb_true_iff in H.
    destruct H as [Hab Hrest]. specialize (IH Hrest).
    change (tokensOf (String a (String b s')))
      with (tokenOf a :: tokensOf (String b s')).
    cbn [map safeTokens].
    destruct (f (tokenOf a)) eqn:Ea; try exact IH.
    rewrite IH, andb_true_r. cbn [tokensOf map startsPlain].
    destruct (isPlain x (f (tokenOf b))) eqn:Eb; [|reflexivity].
    rewrite (HD a Ea), (HP b Eb) in Hab. discriminate.
Qed.

(** The tokens of a text after the first, the first two and all three
    letter replacements of [unescapeString]. *)
Lemma tokens_after_t (c : ascii) :
  unescapeToken "t" TAB (tokenOf c)
  = if Ascii.eqb c backslash then Doubled
    else if Ascii.eqb c LF then Escaped "n"
    else if Ascii.eqb c CR then Escaped "r"
    else Plain c.
Proof.
  case_char c; try reflexivity.
  rewrite (tokenOf_plain c E1 E2 E3 E4). reflexivity.
Qed.

Lemma tokens_after_r (c : ascii) :
  unescapeToken "r" CR (unescapeToken "t" TAB (tokenOf c))
  = if Ascii.eqb c backslash then Doubled
    else if Ascii.eqb c LF then Escaped "n"
    else Plain c.
Proof.
  case_char c; try reflexivity.
  rewrite (tokenOf_plain c E1 E2 E3 E4). reflexivity.
Qed.

Lemma tokens_after_n (c : ascii) :
  unescapeToken "n" LF (unescapeToken "r" CR (unescapeToken "t" TAB (tokenOf c)))
  = if Ascii.eqb c backslash then Doubled else Plain c.
Proof.
  case_char c; try reflexivity.
  rewrite (tokenOf_plain c E1 E2 E3 E4). reflexivity.
Qed.

(** The last replacement, of the doubled backslashes. *)
Lemma replacePair_doubled (s : string) :
  replacePair backslash backslash (str1 backslash)
    (tokensText (map (fun k => unescapeToken "n" LF
                                 (unescapeToken "r" CR
                                    (unescapeToken "t" TAB k)))
                     (tokensOf s)))
  = s.
Proof.
  induction s as [|c s IH]; [reflexivity|].
  cbn [tokensOf map tokensText]. rewrite tokens_after_n.
  destruct (Ascii.eqb c backslash) eqn:E; cbn [tokenText].
  - apply Ascii.eqb_eq in E. subst c.
    rewrite str2_append, replacePair_step, Ascii.eqb_refl. cbn [andb].
    now rewrite IH.
  - rewrite str1_append, (replacePair_other _ _ _ _ _ E). now rewrite IH.
Qed.

(** The three passes of [unescapeString] over the tokens of an escaped
    text. *)
Lemma unescapeString_escapeString (s : string) :
  escapeSafe s = true -> unescapeString (escapeString s) = s.
Proof.
  unfold escapeSafe. intros H.
  apply andb_true_iff in H. destruct H as [H Hn].
  apply andb_true_iff in H. destruct H as [Ht Hr].
  unfold unescapeString. rewrite escapeString_tokens.
  (* backslash-t *)
  assert (W0 : forallb wfToken (tokensOf s) = true).
  { rewrite <- (List.map_id (tokensOf s)). apply wfToken_tokens.
    intros c. case_char c; try reflexivity.
    rewrite (tokenOf_plain c E1 E2 E3 E4). cbn. now rewrite E1. }
  assert (S0 : safeTokens "t" (tokensOf s) = true).
  { rewrite <- (List.map_id (tokensOf s)). apply safeTokens_tokens; [| |exact Ht].
    - intros c. case_char c; try (reflexivity || discriminate).
      rewrite (tokenOf_plain c E1 E2 E3 E4). discriminate.
    - intros c. case_char c; try (reflexivity || discriminate).
      rewrite (tokenOf_plain c E1 E2 E3 E4). cbn. auto. }
  rewrite (proj1 (replacePair_tokens "t" TAB (tokensOf s) eq_refl W0 S0)).
  (* backslash-r *)
  assert (W1 : forallb wfToken (map (unescapeToken "t" TAB) (tokensOf s)) = true).
  { apply wfToken_tokens. intros c. rewrite tokens_after_t.
    case_char c; try reflexivity. cbn. now rewrite E1. }
  assert (S1 : safeTokens "r" (map (unescapeToken "t" TAB) (tokensOf s)) = true).
  { apply safeTokens_tokens; [| |exact Hr]; intros c; rewrite tokens_after_t;
      case_char c; try (reflexivity || discriminate); cbn; auto. }
  rewrite (proj1 (replacePair_tokens "r" CR _ eq_refl W1 S1)), List.map_map.
  (* backslash-n *)
  assert (W2 : forallb wfToken
                 (map (fun k => unescapeToken "r" CR (unescapeToken "t" TAB k))
                      (tokensOf s)) = true).
  { apply (wfToken_tokens (fun k => unescapeToken "r" CR (unescapeToken "t" TAB k))).
    intros c. rewrite tokens_after_r.
    case_char c; try reflexivity. cbn. now rewrite E1. }
  assert (S2 : safeTokens "n"
                 (map (fun k => unescapeToken "r" CR (unescapeToken "t" TAB k))
                      (tokensOf s)) = true).
  { apply (safeTokens_tokens "n"
             (fun k => unescapeToken "r" CR (unescapeToken "t" TAB k)));
      [| |exact Hn]; intros c; rewrite tokens_after_r;
      case_char c; try (reflexivity || discriminate); cbn; auto. }
  rewrite (proj1 (replacePair_tokens "n" LF _ eq_refl W2 S2)), List.map_map.
  apply replacePair_doubled.
Qed.

(** X1.  [unescapeString] undoes [escapeString] on every text in which no
    backslash is followed by t, r or n. *)
Theorem unescape_escape_safe (s : string) :
  escapeSafe s = true -> unescapeString (escapeString s) = s.
Proof. exact (unescapeString_escapeString s). Qed.

Lemma unescape_escape_safe_witness :
  escapeSafe ("C:\dir" ++ str1 LF ++ "x") = true
  /\ unescapeString (escapeString ("C:\dir" ++ str1 LF ++ "x"))
     = "C:\dir" ++ str1 LF ++ "x".
Proof.
  split; [reflexivity|]. apply (unescape_escape_safe ("C:\dir" ++ str1 LF ++ "x")).
  reflexivity.
Defined.

Lemma includesChar_append (c : ascii) (s r : string) :
  includesChar c (s ++ r) = includesChar c s || includesChar c r.
Proof.
  induction s as [|a s IH]; [reflexivity|].
  rewrite append_cons. cbn [includesChar]. rewrite IH. apply orb_assoc.
Qed.

(** Every token of an escaped text is free of LF, CR and TAB. *)
Lemma escapeString_no_breaks (s : string) :
  includesChar LF (escapeString s) = false
  /\ includesChar CR (escapeString s) = false
  /\ includesChar TAB (escapeString s) = false.
Proof.
  rewrite escapeString_tokens.
  induction s as [|c s (IH1 & IH2 & IH3)]; [repeat split|].
  cbn [tokensOf tokensText]. rewrite !includesChar_append, IH1, IH2, IH3.
  rewrite !orb_false_r.
  case_char c; try (repeat split; reflexivity).
  rewrite (tokenOf_plain c E1 E2 E3 E4). cbn. now rewrite E2, E3, E4.
Qed.

(** X2.  An escaped text holds no line feed, no carriage return and no
    tab, so it always fits on one line of the storage. *)
Theorem escapeString_one_line (s : string) :
  includesChar LF (escapeString s) = false
  /\ includesChar CR (escapeString s) = false
  /\ includesChar TAB (escapeString s) = false.
Proof. exact (escapeString_no_breaks s). Qed.

(** ** Decimal numerals: printing and reading back *)

Lemma string_of_uint_digits (d : Decimal.uint) :
  allChars isDigit (NilEmpty.string_of_uint d) = true.
Proof. induction d; cbn [NilEmpty.string_of_uint allChars]; auto. Qed.

Lemma isDigit_digitValue (c : ascii) :
  isDigit c = false -> digitValue 10 c = None.
Proof.
  destruct c as [[] [] [] [] [] [] [] []]; intros H; try discriminate H;
    reflexivity.
Qed.

Lemma readDigits_stop (acc : option Z) (rest : string) :
  noDigitAhead rest = true -> readDigits 10 acc rest = acc.
Proof.
  destruct rest as [|c rest]; [reflexivity|]. cbn [noDigitAhead readDigits].
  intros H. apply negb_true_iff in H. now rewrite (isDigit_digitValue c H).
Qed.

Lemma readDigits_uint (d : Decimal.uint) (acc : option Z) (rest : string) :
  readDigits 10 acc (NilEmpty.string_of_uint d ++ rest)
  = readDigits 10 (uintValue d acc) rest.
Proof.
  revert acc; induction d; intros acc;
    cbn [NilEmpty.string_of_uint uintValue]; [reflexivity|..];
    rewrite append_cons; cbn [readDigits]; apply IHd.
Qed.

Lemma uintValue_acc (d : Decimal.uint) (acc : positive) :
  uintValue d (Some (Zpos acc)) = Some (Zpos (Pos.of_uint_acc d acc)).
Proof.
  revert acc; induction d; intros acc; cbn [uintValue Pos.of_uint_acc orZero];
    [reflexivity|..];
    match goal with
    | |- uintValue _ (Some ?v) = Some (Zpos (Pos.of_uint_acc _ ?q)) =>
        replace v with (Zpos q) by lia; apply IHd
    end.
Qed.

Lemma uintValue_of_uint (d : Decimal.uint) :
  d <> Decimal.Nil -> uintValue d None = Some (Z.of_N (Pos.of_uint d)).
Proof.
  induction d; intros Hd; [contradiction|..];
    cbn [uintValue Pos.of_uint orZero];
    try (change (10 * 0 + ?k) with k; apply uintValue_acc).
  change (10 * 0 + 0) with 0.
  destruct (Decimal.uint_eq_dec d Decimal.Nil) as [->|Hn]; [reflexivity|].
  rewrite <- (IHd Hn). destruct d; try contradiction; reflexivity.
Qed.

Lemma isDigit_cases (c : ascii) :
  isDigit c = true ->
  In c ["0"; "1"; "2"; "3"; "4"; "5"; "6"; "7"; "8"; "9"]%char.
Proof.
  destruct c as [[] [] [] [] [] [] [] []]; intros H; try discriminate H;
    cbn; tauto.
Qed.

(** On a non-empty run of decimal digits [parseInt] reads in radix 10. *)
Lemma parseInt_digits (s : string) :
  s <> "" -> allChars isDigit s = true ->
  parseInt s = match readDigits 10 None s with
               | Some v => Num v
               | None => NaN
               end.
Proof.
  destruct s as [|c s]; [contradiction|]. intros _ H.
  cbn [allChars] in H. apply andb_true_iff in H. destruct H as [Hc Hs].
  assert (Hfin : forall r : option Z,
             match r with Some v => Num (1 * v) | None => NaN end
             = match r with Some v => Num v | None => NaN end).
  { intros [v|]; [now rewrite Z.mul_1_l|reflexivity]. }
  pose proof (isDigit_cases c Hc) as Hin. cbn [In] in Hin.
  destruct Hin as [<-|[<-|[<-|[<-|[<-|[<-|[<-|[<-|[<-|[<-|[]]]]]]]]]]];
    try (unfold parseInt; cbn [trimStart isWhiteSpace nat_of_ascii]; apply Hfin).
  destruct s as [|c2 s]; [reflexivity|].
  cbn [allChars] in Hs. apply andb_true_iff in Hs. destruct Hs as [Hc2 _].
  pose proof (isDigit_cases c2 Hc2) as Hin. cbn [In] in Hin.
  destruct Hin as [<-|[<-|[<-|[<-|[<-|[<-|[<-|[<-|[<-|[<-|[]]]]]]]]]]];
    unfold parseInt; cbn [trimStart isWhiteSpace nat_of_ascii]; apply Hfin.
Qed.

(** The decimal numeral of a number that is not negative. *)
Lemma numToString_uint (z : Z) :
  0 <= z ->
  exists d, d <> Decimal.Nil
            /\ numToString (Num z) = NilEmpty.string_of_uint d
            /\ uintValue d None = Some z.
Proof.
  intros Hz. destruct z as [|p|p]; [| |lia].
  - exists (Decimal.D0 Decimal.Nil). repeat split. discriminate.
  - exists (Pos.to_uint p).
    pose proof (DecimalPos.Unsigned.to_uint_nonnil p) as Hn.
    split; [exact Hn|]. split.
    + cbn [numToString Z.to_int NilZero.string_of_int].
      unfold NilZero.string_of_uint. destruct (Pos.to_uint p); [contradiction|..];
        reflexivity.
    + rewrite (uintValue_of_uint _ Hn), DecimalPos.Unsigned.of_to. reflexivity.
Qed.

Lemma takeWhileStr_run (p : ascii -> bool) (s rest : string) :
  allChars p s = true ->
  match rest with "" => true | String c _ => negb (p c) end = true ->
  takeWhileStr p (s ++ rest) = s.
Proof.
  intros Hs Hrest. induction s as [|c s IH].
  - destruct rest as [|c rest]; [reflexivity|]. cbn [String.append takeWhileStr].
    change ("" ++ String c rest) with (String c rest). cbn [takeWhileStr].
    apply negb_true_iff in Hrest. now rewrite Hrest.
  - cbn [allChars] in Hs. apply andb_true_iff in Hs. destruct Hs as [Hc Hs].
    rewrite append_cons. cbn [takeWhileStr]. now rewrite Hc, (IH Hs).
Qed.

Lemma numToString_digits (z : Z) :
  0 <= z ->
  numToString (Num z) <> "" /\ allChars isDigit (numToString (Num z)) = true.
Proof.
  intros Hz. destruct (numToString_uint z Hz) as (d & Hd & -> & _).
  split; [|apply string_of_uint_digits].
  destruct d; [contradiction|..]; discriminate.
Qed.

Lemma readDigits_numToString (z : Z) (rest : string) :
  0 <= z -> noDigitAhead rest = true ->
  readDigits 10 None (numToString (Num z) ++ rest) = Some z.
Proof.
  intros Hz Hrest. destruct (numToString_uint z Hz) as (d & Hd & -> & Hv).
  now rewrite readDigits_uint, Hv, readDigits_stop.
Qed.

Lemma parseInt_numToString (z : Z) :
  0 <= z -> parseInt (numToString (Num z)) = Num z.
Proof.
  intros Hz. destruct (numToString_digits z Hz) as [Hne Hd].
  rewrite (parseInt_digits _ Hne Hd).
  rewrite <- (append_empty_r (numToString (Num z))).
  now rewrite (readDigits_numToString z "" Hz eq_refl).
Qed.

(** ** Diff codec: encoding and decoding back *)

Lemma join_empty_cons (x : string) (l : list string) :
  join "" (x :: l) = x ++ join "" l.
Proof.
  destruct l as [|y l]; cbn [join]; [now rewrite append_empty_r|reflexivity].
Qed.

Lemma strlen_append (s r : string) : strlen (s ++ r) = strlen s + strlen r.
Proof. unfold strlen. rewrite length_append. lia. Qed.

Lemma strlen_nonneg (s : string) : 0 <= strlen s.
Proof. unfold strlen. lia. Qed.

Lemma get_append (pre : string) (c : ascii) (rest : string) :
  String.get (String.length pre) (pre ++ String c rest) = Some c.
Proof. induction pre as [|a pre IH]; [reflexivity|exact IH]. Qed.

Lemma charAt_append (pre : string) (c : ascii) (rest : string) :
  charAt (pre ++ String c rest) (Num (strlen pre)) = Some c.
Proof.
  unfold charAt, strlen.
  destruct (Z.of_nat (String.length pre) <? 0) eqn:E;
    [apply Z.ltb_lt in E; lia|].
  rewrite Nat2Z.id. apply get_append.
Qed.

(** The encoded operations that follow start with a tag letter. *)
Lemma encoded_noDigitAhead (l : list DiffOperation) :
  noDigitAhead (join "" (map encodeOp l)) = true.
Proof.
  destruct l as [|op l]; [reflexivity|].
  cbn [map]. rewrite join_empty_cons. now destruct op.
Qed.

Lemma digits_notColon (s : string) :
  allChars isDigit s = true -> allChars notColon s = true.
Proof.
  induction s as [|c s IH]; [reflexivity|]. cbn [allChars]. intros H.
  apply andb_true_iff in H. destruct H as [Hc Hs]. rewrite (IH Hs), andb_true_r.
  pose proof (isDigit_cases c Hc) as Hin. cbn [In] in Hin.
  destruct Hin as [<-|[<-|[<-|[<-|[<-|[<-|[<-|[<-|[<-|[<-|[]]]]]]]]]]];
    reflexivity.
Qed.

(** Decoding from a token boundary gives back the encoded operations. *)
Lemma decodeLoop_encoded (l : list DiffOperation) :
  forall (fuel : nat) (pre : string) (operations : list DiffOperation),
    forallb lengthKnown l = true ->
    (List.length l < fuel)%nat ->
    decodeLoop fuel (pre ++ join "" (map encodeOp l)) (Num (strlen pre)) operations
    = Return (operations ++ l)%list.
Proof.
  induction l as [|op l IH]; intros fuel pre operations Hwf Hfuel.
  - destruct fuel as [|fuel]; [cbn in Hfuel; lia|]. cbn [map join decodeLoop].
    rewrite append_empty_r. cbn [jslt]. rewrite Z.ltb_irrefl.
    now rewrite app_nil_r.
  - destruct fuel as [|fuel]; [cbn in Hfuel; lia|].
    cbn [List.length] in Hfuel. cbn [forallb] in Hwf.
    apply andb_true_iff in Hwf. destruct Hwf as [Hop Hwf].
    cbn [map]. rewrite join_empty_cons.
    set (rest := join "" (map encodeOp l)).
    assert (Hrest : noDigitAhead rest = true) by apply encoded_noDigitAhead.
    assert (Hnext : forall pre',
               decodeLoop fuel (pre' ++ rest) (Num (strlen pre'))
                 (operations ++ [op])
               = Return (operations ++ op :: l)%list).
    { intros pre'. unfold rest. rewrite IH by (assumption || lia).
      now rewrite <- app_assoc. }
    destruct op as [[n|]|[n|]|t]; cbn [lengthKnown] in Hop; try discriminate Hop.
    + (* retain *)
      apply Z.leb_le in Hop. cbn [encodeOp].
      destruct (numToString_digits n Hop) as [_ Hd].
      change ("R" ++ numToString (Num n)) with (String "R" (numToString (Num n))).
      rewrite append_cons.
      cbn [decodeLoop]. cbn [jslt jsadd].
      rewrite charAt_append.
      destruct (strlen pre <? strlen (pre ++ String "R" (numToString (Num n) ++ rest)))
        eqn:Elt;
        [|apply Z.ltb_ge in Elt; rewrite strlen_append in Elt;
          unfold strlen in Elt; cbn [String.length] in Elt; lia].
      cbn [isChar Ascii.eqb Bool.eqb orb andb].
      assert (Hsub : substringFrom (pre ++ String "R" (numToString (Num n) ++ rest))
                       (Num (strlen pre + 1))
                     = numToString (Num n) ++ rest).
      { replace (pre ++ String "R" (numToString (Num n) ++ rest))
          with ((pre ++ "R") ++ numToString (Num n) ++ rest)
          by (now rewrite append_assoc).
        replace (strlen pre + 1) with (strlen (pre ++ "R"))
          by (rewrite strlen_append; reflexivity).
        apply substringFrom_suffix. }
      rewrite Hsub, (takeWhileStr_run isDigit _ rest Hd Hrest).
      rewrite (parseInt_numToString n Hop).
      replace (pre ++ String "R" (numToString (Num n) ++ rest))
        with ((pre ++ String "R" (numToString (Num n))) ++ rest)
        by (rewrite append_assoc; reflexivity).
      replace (strlen pre + 1 + strlen (numToString (Num n)))
        with (strlen (pre ++ String "R" (numToString (Num n))))
        by (rewrite strlen_append; unfold strlen; cbn [String.length]; lia).
      apply Hnext.
    + (* delete *)
      apply Z.leb_le in Hop. cbn [encodeOp].
      destruct (numToString_digits n Hop) as [_ Hd].
      change ("D" ++ numToString (Num n)) with (String "D" (numToString (Num n))).
      rewrite append_cons.
      cbn [decodeLoop]. cbn [jslt jsadd].
      rewrite charAt_append.
      destruct (strlen pre <? strlen (pre ++ String "D" (numToString (Num n) ++ rest)))
        eqn:Elt;
        [|apply Z.ltb_ge in Elt; rewrite strlen_append in Elt;
          unfold strlen in Elt; cbn [String.length] in Elt; lia].
      cbn [isChar Ascii.eqb Bool.eqb orb andb].
      assert (Hsub : substringFrom (pre ++ String "D" (numToString (Num n) ++ rest))
                       (Num (strlen pre + 1))
                     = numToString (Num n) ++ rest).
      { replace (pre ++ String "D" (numToString (Num n) ++ rest))
          with ((pre ++ "D") ++ numToString (Num n) ++ rest)
          by (now rewrite append_assoc).
        replace (strlen pre + 1) with (strlen (pre ++ "D"))
          by (rewrite strlen_append; reflexivity).
        apply substringFrom_suffix. }
      rewrite Hsub, (takeWhileStr_run isDigit _ rest Hd Hrest).
      rewrite (parseInt_numToString n Hop).
      replace (pre ++ String "D" (numToString (Num n) ++ rest))
        with ((pre ++ String "D" (numToString (Num n))) ++ rest)
        by (rewrite append_assoc; reflexivity).
      replace (strlen pre + 1 + strlen (numToString (Num n)))
        with (strlen (pre ++ String "D" (numToString (Num n))))
        by (rewrite strlen_append; unfold strlen; cbn [String.length]; lia).
      apply Hnext.
    + (* insert *)
      cbn [encodeOp].
      pose proof (strlen_nonneg t) as Ht.
      destruct (numToString_digits (strlen t) Ht) as [_ Hd].
      set (L := numToString (Num (strlen t))) in *.
      change ("I" ++ L ++ ":" ++ t) with (String "I" (L ++ String ":" t)).
      rewrite append_cons.
      cbn [decodeLoop]. cbn [jslt jsadd].
      rewrite charAt_append.
      destruct (strlen pre <? strlen (pre ++ String "I" ((L ++ String ":" t) ++ rest)))
        eqn:Elt;
        [|apply Z.ltb_ge in Elt; rewrite strlen_append in Elt;
          unfold strlen in Elt; cbn [String.length] in Elt; lia].
      cbn [isChar Ascii.eqb Bool.eqb orb andb].
      assert (Hshape : (L ++ String ":" t) ++ rest = L ++ String ":" (t ++ rest))
        by (rewrite append_assoc; reflexivity).
      rewrite Hshape.
      assert (Hsub : substringFrom (pre ++ String "I" (L ++ String ":" (t ++ rest)))
                       (Num (strlen pre + 1))
                     = L ++ String ":" (t ++ rest)).
      { replace (pre ++ String "I" (L ++ String ":" (t ++ rest)))
          with ((pre ++ "I") ++ L ++ String ":" (t ++ rest))
          by (now rewrite append_assoc).
        replace (strlen pre + 1) with (strlen (pre ++ "I"))
          by (rewrite strlen_append; reflexivity).
        apply substringFrom_suffix. }
      rewrite Hsub.
      rewrite (takeWhileStr_run notColon L (String ":" (t ++ rest))
                 (digits_notColon _ Hd) eq_refl).
      assert (HpL : parseInt L = Num (strlen t))
        by (apply parseInt_numToString; exact Ht).
      rewrite HpL. cbn [jsadd].
      set (pre' := pre ++ String "I" (L ++ ":")).
      assert (Hpre' : strlen pre + 1 + strlen L + 1 = strlen pre').
      { unfold pre'. rewrite strlen_append. unfold strlen. cbn [String.length].
        rewrite length_append. cbn [String.length]. lia. }
      assert (Henc : pre ++ String "I" (L ++ String ":" (t ++ rest))
                     = pre' ++ t ++ rest).
      { unfold pre'. rewrite append_assoc. f_equal. rewrite append_cons. f_equal.
        now rewrite append_assoc. }
      rewrite Henc, Hpre', substring_middle.
      replace (pre' ++ t ++ rest) with ((pre' ++ t) ++ rest)
        by (now rewrite append_assoc).
      replace (strlen pre' + strlen t) with (strlen (pre' ++ t))
        by (now rewrite strlen_append).
      apply Hnext.
Qed.

(** What the [pop] loop of [encodeDiff] removes is a run of trailing
    operations that satisfy the test. *)
Lemma dropTrailing_split {A : Type} (p : A -> bool) (l : list A) :
  exists r, l = (dropTrailing p l ++ r)%list /\ forallb p r = true.
Proof.
  induction l as [|x l (r & Hl & Hr)]; [exists []; split; reflexivity|].
  cbn [dropTrailing]. destruct (dropTrailing p l) as [|y kept] eqn:E.
  - cbn [app] in Hl. subst r. destruct (p x) eqn:Ex.
    + exists (x :: l). split; [reflexivity|]. cbn [forallb]. now rewrite Ex, Hr.
    + exists l. split; [reflexivity|exact Hr].
  - exists r. split; [|exact Hr]. rewrite Hl at 1. reflexivity.
Qed.

Lemma dropTrailing_last {A : Type} (p : A -> bool) (l kept : list A) (x : A) :
  dropTrailing p l = (kept ++ [x])%list -> p x = false.
Proof.
  revert kept; induction l as [|y l IH]; intros kept.
  - cbn. destruct kept; discriminate.
  - cbn [dropTrailing]. destruct (dropTrailing p l) as [|z rest] eqn:E.
    + destruct (p y) eqn:Ey; [destruct kept; discriminate|].
      destruct kept as [|k kept]; cbn; intros H.
      * now injection H as <-.
      * injection H as _ H. destruct kept; discriminate.
    + destruct kept as [|k kept]; cbn; intros H; [discriminate|].
      injection H as _ H. now apply (IH kept).
Qed.

(** [decodeLoop_encoded] from the start of the encoding. *)
Lemma decodeDiff_encoded (fuel : nat) (operations : list DiffOperation) :
  forallb lengthKnown operations = true ->
  (List.length operations < fuel)%nat ->
  decodeDiff fuel (encodeDiff operations)
  = Return (dropTrailing isRetain operations).
Proof.
  intros Hwf Hfuel. unfold decodeDiff, encodeDiff.
  destruct (dropTrailing_split isRetain operations) as (r & Hl & _).
  assert (Hkept : forallb lengthKnown (dropTrailing isRetain operations) = true).
  { rewrite Hl, forallb_app in Hwf. now apply andb_true_iff in Hwf. }
  assert (Hlen : (List.length (dropTrailing isRetain operations) < fuel)%nat).
  { apply (f_equal (@List.length _)) in Hl. rewrite length_app in Hl. lia. }
  exact (decodeLoop_encoded _ fuel "" [] Hkept Hlen).
Qed.

Lemma lengthExact_known (operations : list DiffOperation) :
  forallb lengthExact operations = true ->
  forallb lengthKnown operations = true.
Proof.
  induction operations as [|op l IH]; [reflexivity|]. cbn [forallb].
  intros H. apply andb_true_iff in H. destruct H as [Hop Hl].
  rewrite (IH Hl), andb_true_r.
  destruct op as [[n|]|[n|]|t]; cbn [lengthExact lengthKnown] in *;
    try discriminate Hop; try reflexivity;
    apply andb_true_iff in Hop; tauto.
Qed.

(** X3.  Decoding an encoded edit script gives back the script without its
    trailing retains, whatever the inserted texts contain, as soon as the
    retain and delete lengths are integers from 0 to 2^53 - 1, which the
    source prints with all their digits and reads back exactly; one loop
    iteration per operation and one more are enough. *)
Theorem decodeDiff_encodeDiff (fuel : nat) (operations : list DiffOperation) :
  forallb lengthExact operations = true ->
  (List.length operations < fuel)%nat ->
  decodeDiff fuel (encodeDiff operations)
  = Return (dropTrailing isRetain operations).
Proof.
  intros Hexact. apply decodeDiff_encoded. now apply lengthExact_known.
Qed.

Lemma decodeDiff_encodeDiff_witness :
  decodeDiff 5 (encodeDiff [Retain (Num 3); Insert "R2:I"; Delete (Num 10);
                            Retain (Num 4)])
  = Return [Retain (Num 3); Insert "R2:I"; Delete (Num 10)].
Proof.
  apply (decodeDiff_encodeDiff 5 [Retain (Num 3); Insert "R2:I"; Delete (Num 10);
                                  Retain (Num 4)]); [reflexivity|cbn; lia].
Defined.

(** ** Applying an edit script *)

Lemma takeStr_ge (n : nat) (s : string) :
  (String.length s <= n)%nat -> takeStr n s = s.
Proof.
  revert n; induction s as [|a s IH]; intros [|n] H; cbn in *;
    try reflexivity; try lia.
  rewrite IH; [reflexivity|lia].
Qed.

Lemma dropStr_ge (n : nat) (s : string) :
  (String.length s <= n)%nat -> dropStr n s = "".
Proof.
  revert n; induction s as [|a s IH]; intros [|n] H; cbn in *;
    try reflexivity; try lia.
  apply IH. lia.
Qed.

Lemma length_dropStr (n : nat) (s : string) :
  String.length (dropStr n s) = (String.length s - n)%nat.
Proof.
  revert n; induction s as [|a s IH]; intros [|n]; cbn; try reflexivity.
  apply IH.
Qed.

Lemma dropStr_add (a b : nat) (s : string) :
  dropStr (a + b) s = dropStr b (dropStr a s).
Proof.
  revert s; induction a as [|a IH]; intros s; [reflexivity|].
  destruct s as [|c s]; cbn [Nat.add dropStr]; [now destruct b|apply IH].
Qed.

Lemma takeStr_dropStr (n : nat) (s : string) : takeStr n s ++ dropStr n s = s.
Proof.
  revert s; induction n as [|n IH]; intros s; [reflexivity|].
  destruct s as [|c s]; [reflexivity|]. cbn [takeStr dropStr].
  now rewrite append_cons, IH.
Qed.

(** [substring] on indices that are in order and not negative. *)
Lemma substring_ordered (s : string) (a b : Z) :
  0 <= a <= b ->
  substring s (Num a) (Num b) = takeStr (Z.to_nat (b - a)) (dropStr (Z.to_nat a) s).
Proof.
  intros Hab. destruct (Z_le_gt_dec b (strlen s)) as [Hb|Hb].
  - now apply substring_in_range.
  - unfold substring, clampIndex.
    replace (Z.min (Z.max b 0) (strlen s)) with (strlen s) by lia.
    destruct (Z_le_gt_dec a (strlen s)) as [Ha|Ha].
    + replace (Z.min (Z.max a 0) (strlen s)) with a by lia.
      replace (Z.min a (strlen s)) with a by lia.
      replace (Z.max a (strlen s)) with (strlen s) by lia.
      rewrite !takeStr_ge; [reflexivity| |];
        rewrite length_dropStr; unfold strlen in *; lia.
    + replace (Z.min (Z.max a 0) (strlen s)) with (strlen s) by lia.
      rewrite Z.min_id, Z.max_id, Z.sub_diag.
      rewrite (dropStr_ge (Z.to_nat a)) by (unfold strlen in *; lia).
      now destruct (Z.to_nat (b - a)).
Qed.

Lemma substringFrom_drop (s : string) (a : Z) :
  0 <= a -> substringFrom s (Num a) = dropStr (Z.to_nat a) s.
Proof.
  intros Ha. unfold substringFrom.
  destruct (Z_le_gt_dec a (strlen s)) as [Hle|Hgt].
  - rewrite substring_ordered by lia. apply takeStr_ge.
    rewrite length_dropStr. unfold strlen in *. lia.
  - unfold substring, clampIndex.
    replace (Z.min (Z.max a 0) (strlen s)) with (strlen s) by lia.
    replace (Z.min (Z.max (strlen s) 0) (strlen s)) with (strlen s)
      by (unfold strlen; lia).
    rewrite Z.min_id, Z.max_id, Z.sub_diag.
    rewrite (dropStr_ge (Z.to_nat a)) by (unfold strlen in *; lia).
    reflexivity.
Qed.

Lemma applyDiff_finish (text : string) (operations : list DiffOperation) :
  applyDiff text operations
  = finishDiff text (fold_left (applyOp text) operations ("", Num 0)).
Proof. reflexivity. Qed.

Lemma finishDiff_drop (text result : string) (z : Z) :
  0 <= z ->
  finishDiff text (result, Num z) = result ++ dropStr (Z.to_nat z) text.
Proof.
  intros Hz. cbn [finishDiff jslt].
  destruct (z <? strlen text) eqn:E.
  - now rewrite substringFrom_drop.
  - apply Z.ltb_ge in E. rewrite dropStr_ge by (unfold strlen in E; lia).
    now rewrite append_empty_r.
Qed.

(** With known lengths the cursor stays a number that is not negative. *)
Lemma fold_applyOp_cursor (text : string) (operations : list DiffOperation)
    (result : string) (z : Z) :
  forallb lengthKnown operations = true -> 0 <= z ->
  exists result' z',
    fold_left (applyOp text) operations (result, Num z) = (result', Num z')
    /\ 0 <= z'.
Proof.
  revert result z; induction operations as [|op l IH]; intros result z Hwf Hz.
  - exists result, z. split; [reflexivity|assumption].
  - cbn [forallb] in Hwf. apply andb_true_iff in Hwf. destruct Hwf as [Hop Hwf].
    cbn [fold_left].
    destruct op as [[n|]|[n|]|t]; cbn [lengthKnown] in Hop; try discriminate Hop;
      cbn [applyOp jsadd]; try apply Z.leb_le in Hop; apply IH; auto; lia.
Qed.

(** Trailing retains change nothing. *)
Lemma finishDiff_retains (text : string) (retains : list DiffOperation)
    (result : string) (z : Z) :
  forallb isRetain retains = true ->
  forallb lengthKnown retains = true -> 0 <= z ->
  finishDiff text (fold_left (applyOp text) retains (result, Num z))
  = finishDiff text (result, Num z).
Proof.
  revert result z; induction retains as [|op l IH]; intros result z Hr Hwf Hz;
    [reflexivity|].
  cbn [forallb] in Hr, Hwf.
  apply andb_true_iff in Hr. destruct Hr as [Hop Hr].
  apply andb_true_iff in Hwf. destruct Hwf as [Hk Hwf].
  destruct op as [[n|]|n|t]; try discriminate Hop; try discriminate Hk.
  cbn [lengthKnown] in Hk. apply Z.leb_le in Hk.
  cbn [fold_left applyOp jsadd]. rewrite IH by (assumption || lia).
  rewrite !finishDiff_drop by lia.
  rewrite substring_ordered by lia.
  replace (z + n - z) with n by lia.
  replace (Z.to_nat (z + n)) with (Z.to_nat z + Z.to_nat n)%nat by lia.
  rewrite dropStr_add, append_assoc, takeStr_dropStr. reflexivity.
Qed.

(** The closing step of [applyDiff] stands in for trailing retains. *)
Lemma applyDiff_dropTrailing (text : string) (operations : list DiffOperation) :
  forallb lengthKnown operations = true ->
  applyDiff text (dropTrailing isRetain operations) = applyDiff text operations.
Proof.
  intros Hwf.
  destruct (dropTrailing_split isRetain operations) as (r & Hl & Hr).
  rewrite !applyDiff_finish. rewrite Hl at 2. rewrite fold_left_app.
  rewrite Hl, forallb_app in Hwf. apply andb_true_iff in Hwf.
  destruct Hwf as [Hkept Hrk].
  destruct (fold_applyOp_cursor text _ "" 0 Hkept (Z.le_refl 0))
    as (result & z & -> & Hz).
  now rewrite finishDiff_retains.
Qed.

(** X4.  Leaving out the trailing retains, as [encodeDiff] does, does not
    change what [applyDiff] builds: a script whose retain and delete
    lengths are integers from 0 to 2^53 - 1, once encoded and decoded,
    applies to every text as the script itself. *)
Theorem applyDiff_without_trailing_retains (fuel : nat) (text : string)
    (operations : list DiffOperation) :
  forallb lengthExact operations = true ->
  (List.length operations < fuel)%nat ->
  applyDiff text (dropTrailing isRetain operations) = applyDiff text operations
  /\ (decoded ← decodeDiff fuel (encodeDiff operations);
      Return (applyDiff text decoded))
     = Return (applyDiff text operations).
Proof.
  intros Hexact Hfuel. pose proof (lengthExact_known operations Hexact) as Hwf.
  pose proof (applyDiff_dropTrailing text operations Hwf) as Hsame.
  split; [exact Hsame|].
  rewrite (decodeDiff_encoded fuel operations Hwf Hfuel). cbn.
  now rewrite Hsame.
Qed.

Lemma applyDiff_without_trailing_retains_witness :
  applyDiff "Hello, World!" [Retain (Num 7); Insert "wide "]
  = applyDiff "Hello, World!" [Retain (Num 7); Insert "wide "; Retain (Num 6)]
  /\ (decoded ← decodeDiff 4 (encodeDiff [Retain (Num 7); Insert "wide ";
                                          Retain (Num 6)]);
      Return (applyDiff "Hello, World!" decoded))
     = Return (applyDiff "Hello, World!"
                 [Retain (Num 7); Insert "wide "; Retain (Num 6)]).
Proof.
  apply (applyDiff_without_trailing_retains 4 "Hello, World!"
           [Retain (Num 7); Insert "wide "; Retain (Num 6)]);
    [reflexivity|cbn; lia].
Defined.

(** ** Diff provider adapter *)

Lemma convertDmpDiff_nonEmpty (d : Z * string) :
  forallb nonEmptyOp (convertDmpDiff d) = true
  /\ forallb lengthKnown (convertDmpDiff d) = true.
Proof.
  destruct d as [operation data]. unfold convertDmpDiff.
  destruct (0 <? strlen data) eqn:E.
  - assert (Ht : truthy data = true).
    { destruct data; [discriminate E|reflexivity]. }
    assert (Hk : (0 <=? strlen data) = true).
    { apply Z.leb_le. apply Z.ltb_lt in E. lia. }
    destruct (operation =? 0); [|destruct (operation =? -1);
                                  [|destruct (operation =? 1)]];
      cbn [forallb nonEmptyOp lengthKnown numPositive];
      rewrite ?E, ?Ht, ?Hk; split; reflexivity.
  - destruct (operation =? 0); [|destruct (operation =? -1);
                                  [|destruct (operation =? 1)]];
      split; reflexivity.
Qed.

Lemma converted_nonEmpty (diffs : list (Z * string)) :
  forallb nonEmptyOp (concat (map convertDmpDiff diffs)) = true
  /\ forallb lengthKnown (concat (map convertDmpDiff diffs)) = true.
Proof.
  induction diffs as [|d diffs [IH1 IH2]]; [split; reflexivity|].
  cbn [map concat]. rewrite !forallb_app, IH1, IH2.
  destruct (convertDmpDiff_nonEmpty d) as [-> ->]. split; reflexivity.
Qed.

Lemma filter_all {A : Type} (p : A -> bool) (l : list A) :
  forallb p l = true -> List.filter p l = l.
Proof.
  induction l as [|x l IH]; [reflexivity|]. cbn [forallb List.filter].
  intros H. apply andb_true_iff in H. destruct H as [-> H]. now rewrite IH.
Qed.

Lemma convertDmpDiffsToOperations_all (diffs : list (Z * string)) :
  convertDmpDiffsToOperations diffs = concat (map convertDmpDiff diffs).
Proof.
  unfold convertDmpDiffsToOperations, optimizeSimpleOperations.
  apply (filter_all nonEmptyOp), converted_nonEmpty.
Qed.

(** The converted script walks the old side of the diff and builds its
    new side. *)
Lemma fold_converted (diffs : list (Z * string)) :
  forall pre post result : string,
    fold_left (applyOp (pre ++ oldSide diffs ++ post))
              (concat (map convertDmpDiff diffs)) (result, Num (strlen pre))
    = (result ++ newSide diffs, Num (strlen pre + strlen (oldSide diffs))).
Proof.
  induction diffs as [|[operation data] diffs IH]; intros pre post result.
  - cbn [map concat fold_left oldSide newSide]. rewrite append_empty_r.
    change (strlen "") with 0. now rewrite Z.add_0_r.
  - cbn [map concat oldSide newSide]. rewrite fold_left_app.
    assert (Hempty : (0 <? strlen data) = false -> data = "").
    { intros E. apply Z.ltb_ge in E. destruct data; [reflexivity|].
      unfold strlen in E. cbn in E. lia. }
    assert (Hshift : forall result',
               fold_left (applyOp (pre ++ (data ++ oldSide diffs) ++ post))
                 (concat (map convertDmpDiff diffs))
                 (result', Num (strlen pre + strlen data))
               = (result' ++ newSide diffs,
                  Num (strlen pre + strlen (data ++ oldSide diffs)))).
    { intros result'.
      replace (pre ++ (data ++ oldSide diffs) ++ post)
        with ((pre ++ data) ++ oldSide diffs ++ post)
        by (now rewrite !append_assoc).
      rewrite <- strlen_append, IH, !strlen_append. f_equal. f_equal. lia. }
    unfold convertDmpDiff.
    destruct (operation =? 0) eqn:E0.
    + apply Z.eqb_eq in E0. subst operation. cbn [Z.eqb orb].
      destruct (0 <? strlen data) eqn:E.
      * cbn [fold_left applyOp jsadd].
        replace (pre ++ (data ++ oldSide diffs) ++ post)
          with (pre ++ data ++ (oldSide diffs ++ post)) at 2
          by (now rewrite !append_assoc).
        rewrite substring_middle, Hshift. now rewrite append_assoc.
      * rewrite (Hempty eq_refl). cbn [fold_left].
        change ("" ++ oldSide diffs) with (oldSide diffs).
        change ("" ++ newSide diffs) with (newSide diffs). apply IH.
    + destruct (operation =? -1) eqn:E1.
      * apply Z.eqb_eq in E1. subst operation. cbn [Z.eqb orb].
        destruct (0 <? strlen data) eqn:E.
        -- cbn [fold_left applyOp jsadd]. apply Hshift.
        -- rewrite (Hempty eq_refl). cbn [fold_left].
           change ("" ++ oldSide diffs) with (oldSide diffs). apply IH.
      * cbn [orb]. destruct (operation =? 1) eqn:E2.
        -- destruct (0 <? strlen data) eqn:E.
           ++ cbn [fold_left applyOp]. rewrite IH. now rewrite append_assoc.
           ++ rewrite (Hempty eq_refl). cbn [fold_left].
              change ("" ++ newSide diffs) with (newSide diffs). apply IH.
        -- cbn [fold_left]. apply IH.
Qed.

(** The four paths of [calculateDiff], each applied to the old text. *)
Lemma calculateDiff_applies (this : TextVersion)
    (oldText newText : string) :
  oldText = newText \/ oldText = "" \/ newText = ""
  \/ (let diffs := diff_cleanupSemantic (dmp this)
                     (diff_main (dmp this) oldText newText) in
      oldSide diffs = oldText /\ newSide diffs = newText) ->
  applyDiff oldText (calculateDiff this oldText newText) = newText.
Proof.
  intros H. unfold calculateDiff.
  destruct (String.eqb oldText newText) eqn:Eeq.
  { apply String.eqb_eq in Eeq. subst newText.
    destruct (0 <? strlen oldText) eqn:E; [|now destruct oldText].
    rewrite applyDiff_finish. cbn [fold_left applyOp jsadd].
    rewrite finishDiff_drop by (unfold strlen; lia).
    rewrite (substring_ordered oldText 0 (0 + strlen oldText))
      by (unfold strlen; lia).
    cbn [Z.to_nat dropStr]. rewrite Z.add_0_l, Z.sub_0_r.
    unfold strlen. rewrite Nat2Z.id, takeStr_length.
    now rewrite (dropStr_ge _ oldText (Nat.le_refl _)), append_empty_r. }
  destruct (strlen oldText =? 0) eqn:Eold.
  { destruct oldText; [|discriminate Eold].
    destruct (0 <? strlen newText) eqn:E; [reflexivity|].
    destruct newText; [reflexivity|discriminate E]. }
  destruct (strlen newText =? 0) eqn:Enew.
  { destruct newText; [|discriminate Enew].
    rewrite applyDiff_finish. cbn [fold_left applyOp jsadd].
    rewrite finishDiff_drop by (unfold strlen; lia).
    rewrite dropStr_ge; [reflexivity|unfold strlen; lia]. }
  destruct H as [H|[H|[H|H]]].
  - subst. now rewrite String.eqb_refl in Eeq.
  - subst. discriminate Eold.
  - subst. discriminate Enew.
  - cbv zeta in H. destruct H as [Hold Hnew].
    rewrite convertDmpDiffsToOperations_all, applyDiff_finish.
    set (diffs := diff_cleanupSemantic (dmp this)
                    (diff_main (dmp this) oldText newText)) in *.
    pose proof (fold_converted diffs "" "" "") as Hfold.
    rewrite append_empty_r in Hfold.
    change ("" ++ oldSide diffs) with (oldSide diffs) in Hfold.
    change ("" ++ newSide diffs) with (newSide diffs) in Hfold.
    rewrite Hold, Hnew in Hfold. change (strlen "") with 0 in Hfold.
    rewrite Hfold.
    rewrite finishDiff_drop by (unfold strlen; cbn; lia).
    rewrite dropStr_ge; [apply append_empty_r|unfold strlen; cbn; lia].
Qed.

(** X5.  Applying the script of [calculateDiff] to the old text gives the
    new text: always on the paths that do not call the provider (equal
    texts, an empty old text, an empty new text), and otherwise whenever
    the provider's diff spells out the old text on its equal and delete
    entries and the new text on its equal and insert entries. *)
Theorem calculateDiff_rebuilds_new_text (this : TextVersion)
    (oldText newText : string) :
  oldText = newText \/ oldText = "" \/ newText = ""
  \/ (let diffs := diff_cleanupSemantic (dmp this)
                     (diff_main (dmp this) oldText newText) in
      oldSide diffs = oldText /\ newSide diffs = newText) ->
  applyDiff oldText (calculateDiff this oldText newText) = newText.
Proof. exact (calculateDiff_applies this oldText newText). Qed.

Lemma calculateDiff_rebuilds_new_text_witness :
  applyDiff "Hello, World!" (calculateDiff prefixEngine "Hello, World!" "Hello, there")
  = "Hello, there".
Proof.
  apply (calculateDiff_rebuilds_new_text prefixEngine "Hello, World!" "Hello, there").
  right. right. right. split; reflexivity.
Defined.

(** The operations of [calculateDiff] on each of its four paths. *)
Lemma calculateDiff_operations (this : TextVersion)
    (oldText newText : string) :
  forallb nonEmptyOp (calculateDiff this oldText newText) = true
  /\ forallb lengthKnown (calculateDiff this oldText newText) = true.
Proof.
  unfold calculateDiff.
  destruct (String.eqb oldText newText).
  { destruct (0 <? strlen oldText) eqn:E; [|split; reflexivity].
    cbn. rewrite E. split; [reflexivity|].
    apply Z.ltb_lt in E. rewrite andb_true_r. apply Z.leb_le. lia. }
  destruct (strlen oldText =? 0) eqn:Eold.
  { destruct (0 <? strlen newText) eqn:E; [|split; reflexivity].
    destruct newText; [discriminate E|split; reflexivity]. }
  destruct (strlen newText =? 0).
  { apply Z.eqb_neq in Eold. pose proof (strlen_nonneg oldText).
    cbn. split; rewrite andb_true_r; [apply Z.ltb_lt|apply Z.leb_le]; lia. }
  rewrite convertDmpDiffsToOperations_all. apply converted_nonEmpty.
Qed.

(** X6.  Whatever the provider returns, [calculateDiff] gives no empty
    operation: every retain and delete has a positive length and every
    insert a non-empty text. *)
Theorem calculateDiff_no_empty_operation (this : TextVersion)
    (oldText newText : string) :
  forallb nonEmptyOp (calculateDiff this oldText newText) = true
  /\ forallb lengthKnown (calculateDiff this oldText newText) = true.
Proof. exact (calculateDiff_operations this oldText newText). Qed.

(** ** Record codec: reading back what was written *)

Lemma allChars_excludes (p : ascii -> bool) (c : ascii) (s : string) :
  p c = false -> allChars p s = true -> includesChar c s = false.
Proof.
  intros Hc. induction s as [|a s IH]; [reflexivity|]. cbn [allChars includesChar].
  intros H. apply andb_true_iff in H. destruct H as [Ha Hs]. rewrite (IH Hs).
  destruct (Ascii.eqb a c) eqn:E; [|reflexivity].
  apply Ascii.eqb_eq in E. subst. congruence.
Qed.

(** What follows the first colon of a record line: the name, a colon and
    the escaped payload are read back as they were written. *)
Lemma parse_after_length (version payload : string) :
  let body := numToString (Num (strlen version)) ++ ":" ++ version ++ ":"
                ++ payload in
  let firstColon := indexOf ":" body in
  let versionNameLength := parseInt (substring body (Num 0) (Num firstColon)) in
  let nameEnd := jsadd (Num (firstColon + 1)) versionNameLength in
  (firstColon =? -1) = false
  /\ isNaN versionNameLength = false
  /\ substring body (Num (firstColon + 1)) nameEnd = version
  /\ substringFrom body nameEnd = ":" ++ payload.
Proof.
  intros body firstColon versionNameLength nameEnd.
  pose proof (strlen_nonneg version) as Hv.
  destruct (numToString_digits (strlen version) Hv) as [_ Hd].
  set (N := numToString (Num (strlen version))) in *.
  assert (HN : includesChar ":" N = false)
    by (apply (allChars_excludes isDigit); [reflexivity|exact Hd]).
  assert (Hbody : body = N ++ String ":" (version ++ String ":" payload))
    by reflexivity.
  assert (Hfirst : firstColon = strlen N).
  { unfold firstColon, indexOf, indexOfFrom. cbn [Nat.min dropStr].
    rewrite Hbody, (findChar_first _ _ _ HN). reflexivity. }
  assert (Hlen : versionNameLength = Num (strlen version)).
  { unfold versionNameLength. rewrite Hfirst, Hbody.
    pose proof (substring_middle "" N (String ":" (version ++ String ":" payload)))
      as Hm.
    change (strlen "" + strlen N) with (strlen N) in Hm.
    change (Num (strlen "")) with (Num 0) in Hm.
    change ("" ++ N ++ String ":" (version ++ String ":" payload))
      with (N ++ String ":" (version ++ String ":" payload)) in Hm.
    rewrite Hm. apply parseInt_numToString, Hv. }
  assert (Hpre : strlen N + 1 = strlen (N ++ ":"))
    by (rewrite strlen_append; reflexivity).
  assert (Hshape : body = (N ++ ":") ++ version ++ String ":" payload)
    by (rewrite Hbody, append_assoc; reflexivity).
  split; [|split; [|split]].
  - rewrite Hfirst. apply Z.eqb_neq. pose proof (strlen_nonneg N). lia.
  - now rewrite Hlen.
  - unfold nameEnd. rewrite Hlen, Hfirst. cbn [jsadd].
    rewrite Hpre, Hshape. apply substring_middle.
  - unfold nameEnd. rewrite Hlen, Hfirst. cbn [jsadd].
    replace (strlen N + 1 + strlen version) with (strlen ((N ++ ":") ++ version))
      by (rewrite Hpre, <- strlen_append; reflexivity).
    rewrite Hshape.
    replace ((N ++ ":") ++ version ++ String ":" payload)
      with (((N ++ ":") ++ version) ++ String ":" payload)
      by (now rewrite !append_assoc).
    apply substringFrom_suffix.
Qed.

Lemma numToString_head (z : Z) :
  0 <= z ->
  exists c rest, numToString (Num z) = String c rest /\ isDigit c = true.
Proof.
  intros Hz. destruct (numToString_digits z Hz) as [Hne Hd].
  destruct (numToString (Num z)) as [|c rest]; [contradiction|].
  cbn [allChars] in Hd. apply andb_true_iff in Hd. destruct Hd as [Hc _].
  eauto.
Qed.

Lemma digit_not_colon (c : ascii) : isDigit c = true -> Ascii.eqb c ":" = false.
Proof.
  intros Hc. pose proof (isDigit_cases c Hc) as Hin. cbn [In] in Hin.
  destruct Hin as [<-|[<-|[<-|[<-|[<-|[<-|[<-|[<-|[<-|[<-|[]]]]]]]]]]];
    reflexivity.
Qed.

Lemma parseLine_snapshotLine (result : ParsedData) (version text : string) :
  parseLine result (snapshotLine version text)
  = mkParsedData (versions result ++ [version])
                 (<[version := unescapeString (escapeString text)]>
                    (snapshots result))
                 (deltas result).
Proof.
  unfold snapshotLine.
  set (payload := escapeString text).
  set (body := numToString (Num (strlen version)) ++ ":" ++ version ++ ":"
                 ++ payload).
  change (":" ++ body) with (String ":" body).
  unfold parseLine. cbn [startsWithChar Ascii.eqb Bool.eqb].
  replace (substringFrom (String ":" body) (Num 1)) with body
    by (symmetry; apply (substringFrom_suffix ":" body)).
  destruct (parse_after_length version payload) as (H1 & H2 & H3 & H4).
  fold body in H1, H2, H3, H4.
  rewrite H1, H2, H3, H4.
  change (":" ++ payload) with (String ":" payload).
  cbn [startsWithChar Ascii.eqb Bool.eqb negb].
  now rewrite (substringFrom_suffix ":" payload
               : substringFrom (String ":" payload) (Num 1) = payload).
Qed.

Lemma parseLine_deltaLine (result : ParsedData) (version payload : string) :
  parseLine result (deltaLine version payload)
  = mkParsedData (versions result ++ [version])
                 (snapshots result)
                 (<[version := unescapeString (escapeString payload)]>
                    (deltas result)).
Proof.
  unfold deltaLine.
  set (escaped := escapeString payload).
  set (body := numToString (Num (strlen version)) ++ ":" ++ version ++ ":"
                 ++ escaped).
  destruct (numToString_head (strlen version) (strlen_nonneg version))
    as (c & rest & HN & Hc).
  assert (Hstart : startsWithChar ":" body = false).
  { unfold body. rewrite HN, append_cons. cbn [startsWithChar].
    apply digit_not_colon, Hc. }
  unfold parseLine. rewrite Hstart.
  destruct (parse_after_length version escaped) as (H1 & H2 & H3 & H4).
  fold body in H1, H2, H3, H4.
  rewrite H1, H2, H3, H4.
  change (":" ++ escaped) with (String ":" escaped).
  cbn [startsWithChar Ascii.eqb Bool.eqb negb].
  now rewrite (substringFrom_suffix ":" escaped
               : substringFrom (String ":" escaped) (Num 1) = escaped).
Qed.

Lemma splitOn_none (c : ascii) (s : string) :
  includesChar c s = false -> splitOn c s = [s].
Proof.
  induction s as [|a s IH]; [reflexivity|]. cbn [includesChar splitOn].
  destruct (Ascii.eqb a c); [discriminate|]. cbn [orb]. intros H.
  now rewrite (IH H).
Qed.

Lemma splitOn_append (c : ascii) (a b : string) :
  includesChar c a = false ->
  splitOn c (a ++ String c b) = a :: splitOn c b.
Proof.
  induction a as [|x a IH].
  - intros _. change ("" ++ String c b) with (String c b). cbn [splitOn].
    now rewrite Ascii.eqb_refl.
  - cbn [includesChar]. rewrite append_cons. cbn [splitOn].
    destruct (Ascii.eqb x c); [discriminate|]. cbn [orb]. intros H.
    now rewrite (IH H).
Qed.

(** Joining lines that hold no line feed and splitting again gives the
    lines back. *)
Lemma splitOn_join (lines : list string) :
  lines <> [] ->
  Forall (fun line => includesChar LF line = false) lines ->
  splitOn LF (join (str1 LF) lines) = lines.
Proof.
  induction lines as [|x lines IH]; [congruence|]. intros _ H.
  inversion H as [|? ? Hx Hrest]; subst.
  destruct lines as [|y lines]; [now apply splitOn_none|].
  change (join (str1 LF) (x :: y :: lines))
    with (x ++ String LF (join (str1 LF) (y :: lines))).
  rewrite (splitOn_append _ _ _ Hx), IH; [reflexivity|discriminate|assumption].
Qed.

Lemma trim_truthy (c : ascii) (rest : string) :
  isWhiteSpace c = false -> truthy (trim (String c rest)) = true.
Proof.
  intros Hc. unfold trim. cbn [trimStart]. rewrite Hc. cbn [trimEnd].
  rewrite Hc. now destruct (trimEnd rest).
Qed.

Lemma digit_not_space (c : ascii) : isDigit c = true -> isWhiteSpace c = false.
Proof.
  intros Hc. pose proof (isDigit_cases c Hc) as Hin. cbn [In] in Hin.
  destruct Hin as [<-|[<-|[<-|[<-|[<-|[<-|[<-|[<-|[<-|[<-|[]]]]]]]]]]];
    reflexivity.
Qed.

(** A record line is one line, and not a blank one. *)
Lemma deltaLine_one_line (version payload : string) :
  includesChar LF version = false ->
  includesChar LF (deltaLine version payload) = false
  /\ truthy (trim (deltaLine version payload)) = true.
Proof.
  intros Hv. unfold deltaLine. split.
  - rewrite !includesChar_append, Hv.
    destruct (escapeString_no_breaks payload) as [-> _].
    destruct (numToString_digits _ (strlen_nonneg version)) as [_ Hd].
    now rewrite (allChars_excludes isDigit LF _ eq_refl Hd).
  - destruct (numToString_head _ (strlen_nonneg version)) as (c & rest & -> & Hc).
    rewrite append_cons. apply trim_truthy, digit_not_space, Hc.
Qed.

Lemma snapshotLine_one_line (version text : string) :
  includesChar LF version = false ->
  includesChar LF (snapshotLine version text) = false
  /\ truthy (trim (snapshotLine version text)) = true.
Proof.
  intros Hv. destruct (deltaLine_one_line version text Hv) as [H1 _].
  change (snapshotLine version text) with (String ":" (deltaLine version text)).
  split; [cbn [includesChar]; now rewrite H1|]. now apply trim_truthy.
Qed.

(** [trim] leaves something exactly when some character is no white
    space. *)
Lemma trim_blank (s : string) :
  truthy (trim s) = negb (allChars isWhiteSpace s).
Proof.
  induction s as [|c s IH]; [reflexivity|]. cbn [allChars].
  destruct (isWhiteSpace c) eqn:E.
  - unfold trim in *. cbn [trimStart]. now rewrite E.
  - now rewrite trim_truthy.
Qed.

Lemma allChars_append (p : ascii -> bool) (s r : string) :
  allChars p (s ++ r) = allChars p s && allChars p r.
Proof.
  induction s as [|a s IH]; [reflexivity|].
  rewrite append_cons. cbn [allChars]. rewrite IH. apply andb_assoc.
Qed.

(** A serialized storage with lines is not blank, and splits back into
    its lines, none of which is dropped as blank. *)
Lemma lines_of_join (lines : list string) :
  lines <> [] ->
  Forall (fun line => includesChar LF line = false
                      /\ truthy (trim line) = true) lines ->
  parseStorage (join (str1 LF) lines) = fold_left parseLine lines emptyParsedData.
Proof.
  intros Hne Hall. unfold parseStorage.
  assert (Hlf : Forall (fun line => includesChar LF line = false) lines)
    by (eapply Forall_impl; [|exact Hall]; now intros ? [? _]).
  assert (Hkeep : List.filter (fun line => truthy (trim line)) lines = lines).
  { apply filter_all. apply forallb_forall. intros x Hx.
    rewrite List.Forall_forall in Hall. now destruct (Hall x Hx). }
  rewrite (splitOn_join lines Hne Hlf), Hkeep.
  destruct lines as [|x lines]; [congruence|].
  inversion Hall as [|? ? [Hx Ht] _]; subst.
  assert (Hstorage : truthy (trim (join (str1 LF) (x :: lines))) = true).
  { rewrite trim_blank in Ht |- *. apply negb_true_iff in Ht.
    apply negb_true_iff.
    destruct lines; cbn [join]; [exact Ht|].
    now rewrite allChars_append, Ht. }
  now rewrite Hstorage.
Qed.

Lemma serializeLine_storable (data : ParsedData) (v : string) :
  storableRecord data v ->
  (exists t, snapshots data !! v = Some t /\ escapeSafe t = true
             /\ deltas data !! v = None
             /\ serializeLine data v = Some (snapshotLine v t))
  \/ (exists p, snapshots data !! v = None /\ deltas data !! v = Some p
                /\ escapeSafe p = true
                /\ serializeLine data v = Some (deltaLine v p)).
Proof.
  intros [_ [(t & Hs & Ht & He & Hd)|(Hs & p & Hd & Hp & He)]].
  - left. exists t. repeat split; try assumption.
    unfold serializeLine, truthyAt. now rewrite Hs, Ht.
  - right. exists p. repeat split; try assumption.
    unfold serializeLine, truthyAt. now rewrite Hs, Hd, Hp.
Qed.

Lemma serializeLine_one_line (data : ParsedData) (v line : string) :
  storableRecord data v -> serializeLine data v = Some line ->
  includesChar LF line = false /\ truthy (trim line) = true.
Proof.
  intros Hv Hline. pose proof Hv as [Hlf _].
  destruct (serializeLine_storable data v Hv)
    as [(t & _ & _ & _ & H)|(p & _ & _ & _ & H)];
    rewrite H in Hline; injection Hline as <-.
  - now apply snapshotLine_one_line.
  - now apply deltaLine_one_line.
Qed.

(** Parsing the lines of storable records adds the records, in order, to
    what was parsed before. *)
Lemma fold_parse_storable (data : ParsedData) (vs : list string) :
  (forall v, In v vs -> storableRecord data v) ->
  forall acc,
    let r := fold_left parseLine (omap (serializeLine data) vs) acc in
    versions r = (versions acc ++ vs)%list
    /\ (forall k, snapshots r !! k
                  = if includes k vs
                    then match snapshots data !! k with
                         | Some t => Some t
                         | None => snapshots acc !! k
                         end
                    else snapshots acc !! k)
    /\ (forall k, deltas r !! k
                  = if includes k vs
                    then match deltas data !! k with
                         | Some t => Some t
                         | None => deltas acc !! k
                         end
                    else deltas acc !! k).
Proof.
  induction vs as [|v vs IH]; intros Hall acc.
  - cbn. now rewrite app_nil_r.
  - assert (Hv : storableRecord data v) by (apply Hall; now left).
    assert (Hrest : forall x, In x vs -> storableRecord data x)
      by (intros x Hx; apply Hall; now right).
    assert (Hinc : forall k, includes k (v :: vs)
                             = String.eqb k v || includes k vs) by reflexivity.
    destruct (serializeLine_storable data v Hv)
      as [(t & Hs & He & Hd & Hline)|(p & Hs & Hd & He & Hline)];
      cbn [omap list_omap]; rewrite Hline; fold (omap (serializeLine data) vs);
      cbn [fold_left].
    + rewrite parseLine_snapshotLine, (unescapeString_escapeString t He).
      destruct (IH Hrest (mkParsedData (versions acc ++ [v])
                            (<[v := t]> (snapshots acc)) (deltas acc)))
        as (Hver & Hsn & Hde).
      cbn [versions snapshots deltas] in Hver, Hsn, Hde.
      split; [|split].
      * rewrite Hver, <- app_assoc. reflexivity.
      * intros k. rewrite Hsn, Hinc.
        destruct (String.eqb k v) eqn:E.
        -- apply String.eqb_eq in E. subst k. rewrite Hs, lookup_insert_eq.
           now destruct (includes v vs).
        -- apply String.eqb_neq in E. rewrite lookup_insert_ne by congruence.
           reflexivity.
      * intros k. rewrite Hde, Hinc.
        destruct (String.eqb k v) eqn:E; [|reflexivity].
        apply String.eqb_eq in E. subst k. rewrite Hd.
        now destruct (includes v vs).
    + rewrite parseLine_deltaLine, (unescapeString_escapeString p He).
      destruct (IH Hrest (mkParsedData (versions acc ++ [v])
                            (snapshots acc) (<[v := p]> (deltas acc))))
        as (Hver & Hsn & Hde).
      cbn [versions snapshots deltas] in Hver, Hsn, Hde.
      split; [|split].
      * rewrite Hver, <- app_assoc. reflexivity.
      * intros k. rewrite Hsn, Hinc.
        destruct (String.eqb k v) eqn:E; [|reflexivity].
        apply String.eqb_eq in E. subst k. rewrite Hs.
        now destruct (includes v vs).
      * intros k. rewrite Hde, Hinc.
        destruct (String.eqb k v) eqn:E.
        -- apply String.eqb_eq in E. subst k. rewrite Hd, lookup_insert_eq.
           now destruct (includes v vs).
        -- apply String.eqb_neq in E. rewrite lookup_insert_ne by congruence.
           reflexivity.
Qed.

Lemma omap_storable_lines (data : ParsedData) (vs : list string) :
  (forall v, In v vs -> storableRecord data v) ->
  Forall (fun line => includesChar LF line = false
                      /\ truthy (trim line) = true)
         (omap (serializeLine data) vs)
  /\ (vs <> [] -> omap (serializeLine data) vs <> []).
Proof.
  induction vs as [|v vs IH]; intros Hall; [split; [constructor|congruence]|].
  assert (Hv : storableRecord data v) by (apply Hall; now left).
  destruct IH as [IH _]; [intros x Hx; apply Hall; now right|].
  cbn [omap list_omap]. fold (omap (serializeLine data) vs).
  destruct (serializeLine data v) as [line|] eqn:E.
  - split; [|discriminate]. constructor; [|exact IH].
    now apply (serializeLine_one_line data v).
  - destruct (serializeLine_storable data v Hv)
      as [(t & _ & _ & _ & H)|(p & _ & _ & _ & H)]; congruence.
Qed.

(** The lines written for storable data are read back record by record. *)
Lemma parseStorage_serializeStorage (data : ParsedData) :
  storable data -> parseStorage (serializeStorage data) = data.
Proof.
  intros [Hall Hkeys]. unfold serializeStorage.
  assert (Hcase : versions data = [] \/ versions data <> [])
    by (destruct (versions data); [left|right]; congruence).
  destruct Hcase as [Evs|Evs].
  - rewrite Evs. cbn. destruct data as [vs snaps dels]. cbn in *. subst vs.
    unfold emptyParsedData. f_equal; apply map_eq; intros k;
      rewrite lookup_empty; symmetry; apply eq_None_not_Some; intros Hk;
      apply (Hkeys k); cbn; auto.
  - destruct (omap_storable_lines data (versions data) Hall) as [Hlines Hne].
    rewrite lines_of_join; [|apply Hne; exact Evs|exact Hlines].
    destruct (fold_parse_storable data (versions data) Hall emptyParsedData)
      as (Hver & Hsn & Hde).
    set (r := fold_left parseLine (omap (serializeLine data) (versions data))
                emptyParsedData) in *.
    assert (Hout : forall k, includes k (versions data) = false ->
                             snapshots data !! k = None /\ deltas data !! k = None).
    { intros k Hk. split; apply eq_None_not_Some; intros HS;
        assert (In k (versions data)) as Hin by (apply Hkeys; auto);
        apply includes_In in Hin; congruence. }
    destruct r as [rv rs rd]. destruct data as [vs snaps dels].
    unfold emptyParsedData in Hver, Hsn, Hde.
    cbn [versions snapshots deltas app] in *.
    f_equal.
    + exact Hver.
    + apply map_eq. intros k. rewrite Hsn, lookup_empty.
      destruct (includes k vs) eqn:E; [now destruct (snaps !! k)|].
      now destruct (Hout k E) as [-> _].
    + apply map_eq. intros k. rewrite Hde, lookup_empty.
      destruct (includes k vs) eqn:E; [now destruct (dels !! k)|].
      now destruct (Hout k E) as [_ ->].
Qed.

(** X7.  Storable parsed data whose names are no keys of
    [Object.prototype] survive the record codec: serializing them and
    parsing the result gives them back, the versions in their order and
    both dictionaries entry for entry. *)
Theorem parse_serialize_storable (data : ParsedData) :
  storable data -> noPrototypeKey (versions data) = true ->
  parseStorage (serializeStorage data) = data.
Proof. intros Hstorable _. exact (parseStorage_serializeStorage data Hstorable). Qed.

Lemma helloData_storable : storable helloData.
Proof.
  split.
  - intros v [<-|[<-|[]]]; (split; [reflexivity|]).
    + left. exists "Hello". repeat split.
    + right. split; [reflexivity|]. exists "R5I1:!". repeat split.
  - intros k [[x Hx]|[x Hx]]; cbn in Hx |- *.
    + destruct (decide (k = "v1")) as [->|Hne]; [auto|].
      rewrite lookup_singleton_ne in Hx by congruence. discriminate.
    + destruct (decide (k = "v2")) as [->|Hne]; [auto|].
      rewrite lookup_singleton_ne in Hx by congruence. discriminate.
Qed.

Lemma parse_serialize_storable_witness :
  serializeStorage helloData = ":2:v1:Hello" ++ str1 LF ++ "2:v2:R5I1:!"
  /\ parseStorage (":2:v1:Hello" ++ str1 LF ++ "2:v2:R5I1:!") = helloData.
Proof.
  split; [reflexivity|].
  exact (parse_serialize_storable helloData helloData_storable eq_refl).
Defined.

(** ** The hash used as a version name *)

Lemma digit36_base36 (d : Z) : 0 <= d < 36 -> isBase36 (digit36 d) = true.
Proof.
  intros Hd.
  assert (H : In d [0;1;2;3;4;5;6;7;8;9;10;11;12;13;14;15;16;17;18;19;20;
                    21;22;23;24;25;26;27;28;29;30;31;32;33;34;35]).
  { cbn [In]. lia. }
  cbn [In] in H.
  repeat (destruct H as [<-|H]; [reflexivity|]). contradiction.
Qed.

Lemma toString36_base36 (fuel : nat) (n : Z) (acc : string) :
  allChars isBase36 acc = true ->
  allChars isBase36 (toString36 fuel n acc) = true.
Proof.
  revert n acc; induction fuel as [|fuel IH]; intros n acc Hacc; [exact Hacc|].
  cbn [toString36].
  assert (Hd : allChars isBase36 (String (digit36 (n mod 36)) acc) = true).
  { cbn [allChars]. rewrite Hacc, digit36_base36; [reflexivity|].
    apply Z.mod_pos_bound. lia. }
  destruct (n / 36 =? 0); [exact Hd|]. now apply IH.
Qed.

Lemma toString36_length (fuel : nat) (n : Z) (acc : string) :
  (String.length acc < String.length (toString36 (S fuel) n acc)
   <= String.length acc + S fuel)%nat.
Proof.
  revert n acc; induction fuel as [|fuel IH]; intros n acc.
  - cbn [toString36]. destruct (n / 36 =? 0); cbn; lia.
  - change (toString36 (S (S fuel)) n acc)
      with (let acc' := String (digit36 (n mod 36)) acc in
            if n / 36 =? 0 then acc' else toString36 (S fuel) (n / 36) acc').
    cbv zeta. destruct (n / 36 =? 0); [cbn; lia|].
    specialize (IH (n / 36) (String (digit36 (n mod 36)) acc)).
    cbn [String.length] in IH. lia.
Qed.

Lemma digitValue_digit36 (d : Z) :
  0 <= d < 36 -> digitValue 36 (digit36 d) = Some d.
Proof.
  intros Hd.
  assert (H : In d [0;1;2;3;4;5;6;7;8;9;10;11;12;13;14;15;16;17;18;19;20;
                    21;22;23;24;25;26;27;28;29;30;31;32;33;34;35]).
  { cbn [In]. lia. }
  cbn [In] in H.
  repeat (destruct H as [<-|H]; [reflexivity|]). contradiction.
Qed.

(** [toString36] writes all the digits of a number below [36 ^ fuel]. *)
Lemma value36_toString36 (fuel : nat) (n : Z) (acc : string) :
  0 <= n < 36 ^ Z.of_nat fuel ->
  value36 (toString36 fuel n acc)
  = n * 36 ^ Z.of_nat (String.length acc) + value36 acc.
Proof.
  revert n acc; induction fuel as [|fuel IH]; intros n acc Hn.
  - cbn [toString36]. change (36 ^ Z.of_nat 0) with 1 in Hn.
    replace n with 0 by lia. lia.
  - cbn [toString36].
    assert (Hmod : 0 <= n mod 36 < 36) by (apply Z.mod_pos_bound; lia).
    assert (Hacc : value36 (String (digit36 (n mod 36)) acc)
                   = n mod 36 * 36 ^ Z.of_nat (String.length acc) + value36 acc).
    { cbn [value36]. now rewrite (digitValue_digit36 _ Hmod). }
    pose proof (Z.div_mod n 36 ltac:(lia)) as Hdm.
    destruct (n / 36 =? 0) eqn:E.
    + apply Z.eqb_eq in E. rewrite Hacc. rewrite E in Hdm.
      replace (n mod 36) with n by lia. reflexivity.
    + rewrite IH, Hacc.
      * cbn [String.length]. rewrite Nat2Z.inj_succ, Z.pow_succ_r by lia.
        set (P := 36 ^ Z.of_nat (String.length acc)).
        rewrite Hdm at 3. ring.
      * rewrite Nat2Z.inj_succ, Z.pow_succ_r in Hn by lia.
        split; [apply Z.div_pos; lia|].
        apply Z.div_lt_upper_bound; lia.
Qed.

Lemma toInt32_range (z : Z) : - 2 ^ 31 <= toInt32 z < 2 ^ 31.
Proof.
  unfold toInt32.
  pose proof (Z.mod_pos_bound (z + 2 ^ 31) (2 ^ 32) ltac:(lia)). lia.
Qed.

Lemma hashLoop_range (text : string) (hash : Z) :
  - 2 ^ 31 <= hash < 2 ^ 31 -> - 2 ^ 31 <= hashLoop hash text < 2 ^ 31.
Proof.
  revert hash; induction text as [|c text IH]; intros hash Hh; [exact Hh|].
  cbn [hashLoop]. apply IH. unfold hashStep. apply toInt32_range.
Qed.

Lemma generateHash_base36 (text : string) :
  allChars isBase36 (generateHash text) = true.
Proof. apply toString36_base36. reflexivity. Qed.

Lemma generateHash_no_LF (text : string) :
  includesChar LF (generateHash text) = false.
Proof.
  apply (allChars_excludes isBase36); [reflexivity|apply generateHash_base36].
Qed.

(** X8.  The hash of a text is the magnitude of a 32-bit number written in
    base 36 with all its digits: one to seven characters among 0-9 and
    a-z, none of them a line feed, that read back to that magnitude. *)
Theorem generateHash_format (text : string) :
  - 2 ^ 31 <= hashLoop 0 text < 2 ^ 31
  /\ value36 (generateHash text) = Z.abs (hashLoop 0 text)
  /\ allChars isBase36 (generateHash text) = true
  /\ (1 <= String.length (generateHash text) <= 7)%nat
  /\ includesChar LF (generateHash text) = false.
Proof.
  pose proof (hashLoop_range text 0 ltac:(lia)) as Hr.
  pose proof (generateHash_base36 text) as H.
  split; [exact Hr|]. split; [|split; [exact H|split]].
  - unfold generateHash. rewrite value36_toString36.
    + cbn [String.length value36 Z.of_nat]. lia.
    + change (36 ^ Z.of_nat 7) with 78364164096. lia.
  - pose proof (toString36_length 6 (Z.abs (hashLoop 0 text)) "") as Hl.
    cbn [String.length] in Hl. unfold generateHash. lia.
  - now apply (allChars_excludes isBase36).
Qed.

(** ** First commit *)

Lemma parse_snapshotLine (version text : string) :
  includesChar LF version = false -> escapeSafe text = true ->
  parseStorage (snapshotLine version text)
  = mkParsedData [version] {[version := text]} ∅.
Proof.
  intros Hv Ht.
  change (snapshotLine version text)
    with (join (str1 LF) [snapshotLine version text]).
  rewrite lines_of_join; [|discriminate|].
  - cbn [fold_left]. rewrite parseLine_snapshotLine, (unescapeString_escapeString _ Ht).
    reflexivity.
  - constructor; [|constructor]. now apply snapshotLine_one_line.
Qed.

(** X9.  Into a storage without records, the commit of a non-empty text in
    which no backslash is followed by t, r or n writes one snapshot line;
    [log] then lists the assigned name as a snapshot, and [show] of that
    name and [latest] give the text back.  A given name must hold no line
    feed; the hash never does.  The assigned name is no key of
    [Object.prototype]. *)
Theorem first_commit_shows_text (this : TextVersion) (fuel : nat)
    (storage text : string) (name : option string) :
  versions (parseStorage (decompress this storage)) = [] ->
  truthy text = true ->
  escapeSafe text = true ->
  includesChar LF (orEmpty name) = false ->
  let assigned :=
    if truthy (orEmpty name) then orEmpty name else generateHash text in
  let result := compress this (snapshotLine assigned text) in
  decompress this result = snapshotLine assigned text ->
  prototypeKey assigned = false ->
  commit this fuel storage text name = Return result
  /\ log this result = [mkVersionInfo assigned true]
  /\ show this (S fuel) result assigned = Return (Some text)
  /\ latest this (S fuel) result = Return text.
Proof.
  intros Hnone Htext Hsafe Hname assigned result Hlaw Hown.
  assert (Hlf : includesChar LF assigned = false).
  { unfold assigned. destruct (truthy (orEmpty name)); [exact Hname|].
    apply generateHash_no_LF. }
  assert (Hself : includes assigned [assigned] = true).
  { cbn. now rewrite String.eqb_refl. }
  assert (Hparse : parseStorage (decompress this result)
                   = mkParsedData [assigned] {[assigned := text]} ∅)
    by (rewrite Hlaw; now apply parse_snapshotLine).
  split; [|split; [|split]].
  - unfold commit. rewrite Hnone.
    cbn [findSameText mbind outcome_bind bind resolveVersionName includes existsb
         negb versions snapshots deltas app List.length Z.of_nat Pos.of_succ_nat
         Z.eqb Pos.eqb].
    fold assigned. do 2 f_equal.
    unfold serializeStorage. cbn [versions omap list_omap].
    unfold serializeLine, truthyAt at 1. cbn [snapshots].
    rewrite lookup_insert_eq, Htext. cbn [orEmpty]. reflexivity.
  - unfold log. rewrite Hparse. cbn [versions snapshots map].
    unfold truthyAt. now rewrite lookup_singleton_eq, Htext.
  - unfold show. cbn [getVersionText]. rewrite Hparse. cbn [versions snapshots].
    rewrite Hself. cbn [negb]. unfold truthyAt.
    now rewrite lookup_singleton_eq, Htext.
  - unfold latest. rewrite Hparse. cbn [versions List.length Z.of_nat
      Pos.of_succ_nat Z.eqb Nat.sub lookup list_lookup orEmpty].
    cbn [getVersionText]. rewrite Hparse. cbn [versions snapshots].
    rewrite Hself. cbn [negb]. unfold truthyAt.
    now rewrite lookup_singleton_eq, Htext.
Qed.

Lemma first_commit_shows_text_witness :
  commit plainEngine 1 "" "Hello, World!" (Some "v1")
  = Return ":2:v1:Hello, World!"
  /\ log plainEngine ":2:v1:Hello, World!" = [mkVersionInfo "v1" true]
  /\ show plainEngine 2 ":2:v1:Hello, World!" "v1" = Return (Some "Hello, World!")
  /\ latest plainEngine 2 ":2:v1:Hello, World!" = Return "Hello, World!".
Proof.
  apply (first_commit_shows_text plainEngine 1 "" "Hello, World!" (Some "v1"));
    reflexivity.
Defined.

(** ** Squash on a target with a non-empty text *)

Lemma includes_false (v : string) (l : list string) :
  ~ In v l -> includes v l = false.
Proof.
  intros H. destruct (includes v l) eqn:E; [|reflexivity].
  apply includes_In in E. contradiction.
Qed.

(** The storage [squash] returns and its parse, when the target resolves
    to a text that can be stored and the records after it are storable. *)
Lemma squash_result (this : TextVersion) (fuel : nat)
    (storage target text : string) (before later : list string) :
  let parsedData := parseStorage (decompress this storage) in
  (forall x, decompress this (compress this x) = x) ->
  versions parsedData = (before ++ target :: later)%list ->
  ~ In target before -> ~ In target later ->
  getVersionText fuel (decompress this storage) target = Return (Some text) ->
  truthy text = true -> escapeSafe text = true ->
  includesChar LF target = false ->
  (forall v, In v later -> storableRecord parsedData v) ->
  exists newData,
    squash this fuel storage target
    = Return (compress this (serializeStorage newData))
    /\ parseStorage (decompress this (compress this (serializeStorage newData)))
       = newData
    /\ versions newData = target :: later
    /\ snapshots newData !! target = Some text
    /\ forall v, In v later ->
         snapshots newData !! v = snapshots parsedData !! v
         /\ deltas newData !! v = deltas parsedData !! v.
Proof.
  intros parsedData Hlaw Hvs Hnb Hnl Hres Htext Hsafe Hlf Hlater.
  set (start := mkParsedData (target :: later) {[target := text]} ∅).
  set (newData := fold_left (carryRecord parsedData) later start).
  destruct (fold_carryRecord parsedData later start) as (Nv & Ns & Nd).
  fold newData in Nv, Ns, Nd. cbn [start versions snapshots deltas] in Nv, Ns, Nd.
  assert (Htl : includes target later = false) by now apply includes_false.
  assert (Hst : snapshots newData !! target = Some text).
  { rewrite Ns, Htl. cbn [andb]. apply lookup_singleton_eq. }
  assert (Hdt : deltas newData !! target = None).
  { rewrite Nd, Htl. cbn [andb]. apply lookup_empty. }
  assert (Hne : forall v, In v later -> target <> v)
    by (intros v Hv ->; contradiction).
  assert (Hkind : forall v, In v later ->
            snapshots newData !! v = snapshots parsedData !! v
            /\ deltas newData !! v = deltas parsedData !! v).
  { intros v Hv. pose proof (proj2 (includes_In v later) Hv) as Hin.
    rewrite Ns, Nd, Hin. cbn [andb]. unfold truthyAt.
    destruct (Hlater v Hv) as [_ [(t & Hs & Ht & _ & Hd)|(Hs & p & Hd & Hp & _)]].
    - rewrite Hs, Hd, Ht. cbn [negb andb orEmpty]. split; [reflexivity|].
      apply lookup_empty.
    - rewrite Hs, Hd, Hp. cbn [negb andb orEmpty]. split; [|reflexivity].
      apply lookup_singleton_ne. now apply Hne. }
  assert (Hstorable : storable newData).
  { split.
    - intros v Hv. rewrite Nv in Hv. destruct Hv as [<-|Hv].
      + split; [exact Hlf|]. left. exists text. auto.
      + destruct (Hkind v Hv) as [Ks Kd]. destruct (Hlater v Hv) as [Hl Hk].
        split; [exact Hl|]. rewrite Ks, Kd. exact Hk.
    - intros k Hk. rewrite Nv.
      destruct (decide (k = target)) as [->|Hkt]; [now left|]. right.
      apply includes_In. destruct (includes k later) eqn:E; [reflexivity|].
      rewrite Ns, Nd, E in Hk. cbn [andb] in Hk.
      rewrite lookup_singleton_ne, lookup_empty in Hk by congruence.
      destruct Hk as [[x Hx]|[x Hx]]; discriminate. }
  assert (Hidx : indexOfList target (versions parsedData)
                 = Z.of_nat (List.length before))
    by (rewrite Hvs; now apply indexOfList_app).
  exists newData. split; [|split; [|split; [|split]]]; auto.
  - unfold squash. fold parsedData. rewrite Hidx.
    destruct (Z.of_nat (List.length before) =? -1) eqn:E;
      [apply Z.eqb_eq in E; lia|].
    rewrite Hres. cbn [mbind outcome_bind bind].
    rewrite Nat2Z.id.
    replace (Z.to_nat (Z.of_nat (List.length before) + 1))
      with (S (List.length before)) by lia.
    rewrite Hvs. rewrite drop_app_length.
    replace (drop (S (List.length before)) (before ++ target :: later))
      with later
      by (change (before ++ target :: later)%list
            with (before ++ [target] ++ later)%list;
          rewrite app_assoc;
          replace (S (List.length before)) with (List.length (before ++ [target]))
            by (rewrite length_app; cbn; lia);
          now rewrite drop_app_length).
    reflexivity.
  - rewrite Hlaw. now apply parseStorage_serializeStorage.
Qed.

(** X10.  When the target is listed once, resolves to a non-empty text in
    which no backslash is followed by t, r or n, the records after it are
    storable and none of them bears a name that came before the target,
    [squash] returns a storage in which the target is a snapshot of that
    same text, the log is the target followed by the entries that came
    after it, unchanged, and the versions that came before it are not
    found.  No stored name is a key of [Object.prototype]. *)
Theorem squash_keeps_target (this : TextVersion) (fuel : nat)
    (storage target text : string) (before later : list string) :
  let parsedData := parseStorage (decompress this storage) in
  (forall x, decompress this (compress this x) = x) ->
  noPrototypeKey (versions parsedData) = true ->
  versions parsedData = (before ++ target :: later)%list ->
  ~ In target before -> ~ In target later ->
  (forall v, In v before -> ~ In v later) ->
  getVersionText fuel (decompress this storage) target = Return (Some text) ->
  truthy text = true -> escapeSafe text = true ->
  includesChar LF target = false ->
  (forall v, In v later -> storableRecord parsedData v) ->
  exists result,
    squash this fuel storage target = Return result
    /\ log this result
       = mkVersionInfo target true
           :: drop (S (List.length before)) (log this storage)
    /\ show this (S fuel) result target = Return (Some text)
    /\ forall v, In v before -> show this (S fuel) result v = Return None.
Proof.
  intros parsedData Hlaw Hown Hvs Hnb Hnl Hdisj Hres Htext Hsafe Hlf Hlater.
  destruct (squash_result this fuel storage target text before later
              Hlaw Hvs Hnb Hnl Hres Htext Hsafe Hlf Hlater)
    as (newData & Hsquash & Hparse & Nv & Hst & Hkind).
  fold parsedData in Hkind.
  exists (compress this (serializeStorage newData)).
  split; [exact Hsquash|]. split; [|split].
  - unfold log. rewrite Hparse, Nv. fold parsedData. rewrite Hvs.
    cbn [map]. f_equal.
    + unfold truthyAt. now rewrite Hst, Htext.
    + rewrite List.skipn_map.
      replace (drop (S (List.length before)) (before ++ target :: later))
        with later
        by (change (before ++ target :: later)%list
              with (before ++ [target] ++ later)%list;
            rewrite app_assoc;
            replace (S (List.length before)) with (List.length (before ++ [target]))
              by (rewrite length_app; cbn; lia);
            now rewrite drop_app_length).
      apply map_ext_in. intros v Hv. f_equal.
      unfold truthyAt. now destruct (Hkind v Hv) as [-> _].
  - unfold show. cbn [getVersionText]. rewrite Hparse, Nv.
    assert (Hin : includes target (target :: later) = true)
      by (cbn; now rewrite String.eqb_refl).
    rewrite Hin. cbn [negb]. unfold truthyAt. now rewrite Hst, Htext.
  - intros v Hv. unfold show. cbn [getVersionText]. rewrite Hparse, Nv.
    assert (Hout : includes v (target :: later) = false).
    { apply includes_false. intros [<-|Hin]; [contradiction|].
      now apply (Hdisj v Hv). }
    now rewrite Hout.
Qed.

Lemma squash_keeps_target_witness :
  exists result,
    squash plainEngine 9 threeRecords "v2" = Return result
    /\ log plainEngine result
       = mkVersionInfo "v2" true :: drop 2 (log plainEngine threeRecords)
    /\ show plainEngine 10 result "v2" = Return (Some "x")
    /\ forall v, In v ["v1"] -> show plainEngine 10 result v = Return None.
Proof.
  apply (squash_keeps_target plainEngine 9 threeRecords "v2" "x" ["v1"] ["v3"]);
    try reflexivity.
  - cbn. intuition discriminate.
  - cbn. intuition discriminate.
  - cbn. intros v [<-|[]] [H|[]]. discriminate H.
  - intros v [<-|[]]. split; [reflexivity|]. right. split; [reflexivity|].
    exists "R1I1:y". repeat split.
Defined.

(** ** Reset *)

Lemma getVersionText_resolveData (fuel : nat) (storage v : string) :
  getVersionText fuel storage v = resolveData fuel (parseStorage storage) v.
Proof.
  revert v; induction fuel as [|fuel IH]; intros v; [reflexivity|].
  cbn [getVersionText resolveData].
  set (data := parseStorage storage).
  destruct (negb (includes v (versions data))); [reflexivity|].
  destruct (truthyAt (snapshots data) v); [reflexivity|].
  unfold takesReferenceBranch, referencedName.
  destruct (truthyAt (deltas data) v
            && includesChar "=" (orEmpty (deltas data !! v))); [|reflexivity].
  cbn [andb].
  destruct (indexOf "=" (orEmpty (deltas data !! v)) =? 0); [|reflexivity].
  destruct (negb (indexOfFrom ":" 1 (orEmpty (deltas data !! v)) =? -1));
    now rewrite IH.
Qed.

Lemma findBase_bound (data : ParsedData) (i : nat) :
  -1 <= snd (findBase data i) <= Z.of_nat i.
Proof.
  induction i as [|i IH]; cbn [findBase].
  - destruct (versions data !! 0%nat) as [v|]; [|cbn; lia].
    destruct (truthyAt (snapshots data) v); cbn; lia.
  - destruct (versions data !! S i) as [v|];
      [destruct (truthyAt (snapshots data) v)|]; cbn; lia.
Qed.

Lemma indexOfList_prefix (v : string) (keep later : list string) :
  In v keep ->
  indexOfList v (keep ++ later) = indexOfList v keep
  /\ 0 <= indexOfList v keep < Z.of_nat (List.length keep).
Proof.
  induction keep as [|x keep IH]; intros Hin; [destruct Hin|].
  cbn [app indexOfList List.length].
  destruct (String.eqb x v) eqn:E; [split; lia|].
  apply String.eqb_neq in E.
  destruct Hin as [->|Hin]; [contradiction|].
  destruct (IH Hin) as [-> Hr].
  destruct (indexOfList v keep =? -1) eqn:E1; [apply Z.eqb_eq in E1; lia|].
  split; lia.
Qed.

Lemma same_truthy_lookup (m1 m2 : gmap string string) (k : string) :
  truthyAt m1 k = truthyAt m2 k ->
  orEmpty (m1 !! k) = orEmpty (m2 !! k) ->
  truthyAt m1 k = true -> m1 !! k = m2 !! k.
Proof.
  unfold truthyAt. destruct (m1 !! k) as [a|], (m2 !! k) as [b|]; cbn;
    intros Ht He H1; subst; congruence.
Qed.

Section Prefix.

Variables (full kept : ParsedData) (keep later : list string).
Hypothesis Hfull : versions full = (keep ++ later)%list.
Hypothesis Hkept : versions kept = keep.
Hypothesis Hsame : sameRecords keep full kept.

Lemma lookup_prefix (i : nat) :
  (i < List.length keep)%nat -> versions full !! i = versions kept !! i.
Proof. intros Hi. rewrite Hfull, Hkept. now apply lookup_app_l. Qed.

Lemma findBase_prefix (i : nat) :
  (i < List.length keep)%nat -> findBase full i = findBase kept i.
Proof.
  induction i as [|i IH]; intros Hi; cbn [findBase];
    rewrite (lookup_prefix _ Hi);
    (destruct (versions kept !! _) as [v|] eqn:Ev;
     [assert (Hv : In v keep)
        by (rewrite <- Hkept; apply list_elem_of_In;
            eapply list_elem_of_lookup_2; exact Ev);
      destruct (Hsame v Hv) as (-> & -> & _)|]).
  - reflexivity.
  - reflexivity.
  - destruct (truthyAt (snapshots kept) v); [reflexivity|]. apply IH. lia.
  - apply IH. lia.
Qed.

Lemma slice_prefix (a b : Z) :
  0 <= a -> b < Z.of_nat (List.length keep) ->
  slice (versions full) a b = slice (versions kept) a b.
Proof.
  intros Ha Hb. unfold slice. rewrite Hfull, Hkept.
  destruct (Z_le_gt_dec a (Z.of_nat (List.length keep))) as [Hle|Hgt].
  - rewrite drop_app_le by lia. apply take_app_le.
    rewrite length_drop. lia.
  - replace (Z.to_nat (b + 1 - a)) with 0%nat by lia. reflexivity.
Qed.

Lemma slice_kept (a b : Z) (x : string) :
  In x (slice (versions kept) a b) -> In x keep.
Proof.
  unfold slice. rewrite Hkept. intros H.
  apply list_elem_of_In in H. apply list_elem_of_In.
  apply (subseteq_drop (Z.to_nat a)). eapply subseteq_take. exact H.
Qed.

Lemma replayDeltas_same (fuel : nat) (l : list string) (t : string) :
  (forall x, In x l -> In x keep) ->
  replayDeltas fuel full l t = replayDeltas fuel kept l t.
Proof.
  revert t; induction l as [|x l IH]; intros t Hl; [reflexivity|].
  cbn [replayDeltas].
  destruct (Hsame x (Hl x (or_introl eq_refl))) as (_ & _ & -> & ->).
  assert (Hrest : forall y, In y l -> In y keep)
    by (intros y Hy; apply Hl; now right).
  destruct (truthyAt (deltas kept) x
            && negb (includesChar "=" (orEmpty (deltas kept !! x))));
    [|now apply IH].
  destruct (decodeDiff fuel (orEmpty (deltas kept !! x))); cbn; auto.
Qed.

(** References of kept records point at kept records or at no record. *)
Hypothesis Hclosed :
  forall v, In v keep -> takesReferenceBranch full v = true ->
    In (referencedName (orEmpty (deltas full !! v))) keep
    \/ ~ In (referencedName (orEmpty (deltas full !! v))) (keep ++ later).

Lemma resolveData_prefix (fuel : nat) (v : string) :
  In v keep \/ ~ In v (keep ++ later) ->
  resolveData fuel full v = resolveData fuel kept v.
Proof.
  revert v; induction fuel as [|fuel IH]; intros v Hv; [reflexivity|].
  cbn [resolveData].
  destruct Hv as [Hv|Hv].
  2:{ assert (H1 : includes v (versions full) = false)
        by (rewrite Hfull; now apply includes_false).
      assert (H2 : includes v (versions kept) = false).
      { rewrite Hkept. apply includes_false. intros Hin.
        apply Hv, in_or_app. now left. }
      now rewrite H1, H2. }
  assert (H1 : includes v (versions full) = true)
    by (rewrite Hfull; apply includes_In, in_or_app; now left).
  assert (H2 : includes v (versions kept) = true)
    by (rewrite Hkept; now apply includes_In).
  rewrite H1, H2. cbn [negb].
  destruct (Hsame v Hv) as (Hts & Hes & Htd & Hed).
  pose proof (same_truthy_lookup _ _ v Hts Hes) as Hlk.
  rewrite <- Hts. clear Hts.
  destruct (truthyAt (snapshots full) v) eqn:Et.
  { now rewrite (Hlk eq_refl). }
  assert (Href : takesReferenceBranch full v = takesReferenceBranch kept v)
    by (unfold takesReferenceBranch; now rewrite Htd, Hed).
  rewrite <- Href, <- Hed.
  destruct (takesReferenceBranch full v) eqn:Er.
  - specialize (Hclosed v Hv Er).
    destruct (negb (indexOfFrom ":" 1 (orEmpty (deltas full !! v)) =? -1));
      now rewrite (IH _ Hclosed).
  - destruct (indexOfList_prefix v keep later Hv) as [Hi Hidx].
    assert (Hif : indexOfList v (versions full) = indexOfList v (versions kept))
      by (now rewrite Hfull, Hkept).
    rewrite Hif. rewrite <- Hkept in Hidx.
    rewrite findBase_prefix by (rewrite <- Hkept; lia).
    pose proof (findBase_bound kept (Z.to_nat (indexOfList v (versions kept))))
      as Hb.
    destruct (findBase kept (Z.to_nat (indexOfList v (versions kept))))
      as [baseText baseIndex].
    cbn [snd] in Hb.
    rewrite slice_prefix by (rewrite <- ?Hkept; lia).
    rewrite replayDeltas_same; [reflexivity|].
    intros x Hx. now apply slice_kept in Hx.
Qed.

End Prefix.





(** ** Version names *)

Lemma addHashes_snoc (k : nat) (c : string) :
  addHashes (S k) c = addHashes k c ++ "#".
Proof.
  revert c; induction k as [|k IH]; intros c; [reflexivity|].
  change (addHashes (S (S k)) c) with (addHashes (S k) (c ++ "#")).
  rewrite IH. reflexivity.
Qed.

Lemma appendHashes_least (rounds : nat) (l : list string) (c : string) :
  exists k, (k <= rounds)%nat
            /\ appendHashes rounds l c = addHashes k c
            /\ forall j, (j < k)%nat -> includes (addHashes j c) l = true.
Proof.
  revert c; induction rounds as [|r IH]; intros c.
  - exists 0%nat. repeat split; [lia|]. intros j Hj. lia.
  - cbn [appendHashes]. destruct (includes c l) eqn:E.
    + destruct (IH (c ++ "#")) as (k & Hk & Heq & Hall).
      exists (S k). split; [lia|]. split; [exact Heq|].
      intros [|j] Hj; [exact E|]. apply Hall. lia.
    + exists 0%nat. repeat split; [lia|]. intros j Hj. lia.
Qed.

Lemma resolveVersionName_addHashes (existingVersions : list string)
    (proposedVersion : string) :
  exists k, resolveVersionName existingVersions proposedVersion
            = addHashes k proposedVersion.
Proof.
  unfold resolveVersionName.
  destruct (negb (includes proposedVersion existingVersions));
    [now exists 0%nat|].
  destruct (appendHashes_least (List.length existingVersions) existingVersions
              (proposedVersion ++ "#")) as (k & _ & Heq & _).
  now exists (S k).
Qed.

(** X12.  The name [commit] assigns is the proposed name followed by the
    least number of [#] that makes it differ from every existing name:
    it is not among the existing names, and every shorter candidate is. *)
Theorem resolveVersionName_least (existingVersions : list string)
    (proposedVersion : string) :
  exists k,
    resolveVersionName existingVersions proposedVersion
    = addHashes k proposedVersion
    /\ includes (addHashes k proposedVersion) existingVersions = false
    /\ (forall j, (j < k)%nat ->
          includes (addHashes j proposedVersion) existingVersions = true)
    /\ (k <= List.length existingVersions)%nat.
Proof.
  pose proof (resolveVersionName_fresh existingVersions proposedVersion) as Hf.
  unfold resolveVersionName in *.
  destruct (includes proposedVersion existingVersions) eqn:E; cbn [negb] in *.
  - destruct (appendHashes_least (List.length existingVersions) existingVersions
                (proposedVersion ++ "#")) as (k & Hk & Heq & Hall).
    assert (Hsmall : (k < List.length existingVersions)%nat \/
                     k = List.length existingVersions) by lia.
    exists (S k). rewrite Heq in Hf |- *.
    change (addHashes (S k) proposedVersion)
      with (addHashes k (proposedVersion ++ "#")).
    repeat split; [exact Hf| |].
    + intros [|j] Hj; [exact E|]. apply Hall. lia.
    + destruct Hsmall as [Hlt | ->]; [lia|]. exfalso.
      (* all of proposed, proposed#, ... are listed: one name too many *)
      set (n := List.length existingVersions) in *.
      set (tried := map (fun j => addHashes j proposedVersion) (seq 0 (S n))).
      assert (Hdup : NoDup tried).
      { assert (Hinj : Inj (=) (=) (fun j => addHashes j proposedVersion)).
        { intros a b Hab. apply (f_equal String.length) in Hab.
          rewrite !addHashes_length in Hab. lia. }
        unfold tried. apply (NoDup_fmap_2 _), NoDup_seq. }
      assert (Hincl : forall x, x ∈ tried -> x ∈ existingVersions).
      { intros x Hx. apply list_elem_of_In. apply list_elem_of_In in Hx.
        apply in_map_iff in Hx. destruct Hx as (j & <- & Hj).
        apply in_seq in Hj. apply includes_In.
        destruct j as [|j]; [exact E|]. cbn [addHashes]. apply Hall. lia. }
      pose proof (submseteq_length _ _ (NoDup_submseteq _ _ Hdup Hincl)) as Hlen.
      unfold tried in Hlen. rewrite length_map, length_seq in Hlen.
      fold n in Hlen. lia.
  - exists 0%nat. repeat split; [exact E| |lia]. intros j Hj. lia.
Qed.

Example resolveVersionName_escalates :
  resolveVersionName ["v1"; "v1#"] "v1" = "v1##".
Proof. reflexivity. Qed.

(** ** Commit onto existing records *)

Lemma addHashes_no_LF (k : nat) (c : string) :
  includesChar LF c = false -> includesChar LF (addHashes k c) = false.
Proof.
  revert c; induction k as [|k IH]; intros c Hc; [exact Hc|].
  cbn [addHashes]. apply IH. now rewrite includesChar_append, Hc.
Qed.

Lemma assigned_no_LF (vs : list string) (text : string) (name : option string) :
  includesChar LF (orEmpty name) = false ->
  includesChar LF
    (if truthy (orEmpty name)
     then resolveVersionName vs (orEmpty name)
     else resolveVersionName vs (generateHash text)) = false.
Proof.
  intros Hname. destruct (truthy (orEmpty name)).
  - destruct (resolveVersionName_addHashes vs (orEmpty name)) as (k & ->).
    now apply addHashes_no_LF.
  - destruct (resolveVersionName_addHashes vs (generateHash text)) as (k & ->).
    apply addHashes_no_LF, generateHash_no_LF.
Qed.

Lemma assigned_fresh (vs : list string) (text : string) (name : option string) :
  ~ In (if truthy (orEmpty name)
        then resolveVersionName vs (orEmpty name)
        else resolveVersionName vs (generateHash text)) vs.
Proof.
  intros Hin. apply includes_In in Hin.
  destruct (truthy (orEmpty name)); now rewrite resolveVersionName_fresh in Hin.
Qed.

(** ** Resolving with more fuel *)

Lemma decodeLoop_mono (fuel : nat) :
  forall (fuel' : nat) (encoded : string) (i : jsnum)
         (operations result : list DiffOperation),
    (fuel <= fuel')%nat ->
    decodeLoop fuel encoded i operations = Return result ->
    decodeLoop fuel' encoded i operations = Return result.
Proof.
  induction fuel as [|fuel IH]; intros fuel' encoded i operations result Hle H;
    [discriminate H|].
  destruct fuel' as [|fuel']; [lia|].
  cbn [decodeLoop] in *.
  destruct (jslt i (Num (strlen encoded))); [|exact H].
  cbv zeta in *.
  destruct (isChar "R" (charAt encoded i) || isChar "D" (charAt encoded i));
    [apply IH; [lia|exact H]|].
  destruct (isChar "I" (charAt encoded i)); (apply IH; [lia|exact H]).
Qed.

Lemma replayDeltas_mono (fuel fuel' : nat) (data : ParsedData)
    (l : list string) :
  (fuel <= fuel')%nat ->
  forall t result,
    replayDeltas fuel data l t = Return result ->
    replayDeltas fuel' data l t = Return result.
Proof.
  intros Hle. induction l as [|v l IH]; intros t result H; [exact H|].
  cbn [replayDeltas] in *.
  destruct (truthyAt (deltas data) v
            && negb (includesChar "=" (orEmpty (deltas data !! v))));
    [|now apply IH].
  unfold decodeDiff in *.
  destruct (decodeLoop fuel (orEmpty (deltas data !! v)) (Num 0) [])
    as [ops| |] eqn:E; try discriminate H.
  rewrite (decodeLoop_mono fuel fuel' _ _ _ _ Hle E).
  cbn [mbind outcome_bind bind] in *. now apply IH.
Qed.

Lemma resolveData_mono (fuel : nat) :
  forall (fuel' : nat) (data : ParsedData) (v : string) (result : option string),
    (fuel <= fuel')%nat ->
    resolveData fuel data v = Return result ->
    resolveData fuel' data v = Return result.
Proof.
  induction fuel as [|fuel IH]; intros fuel' data v result Hle H;
    [discriminate H|].
  destruct fuel' as [|fuel']; [lia|].
  cbn [resolveData] in *.
  destruct (negb (includes v (versions data))); [exact H|].
  destruct (truthyAt (snapshots data) v); [exact H|].
  destruct (takesReferenceBranch data v).
  - destruct (negb (indexOfFrom ":" 1 (orEmpty (deltas data !! v)) =? -1)).
    + destruct (resolveData fuel data
                  (referencedName (orEmpty (deltas data !! v))))
        as [b| |] eqn:Eb; try discriminate H.
      rewrite (IH fuel' _ _ _ ltac:(lia) Eb).
      cbn [mbind outcome_bind bind] in *.
      unfold decodeDiff in *.
      destruct (decodeLoop (S fuel) _ (Num 0) []) as [ops| |] eqn:Eo;
        try discriminate H.
      now rewrite (decodeLoop_mono (S fuel) (S fuel') _ _ _ _ ltac:(lia) Eo).
    + apply IH; [lia|exact H].
  - destruct (findBase data (Z.to_nat (indexOfList v (versions data))))
      as [baseText baseIndex].
    destruct (replayDeltas (S fuel) data _ baseText) as [ct| |] eqn:Er;
      try discriminate H.
    now rewrite (replayDeltas_mono (S fuel) (S fuel') data _ ltac:(lia) _ _ Er).
Qed.

Lemma replayDeltas_app (fuel : nat) (data : ParsedData) (l1 l2 : list string)
    (t : string) :
  replayDeltas fuel data (l1 ++ l2) t
  = (t' ← replayDeltas fuel data l1 t; replayDeltas fuel data l2 t').
Proof.
  revert t; induction l1 as [|v l1 IH]; intros t; [reflexivity|].
  cbn [app replayDeltas].
  destruct (truthyAt (deltas data) v
            && negb (includesChar "=" (orEmpty (deltas data !! v))));
    [|apply IH].
  destruct (decodeDiff fuel (orEmpty (deltas data !! v))); cbn; auto.
Qed.

(** ** The record a commit appends *)

Lemma reference_payload (base : string) :
  includesChar ":" base = false ->
  indexOf "=" (String "=" base) = 0
  /\ indexOfFrom ":" 1 (String "=" base) = -1
  /\ referencedName (String "=" base) = base.
Proof.
  intros Hbase.
  assert (Hcolon : indexOfFrom ":" 1 (String "=" base) = -1).
  { unfold indexOfFrom. cbn [String.length Nat.min dropStr].
    now rewrite (findChar_absent _ _ Hbase). }
  split; [reflexivity|]. split; [exact Hcolon|].
  unfold referencedName. rewrite Hcolon. cbn [Z.eqb negb].
  exact (substringFrom_suffix "=" base).
Qed.

Lemma hybrid_payload (base diff : string) :
  includesChar ":" base = false ->
  indexOf "=" (String "=" (base ++ String ":" diff)) = 0
  /\ indexOfFrom ":" 1 (String "=" (base ++ String ":" diff)) = 1 + strlen base
  /\ referencedName (String "=" (base ++ String ":" diff)) = base
  /\ substringFrom (String "=" (base ++ String ":" diff))
       (Num (1 + strlen base + 1)) = diff.
Proof.
  intros Hbase.
  assert (Hcolon : indexOfFrom ":" 1 (String "=" (base ++ String ":" diff))
                   = 1 + strlen base).
  { unfold indexOfFrom. cbn [String.length Nat.min dropStr].
    rewrite (findChar_first _ _ _ Hbase). unfold strlen. lia. }
  split; [reflexivity|]. split; [exact Hcolon|]. split.
  - unfold referencedName. rewrite Hcolon.
    destruct (1 + strlen base =? -1) eqn:E;
      [apply Z.eqb_eq in E; pose proof (strlen_nonneg base); lia|].
    cbn [negb]. exact (substring_middle "=" base (String ":" diff)).
  - pose proof (substringFrom_suffix (String "=" (base ++ ":")) diff) as H.
    replace (strlen (String "=" (base ++ ":"))) with (1 + strlen base + 1) in H
      by (unfold strlen; cbn [String.length]; rewrite length_append;
          cbn [String.length]; lia).
    etransitivity; [|exact H]. f_equal.
    now rewrite append_cons, append_assoc.
Qed.

Lemma slice_snoc (vs : list string) (x : string) (a : Z) :
  0 <= a <= Z.of_nat (List.length vs) ->
  slice (vs ++ [x]) a (Z.of_nat (List.length vs))
  = (slice vs a (Z.of_nat (List.length vs) - 1) ++ [x])%list.
Proof.
  intros Ha. unfold slice.
  rewrite drop_app_le by lia.
  rewrite take_ge by (rewrite length_app, length_drop; cbn; lia).
  rewrite take_ge by (rewrite length_drop; lia).
  reflexivity.
Qed.

Section Appended.

Variables (old : ParsedData) (vn p : string).
Hypothesis Hfresh : ~ In vn (versions old).
Hypothesis Hsnap : truthyAt (snapshots old) vn = false.
Hypothesis Htruthy : truthy p = true.
Hypothesis Hclosed :
  forall v, In v (versions old) -> takesReferenceBranch old v = true ->
    In (referencedName (orEmpty (deltas old !! v))) (versions old).

Lemma appended_same : sameRecords (versions old) (appendDelta old vn p) old.
Proof.
  intros k Hk. unfold appendDelta, truthyAt. cbn [snapshots deltas].
  rewrite lookup_insert_ne by (intros ->; contradiction). repeat split.
Qed.

Lemma appended_listed (fuel : nat) (v : string) :
  In v (versions old) ->
  resolveData fuel (appendDelta old vn p) v = resolveData fuel old v.
Proof.
  intros Hv.
  apply (resolveData_prefix (appendDelta old vn p) old (versions old) [vn]
           eq_refl eq_refl appended_same); [|now left].
  intros x Hx Hr. left.
  destruct (appended_same x Hx) as (_ & _ & Htd & Hed).
  rewrite Hed. apply Hclosed; [exact Hx|].
  unfold takesReferenceBranch in *. now rewrite <- Htd, <- Hed.
Qed.

Lemma appended_entry :
  includes vn (versions (appendDelta old vn p)) = true
  /\ truthyAt (snapshots (appendDelta old vn p)) vn = false
  /\ deltas (appendDelta old vn p) !! vn = Some p
  /\ truthyAt (deltas (appendDelta old vn p)) vn = true.
Proof.
  assert (Hd : deltas (appendDelta old vn p) !! vn = Some p)
    by apply lookup_insert_eq.
  repeat split.
  - apply includes_In. cbn. apply in_or_app. right. now left.
  - exact Hsnap.
  - exact Hd.
  - unfold truthyAt. now rewrite Hd.
Qed.

(** A pure reference shows what the referenced record shows. *)
Lemma appended_reference (fuel : nat) (base : string) :
  p = String "=" base -> includesChar ":" base = false ->
  In base (versions old) ->
  resolveData (S fuel) (appendDelta old vn p) vn = resolveData fuel old base.
Proof.
  intros Hp Hbase Hin.
  destruct appended_entry as (Hinc & Hs & Hd & Ht).
  destruct (reference_payload base Hbase) as (He & Hc & Hr).
  set (new := appendDelta old vn p) in *.
  cbn [resolveData]. rewrite Hinc, Hs. cbn [negb].
  unfold takesReferenceBranch. rewrite Ht, Hd. cbn [orEmpty].
  rewrite Hp, He, Hc, Hr.
  cbn [includesChar Ascii.eqb Bool.eqb orb andb Z.eqb Pos.eqb negb].
  now apply appended_listed.
Qed.

(** A hybrid reference applies its script to what the base shows. *)
Lemma appended_hybrid (fuel : nat) (base script : string) :
  p = String "=" (base ++ String ":" script) ->
  includesChar ":" base = false ->
  In base (versions old) ->
  resolveData (S fuel) (appendDelta old vn p) vn
  = (baseText ← resolveData fuel old base;
     operations ← decodeDiff (S fuel) script;
     Return (Some (applyDiff (orEmpty baseText) operations))).
Proof.
  intros Hp Hbase Hin.
  destruct appended_entry as (Hinc & Hs & Hd & Ht).
  destruct (hybrid_payload base script Hbase) as (He & Hc & Hr & Hscript).
  set (new := appendDelta old vn p) in *.
  cbn [resolveData]. rewrite Hinc, Hs. cbn [negb].
  unfold takesReferenceBranch. rewrite Ht, Hd. cbn [orEmpty].
  rewrite Hp, He, Hc, Hr, Hscript.
  cbn [includesChar Ascii.eqb Bool.eqb orb andb Z.eqb].
  destruct (1 + strlen base =? -1) eqn:E;
    [apply Z.eqb_eq in E; pose proof (strlen_nonneg base); lia|].
  cbn [negb]. unfold new. now rewrite appended_listed.
Qed.

(** A delta without ['='] applies its script to what the chain of the
    last record gives, which is what the last record shows unless it is a
    reference. *)
Lemma appended_delta (fuel : nat) (earlier : list string) (latest : string) :
  includesChar "=" p = false ->
  versions old = (earlier ++ [latest])%list ->
  ~ In latest earlier ->
  takesReferenceBranch old latest = false ->
  resolveData (S fuel) (appendDelta old vn p) vn
  = (latestText ← resolveData (S fuel) old latest;
     operations ← decodeDiff (S fuel) p;
     Return (Some (applyDiff (orEmpty latestText) operations))).
Proof.
  intros Heq Hvs Hnot Href.
  destruct appended_entry as (Hinc & Hs & Hd & Ht).
  set (m := List.length earlier).
  assert (Hlen : List.length (versions old) = S m)
    by (rewrite Hvs, length_app; cbn; unfold m; lia).
  assert (Hlatest : versions old !! m = Some latest).
  { rewrite Hvs. unfold m. rewrite lookup_app_r by lia.
    now rewrite Nat.sub_diag. }
  (* the last record *)
  assert (Hil : includes latest (versions old) = true).
  { apply includes_In. rewrite Hvs. apply in_or_app. right. now left. }
  assert (Hlast : resolveData (S fuel) old latest
                  = (let '(baseText, baseIndex) := findBase old m in
                     currentText ← replayDeltas (S fuel) old
                       (slice (versions old) (baseIndex + 1) (Z.of_nat m)) baseText;
                     Return (Some currentText))).
  { cbn [resolveData]. rewrite Hil. cbn [negb].
    destruct (truthyAt (snapshots old) latest) eqn:Es.
    - destruct m as [|m']; cbn [findBase]; rewrite Hlatest, Es;
        unfold slice;
        match goal with |- context [Z.to_nat ?z] =>
          replace (Z.to_nat z) with 0%nat by lia end;
        cbn [take replayDeltas mbind outcome_bind bind];
        unfold truthyAt in Es; destruct (snapshots old !! latest); 
        [reflexivity|discriminate Es|reflexivity|discriminate Es].
    - rewrite Href.
      assert (Hi : indexOfList latest (versions old) = Z.of_nat m)
        by (rewrite Hvs; apply (indexOfList_app latest earlier []); exact Hnot).
      now rewrite Hi, Nat2Z.id. }
  rewrite Hlast.
  (* the new record: its chain *)
  cbn [resolveData]. rewrite Hinc, Hs. cbn [negb].
  assert (Hrn : takesReferenceBranch (appendDelta old vn p) vn = false).
  { unfold takesReferenceBranch. rewrite Ht, Hd. cbn [orEmpty].
    now rewrite Heq. }
  rewrite Hrn.
  assert (Hidx : indexOfList vn (versions (appendDelta old vn p))
                 = Z.of_nat (List.length (versions old)))
    by (apply (indexOfList_app vn (versions old) []); exact Hfresh).
  rewrite Hidx, Nat2Z.id, Hlen.
  assert (Hbase : findBase (appendDelta old vn p) (S m) = findBase old m).
  { cbn [findBase].
    assert (Hl : versions (appendDelta old vn p) !! S m = Some vn).
    { cbn [appendDelta versions]. rewrite lookup_app_r by lia.
      now rewrite Hlen, Nat.sub_diag. }
    rewrite Hl, Hs.
    apply (findBase_prefix (appendDelta old vn p) old (versions old) [vn]
             eq_refl eq_refl appended_same). lia. }
  rewrite Hbase.
  pose proof (findBase_bound old m) as Hb.
  destruct (findBase old m) as [baseText baseIndex]. cbn [snd] in Hb.
  assert (Hslice : slice (versions (appendDelta old vn p)) (baseIndex + 1)
                     (Z.of_nat (S m))
                   = (slice (versions old) (baseIndex + 1) (Z.of_nat m) ++ [vn])%list).
  { cbn [appendDelta versions]. rewrite <- Hlen.
    rewrite slice_snoc by lia. do 2 f_equal. lia. }
  rewrite Hslice, replayDeltas_app.
  rewrite (replayDeltas_same (appendDelta old vn p) old (versions old)
             appended_same)
    by (intros x Hx; apply (slice_kept old (versions old) eq_refl) in Hx;
        exact Hx).
  destruct (replayDeltas (S fuel) old _ baseText) as [ct| |]; try reflexivity.
  cbn [mbind outcome_bind bind replayDeltas orEmpty].
  rewrite Ht, Hd. cbn [orEmpty]. rewrite Heq. cbn [negb andb].
  destruct (decodeDiff (S fuel) p); reflexivity.
Qed.

End Appended.

Lemma appendDelta_storable (old : ParsedData) (vn p : string) :
  storable old -> ~ In vn (versions old) ->
  includesChar LF vn = false -> truthy p = true -> escapeSafe p = true ->
  storable (appendDelta old vn p).
Proof.
  intros [Hold Hkeys] Hfresh Hlf Htruthy Hsafe.
  assert (Hsnap : snapshots old !! vn = None).
  { apply eq_None_not_Some. intros HS. apply Hfresh, Hkeys. now left. }
  split.
  - intros v Hv. cbn [appendDelta versions] in Hv. apply in_app_or in Hv.
    destruct Hv as [Hv|[<-|[]]].
    + destruct (Hold v Hv) as [Hl Hk]. split; [exact Hl|].
      unfold appendDelta. cbn [snapshots deltas].
      rewrite lookup_insert_ne by (intros ->; contradiction). exact Hk.
    + split; [exact Hlf|]. right. split; [exact Hsnap|].
      exists p. unfold appendDelta. cbn [deltas].
      now rewrite lookup_insert_eq.
  - intros k Hk. unfold appendDelta in *. cbn [versions snapshots deltas] in *.
    apply in_or_app.
    destruct (decide (vn = k)) as [->|Hk']; [right; now left|left].
    rewrite lookup_insert_ne in Hk by assumption. now apply Hkeys.
Qed.

Lemma findSameText_some (fuel : nat) (decompressed text : string)
    (existing : list string) (found : string) :
  findSameText fuel decompressed text existing = Return (Some found) ->
  In found existing
  /\ getVersionText fuel decompressed found = Return (Some text).
Proof.
  induction existing as [|v rest IH]; [discriminate|].
  cbn [findSameText].
  destruct (getVersionText fuel decompressed v) as [t| |] eqn:E;
    cbn [mbind outcome_bind bind]; try discriminate.
  destruct (decide (t = Some text)) as [->|Hne].
  - intros H. injection H as <-. split; [now left|exact E].
  - intros H. destruct (IH H) as [Hin Hf]. split; [now right|exact Hf].
Qed.

Lemma findSameText_none (fuel : nat) (decompressed text : string)
    (existing : list string) (v : string) (t : option string) :
  findSameText fuel decompressed text existing = Return None ->
  In v existing ->
  getVersionText fuel decompressed v = Return t -> t <> Some text.
Proof.
  induction existing as [|x rest IH]; [intros _ []|].
  cbn [findSameText].
  destruct (getVersionText fuel decompressed x) as [tx| |] eqn:E;
    cbn [mbind outcome_bind bind]; try discriminate.
  destruct (decide (tx = Some text)) as [->|Hne]; [discriminate|].
  intros H [<-|Hin] Hv; [congruence|now apply IH].
Qed.

Lemma forEach_In {A B : Type} (f : A -> outcome B) (l : list A)
    (ys : list B) (y : B) :
  forEach f l = Return ys -> In y ys -> exists x, In x l /\ f x = Return y.
Proof.
  revert ys; induction l as [|x l IH]; intros ys.
  - cbn. intros H. injection H as <-. intros [].
  - cbn [forEach]. destruct (f x) as [y0| |] eqn:E;
      cbn [mbind outcome_bind bind]; try discriminate.
    destruct (forEach f l) as [ys0| |]; cbn [mbind outcome_bind bind];
      try discriminate.
    intros H. injection H as <-. intros [<-|Hin].
    + exists x. split; [now left|exact E].
    + destruct (IH ys0 eq_refl Hin) as (x' & Hx' & Hf).
      exists x'. split; [now right|exact Hf].
Qed.

Lemma head_sortByLength_In (options : list DiffOption) (best : DiffOption) :
  head (sortByLength options) = Some best -> In best options.
Proof.
  intros H. destruct options as [|o rest]; [discriminate H|].
  destruct (head_sortByLength (o :: rest)) as (b & k & Hhead & Hk & _);
    [discriminate|].
  rewrite Hhead in H. injection H as <-.
  apply list_elem_of_In. eapply list_elem_of_lookup_2. exact Hk.
Qed.

(** Onto existing records [commit] appends one delta record: the stored
    payload under the assigned name. *)
Lemma commit_stores (this : TextVersion) (fuel : nat) (storage text : string)
    (name : option string) :
  let parsedData := parseStorage (decompress this storage) in
  let versionName :=
    if truthy (orEmpty name)
    then resolveVersionName (versions parsedData) (orEmpty name)
    else resolveVersionName (versions parsedData) (generateHash text) in
  versions parsedData <> [] ->
  commit this fuel storage text name
  = (payload ← storedPayload this fuel storage text name;
     Return (compress this
               (serializeStorage (appendDelta parsedData versionName payload)))).
Proof.
  intros parsedData versionName Hne. unfold commit, storedPayload.
  fold parsedData. fold versionName.
  destruct (findSameText fuel (decompress this storage) text (versions parsedData))
    as [[existing|]| |]; cbn [mbind outcome_bind bind]; try reflexivity.
  cbn [versions snapshots deltas].
  destruct (Z.of_nat (List.length (versions parsedData ++ [versionName])) =? 1)
    eqn:E.
  { apply Z.eqb_eq in E. rewrite length_app in E. cbn in E.
    destruct (versions parsedData); [congruence|cbn in E; lia]. }
  destruct (findBestDiffOption this fuel _ text versionName (decompress this storage))
    as [[best|]| |]; reflexivity.
Qed.

(** The stored payload is a reference to a record that shows the text, or
    else the delta against the last record or a hybrid against an earlier
    one. *)
Lemma storedPayload_form (this : TextVersion) (fuel : nat) (storage text : string)
    (name : option string) (payload : string)
    (earlier : list string) (latest : string) :
  let decompressed := decompress this storage in
  let parsedData := parseStorage decompressed in
  versions parsedData = (earlier ++ [latest])%list ->
  storedPayload this fuel storage text name = Return payload ->
  (exists found,
     In found (versions parsedData)
     /\ getVersionText fuel decompressed found = Return (Some text)
     /\ payload = String "=" found)
  \/ (findSameText fuel decompressed text (versions parsedData) = Return None
      /\ ((exists latestText,
             getVersionText fuel decompressed latest = Return latestText
             /\ payload
                = encodeDiff (calculateDiff this (orEmpty latestText) text))
          \/ (exists base baseText,
                In base (versions parsedData)
                /\ getVersionText fuel decompressed base = Return baseText
                /\ payload
                   = String "=" (base ++ String ":"
                       (encodeDiff
                          (calculateDiff this (orEmpty baseText) text)))))).
Proof.
  intros decompressed parsedData Hvs. unfold storedPayload.
  fold decompressed. fold parsedData.
  set (versionName :=
         if truthy (orEmpty name)
         then resolveVersionName (versions parsedData) (orEmpty name)
         else resolveVersionName (versions parsedData) (generateHash text)).
  destruct (findSameText fuel decompressed text (versions parsedData))
    as [[found|]| |] eqn:Esame; cbn [mbind outcome_bind bind]; try discriminate.
  - intros H. injection H as <-. left. exists found.
    destruct (findSameText_some _ _ _ _ _ Esame) as [Hin Hf]. auto.
  - unfold findBestDiffOption.
    destruct (diffOptions this fuel _ text versionName decompressed)
      as [options| |] eqn:Eopt; cbn [mbind outcome_bind bind]; try discriminate.
    destruct (head (sortByLength options)) as [best|] eqn:Ebest;
      try discriminate.
    intros H. injection H as <-. right. split; [reflexivity|].
    apply head_sortByLength_In in Ebest.
    unfold diffOptions, deltaOption in Eopt. cbn [versions] in Eopt.
    rewrite Hvs, !length_app in Eopt. cbn [List.length] in Eopt.
    destruct (1 <? Z.of_nat (List.length earlier + 1 + 1)) eqn:E1;
      [|apply Z.ltb_ge in E1; lia].
    replace (List.length earlier + 1 + 1 - 2)%nat with (List.length earlier)
      in Eopt by lia.
    rewrite <- app_assoc in Eopt.
    rewrite lookup_app_r in Eopt by lia.
    rewrite Nat.sub_diag in Eopt. cbn [lookup list_lookup app orEmpty] in Eopt.
    rewrite take_app_length in Eopt.
    destruct (getVersionText fuel decompressed latest) as [latestText| |] eqn:El;
      cbn [mbind outcome_bind bind] in Eopt; try discriminate.
    destruct (forEach (hybridOption this fuel text versionName decompressed) earlier)
      as [others| |] eqn:Eo; cbn [mbind outcome_bind bind] in Eopt;
      try discriminate.
    injection Eopt as <-. cbn [app] in Ebest.
    destruct Ebest as [<-|Hin].
    + left. exists latestText. split; reflexivity.
    + right. destruct (forEach_In _ _ _ _ Eo Hin) as (base & Hbase & Hf).
      unfold hybridOption in Hf.
      destruct (getVersionText fuel decompressed base) as [baseText| |] eqn:Eb;
        cbn [mbind outcome_bind bind] in Hf; try discriminate.
      injection Hf as <-. exists base, baseText. cbn [content].
      split; [rewrite Hvs; apply in_or_app; now left|].
      split; [exact Eb|reflexivity].
Qed.



(** ** What a commit makes the new version show *)

Lemma encoded_head (l : list DiffOperation) :
  (l = [] /\ join "" (map encodeOp l) = "")
  \/ exists c r, join "" (map encodeOp l) = String c r
                 /\ (c = "R" \/ c = "D" \/ c = "I")%char.
Proof.
  destruct l as [|op l]; [left; split; reflexivity|right].
  cbn [map]. rewrite join_empty_cons.
  destruct op; cbn [encodeOp]; eexists _, _; (split; [reflexivity|auto]).
Qed.

Lemma encodeDiff_not_reference (operations : list DiffOperation) :
  indexOf "=" (encodeDiff operations) <> 0.
Proof.
  unfold encodeDiff.
  destruct (encoded_head (dropTrailing isRetain operations))
    as [ [_ Hnil] | (c & r & Hjoin & Hc) ]; rewrite ?Hnil, ?Hjoin;
    [discriminate|].
  unfold indexOf, indexOfFrom. cbn [Nat.min dropStr findChar].
  destruct Hc as [ -> | [ -> | -> ] ]; cbn [Ascii.eqb Bool.eqb];
    destruct (findChar "=" r); cbn; lia.
Qed.

Lemma encodeDiff_empty (operations : list DiffOperation) :
  encodeDiff operations = "" -> dropTrailing isRetain operations = [].
Proof.
  unfold encodeDiff.
  destruct (encoded_head (dropTrailing isRetain operations))
    as [ [H _] | (c & r & Hjoin & _) ]; [auto|rewrite Hjoin; discriminate].
Qed.

Lemma applyDiff_nil (text : string) : applyDiff text [] = text.
Proof.
  rewrite applyDiff_finish. cbn [fold_left].
  rewrite finishDiff_drop by lia. reflexivity.
Qed.

(** A listed record that is no reference always shows a text. *)
Lemma resolveData_chain_some (fuel : nat) (data : ParsedData) (v : string)
    (result : option string) :
  In v (versions data) -> takesReferenceBranch data v = false ->
  resolveData fuel data v = Return result -> exists t, result = Some t.
Proof.
  intros Hin Href. destruct fuel as [|fuel]; [discriminate|].
  cbn [resolveData]. apply includes_In in Hin. rewrite Hin, Href. cbn [negb].
  destruct (truthyAt (snapshots data) v) eqn:Es.
  - unfold truthyAt in Es. destruct (snapshots data !! v) as [t|];
      [|discriminate Es].
    intros H. injection H as <-. now exists t.
  - destruct (findBase data _) as [baseText baseIndex].
    destruct (replayDeltas _ _ _ _) as [ct| |]; cbn; try discriminate.
    intros H. injection H as <-. now exists ct.
Qed.

(** X14.  What a commit onto existing records makes the new version show.
    The records are storable, their references point at listed records, no
    name holds a colon, the last name is listed once, the given name holds
    no line feed, no stored name and not the assigned one is a key of
    [Object.prototype], and the provider's diff against the new text
    spells out both texts.  Then the version the
    commit adds shows the committed text, and [latest] returns it, with any
    fuel above a bound, as soon as the payload it stores holds no backslash
    followed by t, r or n and either starts with [=] (a reference or a
    hybrid) or holds no [=] at all while the last record is not a
    reference. *)
Theorem commit_shows_text (this : TextVersion) (fuel : nat)
    (storage text : string) (name : option string) (payload : string)
    (earlier : list string) (latestVersion : string) :
  let parsedData := parseStorage (decompress this storage) in
  let versionName :=
    if truthy (orEmpty name)
    then resolveVersionName (versions parsedData) (orEmpty name)
    else resolveVersionName (versions parsedData) (generateHash text) in
  let result :=
    compress this
      (serializeStorage (appendDelta parsedData versionName payload)) in
  (forall x, decompress this (compress this x) = x) ->
  noPrototypeKey (versionName :: versions parsedData) = true ->
  versions parsedData = (earlier ++ [latestVersion])%list ->
  ~ In latestVersion earlier ->
  (forall v, In v (versions parsedData) -> storableRecord parsedData v) ->
  (forall v, In v (versions parsedData) ->
     takesReferenceBranch parsedData v = true ->
     In (referencedName (orEmpty (deltas parsedData !! v))) (versions parsedData)) ->
  (forall v, In v (versions parsedData) -> includesChar ":" v = false) ->
  includesChar LF (orEmpty name) = false ->
  (forall oldText,
     let diffs := diff_cleanupSemantic (dmp this)
                    (diff_main (dmp this) oldText text) in
     oldSide diffs = oldText /\ newSide diffs = text) ->
  storedPayload this fuel storage text name = Return payload ->
  escapeSafe payload = true ->
  indexOf "=" payload = 0
  \/ (includesChar "=" payload = false
      /\ takesReferenceBranch parsedData latestVersion = false) ->
  commit this fuel storage text name = Return result
  /\ exists enough, forall fuel', (enough <= fuel')%nat ->
       show this fuel' result versionName = Return (Some text)
       /\ latest this fuel' result = Return text.
Proof.
  intros parsedData versionName result Hlaw Hown Hvs Hnot Hold Hclosed Hcolon
    Hname Hdmp Hstored Hsafe Hcond.
  assert (Hne : versions parsedData <> [])
    by (rewrite Hvs; destruct earlier; discriminate).
  split.
  { rewrite (commit_stores this fuel storage text name Hne), Hstored.
    reflexivity. }
  pose proof (storedPayload_form this fuel storage text name payload earlier
                latestVersion Hvs Hstored) as Hform.
  fold parsedData in Hform.
  pose proof (assigned_fresh (versions parsedData) text name) as Hfresh.
  fold versionName in Hfresh.
  pose proof (assigned_no_LF (versions parsedData) text name Hname) as Hlf.
  fold versionName in Hlf.
  destruct (unlisted_not_truthy (decompress this storage) versionName Hfresh)
    as [Hns _]. fold parsedData in Hns.
  assert (Hstorable : storable parsedData)
    by (split; [exact Hold|apply parseStorage_keysListed]).
  assert (Hparse : truthy payload = true ->
            parseStorage (decompress this result)
            = appendDelta parsedData versionName payload).
  { intros Htruthy. unfold result. rewrite Hlaw.
    apply parseStorage_serializeStorage. now apply appendDelta_storable. }
  assert (Hshow : truthy payload = true -> forall fuel',
            show this fuel' result versionName
            = resolveData fuel' (appendDelta parsedData versionName payload)
                versionName).
  { intros Htruthy fuel'. unfold show.
    now rewrite getVersionText_resolveData, (Hparse Htruthy). }
  assert (Hlatest : truthy payload = true -> forall fuel',
            show this fuel' result versionName = Return (Some text) ->
            latest this fuel' result = Return text).
  { intros Htruthy fuel' H. unfold latest. rewrite (Hparse Htruthy).
    cbn [appendDelta versions]. rewrite length_app. cbn [List.length].
    destruct (Z.of_nat (List.length (versions parsedData) + 1) =? 0) eqn:E;
      [apply Z.eqb_eq in E; lia|].
    rewrite lookup_app_r by lia.
    replace (List.length (versions parsedData) + 1 - 1
             - List.length (versions parsedData))%nat with 0%nat by lia.
    cbn [lookup list_lookup orEmpty]. unfold show in H. now rewrite H. }
  assert (Happly : forall oldText,
            applyDiff oldText (calculateDiff this oldText text) = text)
    by (intros oldText; apply calculateDiff_applies; do 3 right; apply Hdmp).
  assert (Hlast : In latestVersion (versions parsedData))
    by (rewrite Hvs; apply in_or_app; right; now left).
  destruct Hform as [(found & Hin & Hfound & Hp)
                    |(Hnone & [(latestText & Hlt & Hp)
                              |(base & baseText & Hin & Hbase & Hp)])].
  - (* a reference to a record that shows the text *)
    assert (Htruthy : truthy payload = true) by now rewrite Hp.
    exists (S fuel). intros [|f] Hle; [lia|].
    assert (H : show this (S f) result versionName = Return (Some text)).
    { rewrite (Hshow Htruthy).
      rewrite (appended_reference parsedData versionName payload Hfresh Hns
                 Htruthy Hclosed f found Hp (Hcolon found Hin) Hin).
      apply (resolveData_mono fuel); [lia|].
      rewrite getVersionText_resolveData in Hfound. exact Hfound. }
    split; [exact H|now apply Hlatest].
  - (* the delta against the last record *)
    destruct Hcond as [Hzero|[Heq Href]];
      [rewrite Hp in Hzero; now apply encodeDiff_not_reference in Hzero|].
    rewrite getVersionText_resolveData in Hlt. fold parsedData in Hlt.
    destruct (resolveData_chain_some _ _ _ _ Hlast Href Hlt) as [t ->].
    cbn [orEmpty] in Hp.
    assert (Hdiffer : t <> text).
    { intros ->.
      apply (findSameText_none _ _ _ _ latestVersion (Some text) Hnone Hlast);
        [|reflexivity].
      rewrite getVersionText_resolveData. exact Hlt. }
    destruct (calculateDiff_operations this t text) as [_ Hknown].
    assert (Htruthy : truthy payload = true).
    { destruct payload; [|reflexivity]. exfalso. apply Hdiffer.
      symmetry in Hp. apply encodeDiff_empty in Hp.
      rewrite <- (Happly t), <- applyDiff_dropTrailing, Hp by exact Hknown.
      symmetry. apply applyDiff_nil. }
    exists (S (Nat.max fuel (List.length (calculateDiff this t text)))).
    intros [|f] Hle; [lia|].
    assert (H : show this (S f) result versionName = Return (Some text)).
    { rewrite (Hshow Htruthy).
      rewrite (appended_delta parsedData versionName payload Hfresh Hns
                 Htruthy f earlier latestVersion Heq Hvs Hnot Href).
      rewrite (resolveData_mono fuel (S f) _ _ _ ltac:(lia) Hlt).
      cbn [mbind outcome_bind bind orEmpty]. rewrite Hp.
      rewrite decodeDiff_encoded by (auto; lia).
      cbn [mbind outcome_bind bind].
      now rewrite applyDiff_dropTrailing, Happly. }
    split; [exact H|now apply Hlatest].
  - (* a hybrid against an earlier record *)
    assert (Htruthy : truthy payload = true) by now rewrite Hp.
    destruct (calculateDiff_operations this (orEmpty baseText) text)
      as [_ Hknown].
    exists (S (Nat.max fuel
                 (List.length (calculateDiff this (orEmpty baseText) text)))).
    intros [|f] Hle; [lia|].
    assert (H : show this (S f) result versionName = Return (Some text)).
    { rewrite (Hshow Htruthy).
      rewrite (appended_hybrid parsedData versionName payload Hfresh Hns
                 Htruthy Hclosed f base _ Hp (Hcolon base Hin) Hin).
      rewrite getVersionText_resolveData in Hbase. fold parsedData in Hbase.
      rewrite (resolveData_mono fuel f _ _ _ ltac:(lia) Hbase).
      cbn [mbind outcome_bind bind].
      rewrite decodeDiff_encoded by (auto; lia).
      cbn [mbind outcome_bind bind].
      now rewrite applyDiff_dropTrailing, Happly. }
    split; [exact H|now apply Hlatest].
Qed.

Lemma commit_shows_text_witness :
  commit plainEngine 5 ":2:v1:Hello" "Hello!" (Some "v2")
  = Return (":2:v1:Hello" ++ str1 LF ++ "2:v2:D5I6:Hello!")
  /\ exists enough, forall fuel', (enough <= fuel')%nat ->
       show plainEngine fuel' (":2:v1:Hello" ++ str1 LF ++ "2:v2:D5I6:Hello!") "v2"
       = Return (Some "Hello!")
       /\ latest plainEngine fuel' (":2:v1:Hello" ++ str1 LF ++ "2:v2:D5I6:Hello!")
          = Return "Hello!".
Proof.
  apply (commit_shows_text plainEngine 5 ":2:v1:Hello" "Hello!" (Some "v2")
           "D5I6:Hello!" [] "v1");
    try reflexivity.
  - intros [].
  - intros v [<-|[]]. split; [reflexivity|]. left. exists "Hello". repeat split.
  - intros v [<-|[]] H. discriminate H.
  - intros v [<-|[]]. reflexivity.
  - intros oldText. cbn. now rewrite append_empty_r.
  - right. split; reflexivity.
Defined.

(** ** Common prefix and suffix lengths *)

Lemma get_listed (i : nat) (s : string) :
  (i < String.length s)%nat -> exists c, String.get i s = Some c.
Proof.
  revert i; induction s as [|a s IH]; intros i Hi; [cbn in Hi; lia|].
  destruct i as [|i]; [now exists a|]. cbn in *. apply IH. lia.
Qed.

Lemma takeStr_snoc (i : nat) (s : string) (c : ascii) :
  String.get i s = Some c -> takeStr (S i) s = takeStr i s ++ String c "".
Proof.
  revert i; induction s as [|a s IH]; intros i H; [destruct i; discriminate H|].
  destruct i as [|i].
  - cbn in H. injection H as ->. now destruct s.
  - cbn [String.get] in H. change (takeStr (S (S i)) (String a s))
      with (String a (takeStr (S i) s)).
    rewrite (IH _ H). reflexivity.
Qed.

Lemma dropStr_get (k : nat) (s : string) (c : ascii) :
  String.get k s = Some c -> dropStr k s = String c (dropStr (S k) s).
Proof.
  revert k; induction s as [|a s IH]; intros k H; [destruct k; discriminate H|].
  destruct k as [|k].
  - cbn in H. injection H as ->. reflexivity.
  - cbn [String.get] in H. cbn [dropStr]. apply (IH _ H).
Qed.

Lemma charAt_nat (s : string) (i : nat) :
  charAt s (Num (Z.of_nat i)) = String.get i s.
Proof.
  unfold charAt. destruct (Z.of_nat i <? 0) eqn:E; [apply Z.ltb_lt in E; lia|].
  now rewrite Nat2Z.id.
Qed.

Lemma commonPrefixLoop_spec (str1 str2 : string) (fuel : nat) :
  forall i : nat,
    let m := Nat.min (String.length str1) (String.length str2) in
    (i <= m)%nat -> (m - i < fuel)%nat ->
    takeStr i str1 = takeStr i str2 ->
    exists n : nat,
      commonPrefixLoop fuel str1 str2 (Z.of_nat m) (Z.of_nat i)
      = Return (Z.of_nat n)
      /\ (i <= n <= m)%nat
      /\ takeStr n str1 = takeStr n str2
      /\ ((n < m)%nat -> String.get n str1 <> String.get n str2).
Proof.
  induction fuel as [|fuel IH]; intros i m Hi Hfuel Hpre; [lia|].
  cbn [commonPrefixLoop].
  destruct (Z.of_nat i <? Z.of_nat m) eqn:E.
  - apply Z.ltb_lt in E. rewrite !charAt_nat. cbn [andb].
    destruct (get_listed i str1 ltac:(lia)) as [c1 H1].
    destruct (get_listed i str2 ltac:(lia)) as [c2 H2].
    rewrite H1, H2. cbn [sameChar].
    destruct (Ascii.eqb c1 c2) eqn:Ec.
    + apply Ascii.eqb_eq in Ec. subst c2.
      replace (Z.of_nat i + 1) with (Z.of_nat (S i)) by lia.
      destruct (IH (S i)) as (n & Hn & Hb & Ht & Hd); [fold m; lia|fold m; lia| |].
      * now rewrite (takeStr_snoc _ _ _ H1), (takeStr_snoc _ _ _ H2), Hpre.
      * exists n. repeat split; auto; lia.
    + apply Ascii.eqb_neq in Ec. exists i. repeat split; auto; try lia.
      intros _. rewrite H1, H2. congruence.
  - apply Z.ltb_ge in E. exists i. cbn [andb]. repeat split; auto; try lia.
Qed.

Lemma commonSuffixLoop_spec (str1 str2 : string) (fuel : nat) :
  forall i : nat,
    let m := Nat.min (String.length str1) (String.length str2) in
    (i <= m)%nat -> (m - i < fuel)%nat ->
    dropStr (String.length str1 - i) str1 = dropStr (String.length str2 - i) str2 ->
    exists n : nat,
      commonSuffixLoop fuel str1 str2 (Z.of_nat m) (Z.of_nat i)
      = Return (Z.of_nat n)
      /\ (i <= n <= m)%nat
      /\ dropStr (String.length str1 - n) str1
         = dropStr (String.length str2 - n) str2
      /\ ((n < m)%nat ->
          String.get (String.length str1 - 1 - n) str1
          <> String.get (String.length str2 - 1 - n) str2).
Proof.
  induction fuel as [|fuel IH]; intros i m Hi Hfuel Hsuf; [lia|].
  cbn [commonSuffixLoop].
  destruct (Z.of_nat i <? Z.of_nat m) eqn:E.
  - apply Z.ltb_lt in E. cbn [andb]. unfold strlen.
    replace (Z.of_nat (String.length str1) - 1 - Z.of_nat i)
      with (Z.of_nat (String.length str1 - 1 - i)) by lia.
    replace (Z.of_nat (String.length str2) - 1 - Z.of_nat i)
      with (Z.of_nat (String.length str2 - 1 - i)) by lia.
    rewrite !charAt_nat.
    destruct (get_listed (String.length str1 - 1 - i) str1 ltac:(lia)) as [c1 H1].
    destruct (get_listed (String.length str2 - 1 - i) str2 ltac:(lia)) as [c2 H2].
    rewrite H1, H2. cbn [sameChar].
    destruct (Ascii.eqb c1 c2) eqn:Ec.
    + apply Ascii.eqb_eq in Ec. subst c2.
      replace (Z.of_nat i + 1) with (Z.of_nat (S i)) by lia.
      destruct (IH (S i)) as (n & Hn & Hb & Ht & Hd); [fold m; lia|fold m; lia| |].
      * replace (String.length str1 - S i)%nat
          with (String.length str1 - 1 - i)%nat by lia.
        replace (String.length str2 - S i)%nat
          with (String.length str2 - 1 - i)%nat by lia.
        rewrite (dropStr_get _ _ _ H1), (dropStr_get _ _ _ H2).
        replace (S (String.length str1 - 1 - i))
          with (String.length str1 - i)%nat by lia.
        replace (S (String.length str2 - 1 - i))
          with (String.length str2 - i)%nat by lia.
        now rewrite Hsuf.
      * exists n. repeat split; auto; lia.
    + apply Ascii.eqb_neq in Ec. exists i. repeat split; auto; try lia.
      intros _. rewrite H1, H2. congruence.
  - apply Z.ltb_ge in E. exists i. cbn [andb]. repeat split; auto; try lia.
Qed.

(** X15.  With fuel for one test more than the shorter text has characters,
    [getCommonPrefixLength] returns the length of the longest common
    prefix: the two texts agree on that many leading code units, and they
    differ at the next one unless one of the texts ends there. *)
Theorem getCommonPrefixLength_longest (fuel : nat) (str1 str2 : string) :
  (Nat.min (String.length str1) (String.length str2) < fuel)%nat ->
  exists n,
    getCommonPrefixLength fuel str1 str2 = Return n
    /\ 0 <= n <= Z.min (strlen str1) (strlen str2)
    /\ substring str1 (Num 0) (Num n) = substring str2 (Num 0) (Num n)
    /\ (n < Z.min (strlen str1) (strlen str2) ->
        charAt str1 (Num n) <> charAt str2 (Num n)).
Proof.
  intros Hfuel.
  destruct (commonPrefixLoop_spec str1 str2 fuel 0) as (n & Hn & Hb & Ht & Hd);
    [lia|lia|reflexivity|].
  exists (Z.of_nat n). unfold getCommonPrefixLength, strlen.
  rewrite <- Nat2Z.inj_min. split; [exact Hn|]. split; [lia|]. split.
  - rewrite !substring_ordered by lia.
    cbn [Z.to_nat dropStr]. now rewrite Z.sub_0_r, Nat2Z.id.
  - intros Hlt. rewrite !charAt_nat. apply Hd. lia.
Qed.

Lemma getCommonPrefixLength_longest_witness :
  exists n,
    getCommonPrefixLength 6 "Hello, World!" "Help" = Return n
    /\ 0 <= n <= Z.min (strlen "Hello, World!") (strlen "Help")
    /\ substring "Hello, World!" (Num 0) (Num n) = substring "Help" (Num 0) (Num n)
    /\ (n < Z.min (strlen "Hello, World!") (strlen "Help") ->
        charAt "Hello, World!" (Num n) <> charAt "Help" (Num n)).
Proof.
  apply (getCommonPrefixLength_longest 6 "Hello, World!" "Help"). cbn. lia.
Defined.

(** X16.  With the same fuel, [getCommonSuffixLength] returns the length of
    the longest common suffix: the two texts agree on that many trailing
    code units, and they differ at the one before unless one of the texts
    starts there. *)
Theorem getCommonSuffixLength_longest (fuel : nat) (str1 str2 : string) :
  (Nat.min (String.length str1) (String.length str2) < fuel)%nat ->
  exists n,
    getCommonSuffixLength fuel str1 str2 = Return n
    /\ 0 <= n <= Z.min (strlen str1) (strlen str2)
    /\ substringFrom str1 (Num (strlen str1 - n))
       = substringFrom str2 (Num (strlen str2 - n))
    /\ (n < Z.min (strlen str1) (strlen str2) ->
        charAt str1 (Num (strlen str1 - 1 - n))
        <> charAt str2 (Num (strlen str2 - 1 - n))).
Proof.
  intros Hfuel.
  destruct (commonSuffixLoop_spec str1 str2 fuel 0) as (n & Hn & Hb & Ht & Hd);
    [lia|lia| |].
  { rewrite !Nat.sub_0_r, !dropStr_ge; auto. }
  exists (Z.of_nat n). unfold getCommonSuffixLength, strlen.
  rewrite <- Nat2Z.inj_min. split; [exact Hn|]. split; [lia|]. split.
  - rewrite !substringFrom_drop by lia.
    replace (Z.to_nat (Z.of_nat (String.length str1) - Z.of_nat n))
      with (String.length str1 - n)%nat by lia.
    replace (Z.to_nat (Z.of_nat (String.length str2) - Z.of_nat n))
      with (String.length str2 - n)%nat by lia.
    exact Ht.
  - intros Hlt.
    replace (Z.of_nat (String.length str1) - 1 - Z.of_nat n)
      with (Z.of_nat (String.length str1 - 1 - n)) by lia.
    replace (Z.of_nat (String.length str2) - 1 - Z.of_nat n)
      with (Z.of_nat (String.length str2 - 1 - n)) by lia.
    rewrite !charAt_nat. apply Hd. lia.
Qed.

Lemma getCommonSuffixLength_longest_witness :
  exists n,
    getCommonSuffixLength 5 "Hello, World!" "old!" = Return n
    /\ 0 <= n <= Z.min (strlen "Hello, World!") (strlen "old!")
    /\ substringFrom "Hello, World!" (Num (strlen "Hello, World!" - n))
       = substringFrom "old!" (Num (strlen "old!" - n))
    /\ (n < Z.min (strlen "Hello, World!") (strlen "old!") ->
        charAt "Hello, World!" (Num (strlen "Hello, World!" - 1 - n))
        <> charAt "old!" (Num (strlen "old!" - 1 - n))).
Proof.
  apply (getCommonSuffixLength_longest 5 "Hello, World!" "old!"). cbn. lia.
Defined.

(** ** Removing empty operations *)

Lemma fold_applyOp_filtered (text : string) (operations : list DiffOperation)
    (result : string) (z : Z) :
  forallb lengthKnown operations = true -> 0 <= z ->
  fold_left (applyOp text) (optimizeSimpleOperations operations) (result, Num z)
  = fold_left (applyOp text) operations (result, Num z).
Proof.
  revert result z; induction operations as [|op l IH]; intros result z Hwf Hz;
    [reflexivity|].
  cbn [forallb] in Hwf. apply andb_true_iff in Hwf. destruct Hwf as [Hop Hwf].
  unfold optimizeSimpleOperations in *. cbn [List.filter fold_left].
  destruct op as [[n|]|[n|]|t]; cbn [lengthKnown] in Hop; try discriminate Hop;
    try apply Z.leb_le in Hop; cbn [numPositive].
  - destruct (0 <? n) eqn:E.
    + cbn [fold_left applyOp jsadd]. apply IH; [exact Hwf|lia].
    + apply Z.ltb_ge in E. assert (n = 0) as -> by lia.
      cbn [applyOp jsadd]. rewrite Z.add_0_r.
      rewrite substring_ordered by lia. rewrite Z.sub_diag. cbn [Z.to_nat takeStr].
      rewrite append_empty_r. now apply IH.
  - destruct (0 <? n) eqn:E.
    + cbn [fold_left applyOp jsadd]. apply IH; [exact Hwf|lia].
    + apply Z.ltb_ge in E. assert (n = 0) as -> by lia.
      cbn [applyOp jsadd]. rewrite Z.add_0_r. now apply IH.
  - destruct t as [|a t]; cbn [truthy].
    + cbn [applyOp]. rewrite append_empty_r. now apply IH.
    + cbn [fold_left applyOp]. now apply IH.
Qed.

(** X17.  [optimizeSimpleOperations] keeps exactly the operations with a
    positive length or a non-empty text, in their order, and what it
    removes from a script whose lengths are numbers that are not negative
    changes nothing to the text [applyDiff] builds. *)
Theorem optimizeSimpleOperations_applies (text : string)
    (operations : list DiffOperation) :
  forallb lengthKnown operations = true ->
  forallb nonEmptyOp (optimizeSimpleOperations operations) = true
  /\ optimizeSimpleOperations (optimizeSimpleOperations operations)
     = optimizeSimpleOperations operations
  /\ applyDiff text (optimizeSimpleOperations operations)
     = applyDiff text operations.
Proof.
  intros Hwf. split; [|split].
  - apply forallb_forall. intros op Hop.
    unfold optimizeSimpleOperations in Hop. apply filter_In in Hop.
    destruct Hop as [_ Hop]. destruct op; exact Hop.
  - unfold optimizeSimpleOperations. induction operations as [|op l IH];
      [reflexivity|].
    cbn [forallb] in Hwf. apply andb_true_iff in Hwf. destruct Hwf as [_ Hwf].
    cbn [List.filter].
    destruct (match op with
              | Retain n | Delete n => numPositive n
              | Insert t => truthy t
              end) eqn:E; [|now apply IH].
    cbn [List.filter]. rewrite E. now rewrite IH.
  - rewrite !applyDiff_finish. now rewrite fold_applyOp_filtered.
Qed.

Lemma optimizeSimpleOperations_applies_witness :
  optimizeSimpleOperations
    [Retain (Num 7); Insert ""; Delete (Num 0); Insert "wide "; Retain (Num 0)]
  = [Retain (Num 7); Insert "wide "]
  /\ applyDiff "Hello, World!" [Retain (Num 7); Insert "wide "]
     = applyDiff "Hello, World!"
         [Retain (Num 7); Insert ""; Delete (Num 0); Insert "wide ";
          Retain (Num 0)].
Proof.
  split; [reflexivity|].
  apply (optimizeSimpleOperations_applies "Hello, World!"
           [Retain (Num 7); Insert ""; Delete (Num 0); Insert "wide ";
            Retain (Num 0)]).
  reflexivity.
Defined.

(** ** Failures *)

Lemma indexOfList_bound (v : string) (l : list string) : -1 <= indexOfList v l.
Proof.
  induction l as [|x l IH]; cbn [indexOfList]; [lia|].
  destruct (String.eqb x v); [lia|].
  destruct (indexOfList v l =? -1); lia.
Qed.

Lemma indexOfList_absent (v : string) (l : list string) :
  indexOfList v l = -1 <-> ~ In v l.
Proof.
  induction l as [|x l IH]; cbn [indexOfList In]; [tauto|].
  pose proof (indexOfList_bound v l) as Hb.
  destruct (String.eqb x v) eqn:E.
  - apply String.eqb_eq in E. split; [discriminate|tauto].
  - apply String.eqb_neq in E.
    destruct (indexOfList v l =? -1) eqn:E1.
    + apply Z.eqb_eq in E1. tauto.
    + apply Z.eqb_neq in E1. split; [lia|]. intros H. exfalso. tauto.
Qed.

Lemma replayDeltas_no_throw (fuel : nat) (data : ParsedData) (l : list string)
    (t : string) (e : error) :
  replayDeltas fuel data l t <> Throw e.
Proof.
  revert t; induction l as [|v l IH]; intros t; cbn [replayDeltas];
    [discriminate|].
  destruct (truthyAt (deltas data) v
            && negb (includesChar "=" (orEmpty (deltas data !! v))));
    [|apply IH].
  unfold decodeDiff.
  pose proof (decodeLoop_no_throw fuel (orEmpty (deltas data !! v)) (Num 0) [] e).
  destruct (decodeLoop fuel _ (Num 0) []) as [ops|e'|];
    cbn [mbind outcome_bind bind]; [apply IH| |discriminate].
  intros H'. injection H' as ->. congruence.
Qed.

Lemma resolveData_no_throw (fuel : nat) (data : ParsedData) (v : string)
    (e : error) :
  resolveData fuel data v <> Throw e.
Proof.
  revert v; induction fuel as [|fuel IH]; intros v; cbn [resolveData];
    [discriminate|].
  destruct (negb (includes v (versions data))); [discriminate|].
  destruct (truthyAt (snapshots data) v); [discriminate|].
  destruct (takesReferenceBranch data v).
  - destruct (negb (indexOfFrom ":" 1 (orEmpty (deltas data !! v)) =? -1));
      [|apply IH].
    pose proof (IH (referencedName (orEmpty (deltas data !! v)))) as Hb.
    destruct (resolveData fuel data _) as [b|e'|];
      cbn [mbind outcome_bind bind]; [|congruence|discriminate].
    unfold decodeDiff.
    match goal with |- context [decodeLoop ?f ?s (Num 0) []] =>
      pose proof (decodeLoop_no_throw f s (Num 0) [] e) as Hd;
      destruct (decodeLoop f s (Num 0) []) as [ops|e'|] end;
      cbn [mbind outcome_bind bind]; [discriminate|congruence|discriminate].
  - destruct (findBase data _) as [baseText baseIndex].
    match goal with |- context [replayDeltas ?f ?d ?l ?t] =>
      pose proof (replayDeltas_no_throw f d l t e) as Hr;
      destruct (replayDeltas f d l t) as [ct|e'|] end;
      cbn [mbind outcome_bind bind]; [discriminate|congruence|discriminate].
Qed.

Lemma getVersionText_no_throw (fuel : nat) (storage v : string) (e : error) :
  getVersionText fuel storage v <> Throw e.
Proof. rewrite getVersionText_resolveData. apply resolveData_no_throw. Qed.

Lemma findSameText_no_throw (fuel : nat) (decompressed text : string)
    (existing : list string) (e : error) :
  findSameText fuel decompressed text existing <> Throw e.
Proof.
  induction existing as [|v rest IH]; cbn [findSameText]; [discriminate|].
  pose proof (getVersionText_no_throw fuel decompressed v e) as Hv.
  destruct (getVersionText fuel decompressed v) as [t|e'|];
    cbn [mbind outcome_bind bind]; [|congruence|discriminate].
  destruct (decide (t = Some text)); [discriminate|exact IH].
Qed.

Lemma forEach_no_throw {A B : Type} (f : A -> outcome B) (l : list A) (e : error) :
  (forall x, f x <> Throw e) -> forEach f l <> Throw e.
Proof.
  intros Hf. induction l as [|x l IH]; cbn [forEach]; [discriminate|].
  pose proof (Hf x) as Hx.
  destruct (f x) as [y|e'|]; cbn [mbind outcome_bind bind];
    [|congruence|discriminate].
  destruct (forEach f l) as [ys|e'|]; cbn [mbind outcome_bind bind];
    [discriminate|congruence|discriminate].
Qed.

(** With two names or more in [versions], the candidates are never none. *)
Lemma diffOptions_some (this : TextVersion) (fuel : nat) (data : ParsedData)
    (text versionName decompressed : string) :
  (1 < List.length (versions data))%nat ->
  (forall e, diffOptions this fuel data text versionName decompressed <> Throw e)
  /\ forall options,
       diffOptions this fuel data text versionName decompressed = Return options ->
       options <> [].
Proof.
  intros Hlen. unfold diffOptions, deltaOption.
  destruct (1 <? Z.of_nat (List.length (versions data))) eqn:E;
    [|apply Z.ltb_ge in E; lia].
  set (latestVersion := orEmpty (versions data !! _)).
  assert (Hh : forall e, forEach (hybridOption this fuel text versionName decompressed)
                 (take (List.length (versions data) - 2) (versions data))
               <> Throw e).
  { intros e. apply forEach_no_throw. intros x. unfold hybridOption.
    pose proof (getVersionText_no_throw fuel decompressed x e) as Hx.
    destruct (getVersionText fuel decompressed x) as [b|e'|];
      cbn [mbind outcome_bind bind]; [discriminate|congruence|discriminate]. }
  split.
  - intros e. specialize (Hh e).
    pose proof (getVersionText_no_throw fuel decompressed latestVersion e) as Hl.
    destruct (getVersionText fuel decompressed latestVersion) as [b|e'|];
      cbn [mbind outcome_bind bind]; [|congruence|discriminate].
    destruct (forEach _ _) as [ys|e'|]; cbn [mbind outcome_bind bind];
      [discriminate|congruence|discriminate].
  - intros options.
    destruct (getVersionText fuel decompressed latestVersion) as [b|e'|];
      cbn [mbind outcome_bind bind]; try discriminate.
    destruct (forEach _ _) as [ys|e'|]; cbn [mbind outcome_bind bind];
      try discriminate.
    intros H. injection H as <-. discriminate.
Qed.

Lemma findSameText_exhausts (fuel : nat) (decompressed text : string)
    (existing : list string) :
  findSameText fuel decompressed text existing = OutOfFuel ->
  exists v, In v existing /\ getVersionText fuel decompressed v = OutOfFuel.
Proof.
  induction existing as [|x rest IH]; cbn [findSameText]; [discriminate|].
  pose proof (fun e => getVersionText_no_throw fuel decompressed x e) as Hx.
  destruct (getVersionText fuel decompressed x) as [t|e'|] eqn:E;
    cbn [mbind outcome_bind bind].
  - destruct (decide (t = Some text)); [discriminate|].
    intros H. destruct (IH H) as (v & Hv & Hr). exists v. split; [now right|exact Hr].
  - now destruct (Hx e').
  - intros _. exists x. split; [now left|exact E].
Qed.

Lemma forEach_exhausts {A B : Type} (f : A -> outcome B) (l : list A) :
  (forall x e, f x <> Throw e) ->
  forEach f l = OutOfFuel -> exists x, In x l /\ f x = OutOfFuel.
Proof.
  intros Hf. induction l as [|x l IH]; cbn [forEach]; [discriminate|].
  destruct (f x) as [y|e'|] eqn:E; cbn [mbind outcome_bind bind].
  - destruct (forEach f l) as [ys|e'|]; cbn [mbind outcome_bind bind];
      try discriminate.
    intros _. destruct (IH eq_refl) as (x' & Hx' & Hr).
    exists x'. split; [now right|exact Hr].
  - now destruct (Hf x e').
  - intros _. exists x. split; [now left|exact E].
Qed.

Lemma hybridOption_no_throw (this : TextVersion) (fuel : nat)
    (text versionName decompressed baseVersion : string) (e : error) :
  hybridOption this fuel text versionName decompressed baseVersion <> Throw e.
Proof.
  unfold hybridOption.
  pose proof (getVersionText_no_throw fuel decompressed baseVersion e) as Hb.
  destruct (getVersionText fuel decompressed baseVersion) as [b|e'|];
    cbn [mbind outcome_bind bind]; [discriminate|congruence|discriminate].
Qed.

(** X18.  [commit] fails only where resolving a stored version fails.  When
    no stored name and not the assigned one is a key of [Object.prototype],
    [commit] returns a storage, unless resolving one of the stored versions
    does not end within the fuel (in the source: overflows the stack on a
    chain of references that is cyclic or too deep, or decodes a payload
    for ever).  It raises no error of its own: the list of candidates it
    takes [options[0]] from always holds the delta against the previous
    version. *)
Theorem commit_returns_or_exhausts (this : TextVersion) (fuel : nat)
    (storage text : string) (name : option string) :
  let parsedData := parseStorage (decompress this storage) in
  let versionName :=
    if truthy (orEmpty name)
    then resolveVersionName (versions parsedData) (orEmpty name)
    else resolveVersionName (versions parsedData) (generateHash text) in
  noPrototypeKey (versionName :: versions parsedData) = true ->
  (exists result, commit this fuel storage text name = Return result)
  \/ (commit this fuel storage text name = OutOfFuel
      /\ exists v, In v (versions parsedData)
                   /\ show this fuel storage v = OutOfFuel).
Proof.
  intros parsedData versionName _. unfold commit, show.
  fold parsedData. fold versionName.
  set (decompressed := decompress this storage) in *.
  pose proof (fun e => findSameText_no_throw fuel decompressed text
                         (versions parsedData) e) as Hsame.
  destruct (findSameText fuel decompressed text (versions parsedData))
    as [[found|]|e'|] eqn:Efind; cbn [mbind outcome_bind bind].
  - left. eauto.
  - cbn [versions snapshots deltas].
    destruct (Z.of_nat (List.length (versions parsedData ++ [versionName])) =? 1)
      eqn:E; [left; eauto|].
    apply Z.eqb_neq in E. rewrite length_app in E. cbn [List.length] in E.
    unfold findBestDiffOption.
    set (pushed := mkParsedData (versions parsedData ++ [versionName])
                     (snapshots parsedData) (deltas parsedData)).
    assert (Hlen : (1 < List.length (versions pushed))%nat)
      by (cbn [pushed versions]; rewrite length_app; cbn [List.length]; lia).
    destruct (diffOptions_some this fuel pushed text versionName decompressed Hlen)
      as [Hno Hsome].
    destruct (diffOptions this fuel pushed text versionName decompressed)
      as [options|e'|] eqn:Eopt; cbn [mbind outcome_bind bind].
    + destruct (head_sortByLength options (Hsome options eq_refl))
        as (best & k & -> & _). left. eauto.
    + now destruct (Hno e').
    + right. split; [reflexivity|].
      unfold diffOptions, deltaOption in Eopt.
      destruct (1 <? Z.of_nat (List.length (versions pushed))) eqn:E1;
        [|apply Z.ltb_ge in E1; lia].
      cbn [pushed versions] in Eopt. rewrite length_app in Eopt.
      cbn [List.length] in Eopt.
      replace (List.length (versions parsedData) + 1 - 2)%nat
        with (List.length (versions parsedData) - 1)%nat in Eopt by lia.
      rewrite lookup_app_l in Eopt by lia.
      destruct (versions parsedData !! (List.length (versions parsedData) - 1)%nat)
        as [latestVersion|] eqn:El;
        [|apply lookup_ge_None in El; lia].
      cbn [orEmpty] in Eopt.
      pose proof (fun e => getVersionText_no_throw fuel decompressed latestVersion e)
        as Hl.
      destruct (getVersionText fuel decompressed latestVersion) as [b|e'|] eqn:Eb;
        cbn [mbind outcome_bind bind] in Eopt.
      * destruct (forEach (hybridOption this fuel text versionName decompressed) _)
          as [ys|e'|] eqn:Ef; cbn [mbind outcome_bind bind] in Eopt;
          try discriminate Eopt.
        destruct (forEach_exhausts _ _
                    (hybridOption_no_throw this fuel text versionName decompressed)
                    Ef) as (x & Hx & Hr).
        exists x. split.
        -- apply list_elem_of_In. apply list_elem_of_In in Hx.
           rewrite take_app_le in Hx by lia.
           eapply subseteq_take. exact Hx.
        -- unfold hybridOption in Hr.
           destruct (getVersionText fuel decompressed x) eqn:Ex;
             cbn [mbind outcome_bind bind] in Hr;
             [discriminate Hr|discriminate Hr|reflexivity].
      * now destruct (Hl e').
      * exists latestVersion. split; [|exact Eb].
        apply list_elem_of_In. eapply list_elem_of_lookup_2. exact El.
  - now destruct (Hsame e').
  - right. split; [reflexivity|].
    exact (findSameText_exhausts _ _ _ _ Efind).
Qed.

Lemma commit_returns_or_exhausts_witness :
  (exists result,
     commit plainEngine 5 revertedStorage "abcd" (Some "v4") = Return result)
  \/ (commit plainEngine 5 revertedStorage "abcd" (Some "v4") = OutOfFuel
      /\ exists v, In v ["v1"; "v2"; "v3"]
                   /\ show plainEngine 5 revertedStorage v = OutOfFuel).
Proof.
  apply (commit_returns_or_exhausts plainEngine 5 revertedStorage "abcd" (Some "v4")).
  reflexivity.
Defined.

(** A chain of references that is too deep for the fuel: the commit does
    not return. *)
Example commit_exhausts_on_cycle :
  commit plainEngine 9 ("2:v1:=v2" ++ str1 LF ++ "2:v2:=v1") "x" (Some "v3")
  = OutOfFuel.
Proof. vm_compute. reflexivity. Qed.

(** X19.  [reset] throws when the target is not listed, and the error then
    names the target; for a listed target, in a storage no name of which is
    a key of [Object.prototype], it returns a storage: it resolves no text
    and so always ends. *)
Theorem reset_throws (this : TextVersion) (storage targetVersion : string) :
  let parsedData := parseStorage (decompress this storage) in
  noPrototypeKey (versions parsedData) = true ->
  (~ In targetVersion (versions parsedData) ->
   reset this storage targetVersion = Throw (VersionMissing targetVersion))
  /\ (In targetVersion (versions parsedData) ->
      exists result, reset this storage targetVersion = Return result).
Proof.
  intros parsedData _. unfold reset. fold parsedData.
  pose proof (indexOfList_absent targetVersion (versions parsedData)) as Habs.
  destruct (indexOfList targetVersion (versions parsedData) =? -1) eqn:E.
  - apply Z.eqb_eq in E. split; [reflexivity|]. intros Hin. tauto.
  - apply Z.eqb_neq in E. split; [tauto|]. intros _. eauto.
Qed.

Lemma reset_throws_witness :
  reset plainEngine threeRecords "v9" = Throw (VersionMissing "v9")
  /\ exists result, reset plainEngine threeRecords "v2" = Return result.
Proof.
  destruct (reset_throws plainEngine threeRecords "v9" eq_refl) as [Hmissing _].
  destruct (reset_throws plainEngine threeRecords "v2" eq_refl) as [_ Hlisted].
  split.
  - apply Hmissing. vm_compute. intuition discriminate.
  - apply Hlisted. vm_compute. auto.
Defined.

(** X20.  What [squash] does follows from whether the target is listed and
    from what it resolves to, in a storage no name of which is a key of
    [Object.prototype]: a target that is not listed is reported missing
    before anything is resolved; a listed target that resolves to null is
    reported as having no content; one that resolves to a text gives a
    storage; and where resolving the target does not end within the fuel
    (in the source: overflows the stack), neither does [squash]. *)
Theorem squash_throws (this : TextVersion) (fuel : nat)
    (storage targetVersion : string) :
  let parsedData := parseStorage (decompress this storage) in
  noPrototypeKey (versions parsedData) = true ->
  (~ In targetVersion (versions parsedData) ->
   squash this fuel storage targetVersion
   = Throw (VersionMissing targetVersion))
  /\ (In targetVersion (versions parsedData) ->
      (show this fuel storage targetVersion = Return None ->
       squash this fuel storage targetVersion
       = Throw (ContentUnavailable targetVersion))
      /\ (forall text,
            show this fuel storage targetVersion = Return (Some text) ->
            exists result, squash this fuel storage targetVersion = Return result)
      /\ (show this fuel storage targetVersion = OutOfFuel ->
          squash this fuel storage targetVersion = OutOfFuel)).
Proof.
  intros parsedData _. unfold squash, show. fold parsedData.
  pose proof (indexOfList_absent targetVersion (versions parsedData)) as Habs.
  destruct (indexOfList targetVersion (versions parsedData) =? -1) eqn:E.
  - apply Z.eqb_eq in E. split; [reflexivity|]. intros Hin. tauto.
  - apply Z.eqb_neq in E. split; [tauto|]. intros _.
    split; [|split].
    + intros ->. reflexivity.
    + intros text ->. cbn [mbind outcome_bind bind]. eauto.
    + intros ->. reflexivity.
Qed.

Lemma squash_throws_witness :
  squash plainEngine 7 danglingAfter "v9" = Throw (VersionMissing "v9")
  /\ squash plainEngine 7 danglingAfter "v3" = Throw (ContentUnavailable "v3")
  /\ exists result, squash plainEngine 7 danglingAfter "v2" = Return result.
Proof.
  destruct (squash_throws plainEngine 7 danglingAfter "v9" eq_refl) as [Hmissing _].
  destruct (squash_throws plainEngine 7 danglingAfter "v3" eq_refl) as [_ Hnull].
  destruct (squash_throws plainEngine 7 danglingAfter "v2" eq_refl) as [_ Htext].
  split; [|split].
  - apply Hmissing. vm_compute. intuition discriminate.
  - apply Hnull; [vm_compute; auto|reflexivity].
  - destruct Htext as (_ & Htext & _); [vm_compute; auto|].
    apply (Htext "x"). reflexivity.
Defined.

(** ** Adding a reference *)




(** ** Squash and the versions after the target *)






Section Squashed.

Variables (old new : ParsedData) (before later : list string)
          (target text : string).
Hypothesis Hvs : versions old = (before ++ target :: later)%list.
Hypothesis Hnv : versions new = target :: later.
Hypothesis Hnb : ~ In target before.
Hypothesis Hnl : ~ In target later.
Hypothesis Hdisj : forall v, In v before -> ~ In v later.
Hypothesis Hst : snapshots new !! target = Some text.
Hypothesis Htext : truthy text = true.
Hypothesis Hkind :
  forall v, In v later ->
    snapshots new !! v = snapshots old !! v
    /\ deltas new !! v = deltas old !! v.
Hypothesis Htarget : exists fuel, resolveData fuel old target = Return (Some text).
Hypothesis Href : takesReferenceBranch old target = false.
Hypothesis Hclosed :
  forall v, In v later -> takesReferenceBranch old v = true ->
    In (referencedName (orEmpty (deltas old !! v))) (target :: later).








End Squashed.


